(** * deploy-hlpages: a shallow embedding of the upload action

    The action reads its configuration from the runner's environment
    ([src/internal/context.js]), walks a directory of built assets and posts
    every regular file to a hosting API (the API client), and keeps a small
    status record around the whole pass (the [FileUploader] class).

    JavaScript values are modelled by Rocq data: strings are byte strings
    (UTF-8 for the log messages), numbers that the code only uses as integers
    are [Z], an object used as a bag of named fields is a record together with
    the ordered list of its entries, and [process.env] is a finite map.
    A computation that logs, talks to the network and may throw is a function
    from the trace of observable events so far to the extended trace and either
    a returned value or the thrown error. *)

From stdpp Require Import gmap strings list.
From Stdlib Require Import ZArith Ascii DecimalString Lia.

Set Warnings "-register-all".
Open Scope Z_scope.

(* ===================================================================== *)
(** ** JavaScript values, errors and the effect monad *)
(* ===================================================================== *)

Module Js.

(** An [Error] object: its message and, for errors raised by the HTTP
    client, the status of the response it carries ([error.response.status]). *)
Record JsError : Type := mkError {
  message : string;
  response : option Z
}.

(** [new Error(msg)] *)
Definition new_Error (msg : string) : JsError :=
  {| message := msg; response := None |}.

(** The values a field of the context object can hold. *)
Inductive JsVal : Type :=
| VUndefined
| VString (s : string)
| VNumber (n : Z).

(** [n.toString()] for an integer number. *)
Definition num_toString (n : Z) : string :=
  NilZero.string_of_int (Z.to_int n).

(** Template-literal interpolation [`${v}`]. *)
Definition interpolate (v : JsVal) : string :=
  match v with
  | VUndefined => "undefined"
  | VString s => s
  | VNumber n => num_toString n
  end.

(** JavaScript truthiness of the values above. *)
Definition truthy (v : JsVal) : bool :=
  match v with
  | VUndefined => false
  | VString s => negb (String.eqb s "")
  | VNumber n => negb (Z.eqb n 0)
  end.

Definition of_env (o : option string) : JsVal :=
  match o with
  | None => VUndefined
  | Some s => VString s
  end.

(** How a call ends: it returns a value or throws. *)
Inductive outcome (A : Type) : Type :=
| Returned (a : A)
| Threw (e : JsError).
Arguments Returned {A} a.
Arguments Threw {A} e.

(** Effectful computations over a state [St] (the event trace, possibly
    paired with the object a method runs on). *)
Definition M (St A : Type) : Type := St -> St * outcome A.

Definition ret {St A} (a : A) : M St A := fun s => (s, Returned a).

Definition throw {St A} (e : JsError) : M St A := fun s => (s, Threw e).

Definition bind {St A B} (m : M St A) (k : A -> M St B) : M St B :=
  fun s =>
    match m s with
    | (s', Returned a) => k a s'
    | (s', Threw e) => (s', Threw e)
    end.

(** [try { m } catch (error) { handler error }] *)
Definition try_catch {St A} (m : M St A) (handler : JsError -> M St A) : M St A :=
  fun s =>
    match m s with
    | (s', Returned a) => (s', Returned a)
    | (s', Threw e) => handler e s'
    end.

Definition get {St} : M St St := fun s => (s, Returned s).

Definition modify {St} (f : St -> St) : M St unit := fun s => (f s, Returned tt).

End Js.

Export Js.

Declare Scope js_scope.
Delimit Scope js_scope with js.
Notation "'let*' x ':=' m 'in' k" := (bind m (fun x => k))
  (at level 10, x name, m at level 100, k at level 200) : js_scope.
Notation "m ;; k" := (bind m (fun _ => k))
  (at level 100, k at level 200, right associativity) : js_scope.
Open Scope js_scope.

(* ===================================================================== *)
(** ** Observable events and the host *)
(* ===================================================================== *)

(** A multipart POST as [uploadFile] builds it. *)
Record PostRequest : Type := mkPost {
  post_url : string;
  post_token : string;
  post_fileName : string;      (* formData 'file' part, filename *)
  post_filePath : string;      (* the stream's source *)
  post_pathField : option string  (* formData 'path', when appended *)
}.

(** Everything the action does that the outside can see, in order. *)
Inductive Event : Type :=
| EvDebug (msg : string)                      (* core.debug *)
| EvInfo (msg : string)                       (* core.info *)
| EvWarning (msg : string)                    (* core.warning *)
| EvError (msg : string)                      (* core.error *)
| EvSetFailed (msg : string)                  (* core.setFailed *)
| EvSetOutput (name value : string)           (* core.setOutput *)
| EvDateNow (t : Z)                           (* a reading of Date.now() *)
| EvGet (url token : string) (path : option string)   (* axios.get *)
| EvPost (req : PostRequest)                  (* axios.post *)
| EvUploadFile (filePath uploadPath : string) (* entry into uploadFile *).

Definition Trace : Type := list Event.

(** What [fs.readdirSync (.., {withFileTypes: true})] and [fs.statSync] find
    below a directory: regular files with the result of their [statSync],
    directories with the error their [readdirSync] throws (if any) and their
    entries, and everything else (symbolic links, sockets, ...), for which
    neither [isDirectory()] nor [isFile()] holds. *)
Inductive Dirent : Type :=
| DFile (name : string) (stat : outcome Z)
| DDir (name : string) (unreadable : option JsError) (items : list Dirent)
| DOther (name : string).

Definition dirent_name (d : Dirent) : string :=
  match d with
  | DFile n _ => n
  | DDir n _ _ => n
  | DOther n => n
  end.

Module Upload.

(** The statistics of one pass over a directory (the object that
    [uploadDirectory] builds and returns). *)
Record ErrorEntry : Type := mkErrorEntry {
  file : string;
  error : string
}.

Record UploadResult : Type := mkResult {
  total : Z;
  success : Z;
  failed : Z;
  errors : list ErrorEntry
}.

(** [this.uploadInfo]: the result spread into a new object with an id and
    the two time stamps; [cancel] adds the [cancelled] flag. *)
Record UploadInfo : Type := mkInfo {
  result : UploadResult;
  id : string;
  startTime : Z;
  endTime : Z;
  cancelled : bool
}.

End Upload.

Export Upload.

(** The runner: environment, clock, file system, path conventions and the
    remote API.  The remote answers may depend on everything that happened
    before. *)
Record Host : Type := mkHost {
  process_env : gmap string string;
  date_now : Trace -> Z;
  path_sep : ascii;
  path_dirname : string -> string;
  path_basename : string -> string;
  path_resolve : string -> string;
  fs_lookup : string -> option Dirent;      (* the tree found at a path *)
  fs_existsSync : string -> bool;           (* asked again at upload time *)
  fs_statSync_size : string -> outcome Z;   (* asked again at upload time *)
  axios_get : Trace -> string -> string -> option string -> outcome string;
  axios_post : Trace -> PostRequest -> outcome string;
  error_stack : JsError -> string;          (* error.stack *)
  json_of_result : UploadResult -> string;  (* JSON.stringify(r, null, 2) *)
  json_of_info : UploadInfo -> string       (* JSON.stringify(info) *)
}.

Module Core.

Definition emit (e : Event) : M Trace unit := fun t => (t ++ [e], Returned tt).

Definition debug (msg : string) := emit (EvDebug msg).
Definition info (msg : string) := emit (EvInfo msg).
Definition warning (msg : string) := emit (EvWarning msg).
Definition error (msg : string) := emit (EvError msg).
Definition setFailed (msg : string) := emit (EvSetFailed msg).
Definition setOutput (name value : string) := emit (EvSetOutput name value).

End Core.

(* ===================================================================== *)
(** ** String helpers of the JavaScript runtime *)
(* ===================================================================== *)

Module JsString.

Definition chars (s : string) : list ascii := String.list_ascii_of_string s.
Definition of_chars (l : list ascii) : string := String.string_of_list_ascii l.

Definition reverse (s : string) : string := of_chars (rev (chars s)).

(** [s.replace(/c/g, d)] for a one-character pattern. *)
Fixpoint replace_all (c d : ascii) (s : string) : string :=
  match s with
  | EmptyString => EmptyString
  | String a r => String (if Ascii.eqb a c then d else a) (replace_all c d r)
  end.

(** [toUpperCase] on the ASCII letters (the only ones in input names). *)
Definition upper_char (a : ascii) : ascii :=
  let n := nat_of_ascii a in
  if (97 <=? n)%nat && (n <=? 122)%nat then ascii_of_nat (n - 32) else a.

Fixpoint toUpperCase (s : string) : string :=
  match s with
  | EmptyString => EmptyString
  | String a r => String (upper_char a) (toUpperCase r)
  end.

Fixpoint strip_prefix (p s : string) : option string :=
  match p with
  | EmptyString => Some s
  | String a p' =>
      match s with
      | String b s' => if Ascii.eqb a b then strip_prefix p' s' else None
      | EmptyString => None
      end
  end.

Definition bytes (l : list nat) : string := of_chars (map ascii_of_nat l).

(** The code points ECMAScript counts as white space or line terminators,
    in UTF-8. *)
Definition whitespace : list string :=
  map bytes
    [ [9]; [10]; [11]; [12]; [13]; [32]; [194; 160]; [225; 154; 128];
      [226; 128; 128]; [226; 128; 129]; [226; 128; 130]; [226; 128; 131];
      [226; 128; 132]; [226; 128; 133]; [226; 128; 134]; [226; 128; 135];
      [226; 128; 136]; [226; 128; 137]; [226; 128; 138]; [226; 128; 168];
      [226; 128; 169]; [226; 128; 175]; [226; 129; 159]; [227; 128; 128];
      [239; 187; 191] ]%nat.

Fixpoint strip_any (ws : list string) (s : string) : option string :=
  match ws with
  | [] => None
  | w :: ws' =>
      match strip_prefix w s with
      | Some r => Some r
      | None => strip_any ws' s
      end
  end.

Fixpoint strip_leading (fuel : nat) (ws : list string) (s : string) : string :=
  match fuel with
  | O => s
  | S fuel' =>
      match strip_any ws s with
      | Some r => strip_leading fuel' ws r
      | None => s
      end
  end.

Definition trimStart (s : string) : string :=
  strip_leading (String.length s) whitespace s.

Definition trimEnd (s : string) : string :=
  reverse (strip_leading (String.length s) (map reverse whitespace) (reverse s)).

(** [s.trim()] *)
Definition trim (s : string) : string := trimEnd (trimStart s).

End JsString.

(* ===================================================================== *)
(** ** src/internal/context.js *)
(* ===================================================================== *)

Module Context.

(** The object [getRequiredVars] returns.  The three values read from
    [process.env] are [undefined] when the variable is not set. *)
Record RequiredVars : Type := mkVars {
  apiToken : string;
  siteId : string;
  apiBaseUrl : string;
  sourceDir : string;
  targetPath : string;
  timeout : Z;
  maxRetries : Z;
  workflowRun : option string;
  repositoryNwo : option string;
  buildVersion : option string
}.

(** The enumerable properties of that object, in insertion order: what
    [for (const variable in requiredVars)] visits. *)
Definition entries (v : RequiredVars) : list (string * JsVal) :=
  [ ("apiToken", VString (apiToken v));
    ("siteId", VString (siteId v));
    ("apiBaseUrl", VString (apiBaseUrl v));
    ("sourceDir", VString (sourceDir v));
    ("targetPath", VString (targetPath v));
    ("timeout", VNumber (timeout v));
    ("maxRetries", VNumber (maxRetries v));
    ("workflowRun", of_env (workflowRun v));
    ("repositoryNwo", of_env (repositoryNwo v));
    ("buildVersion", of_env (buildVersion v)) ].

Section WithHost.
Variable h : Host.

(** [core.getInput(name, options)] of @actions/core: the input is the
    environment variable [INPUT_<NAME>]; a required input that is unset or
    empty throws; the value is trimmed. *)
Definition input_variable (name : string) : string :=
  "INPUT_" +:+ JsString.toUpperCase (JsString.replace_all " " "_" name).

Definition getInput (name : string) (required : bool) : M Trace string :=
  let val := default "" (process_env h !! input_variable name) in
  if required && String.eqb val ""
  then throw (new_Error ("Input required and not supplied: " +:+ name))
  else ret (JsString.trim val).

(** [a || b] on strings *)
Definition or_else (a b : string) : string :=
  if String.eqb a "" then b else a.

Definition getRequiredVars : M Trace RequiredVars :=
  let* apiToken := getInput "api_token" true in
  let* siteId := getInput "site_id" true in
  let* apiBaseUrlInput := getInput "api_base_url" false in
  let apiBaseUrl := or_else apiBaseUrlInput "https://api.example.com" in
  let* sourceDirInput := getInput "source_dir" false in
  let sourceDir := or_else sourceDirInput "./dist" in
  let targetPath := "/" in
  let timeout := 600000 in
  let maxRetries := 3 in
  let workflowRun := process_env h !! "GITHUB_RUN_ID" in
  let repositoryNwo := process_env h !! "GITHUB_REPOSITORY" in
  let buildVersion := process_env h !! "GITHUB_SHA" in
  ret {| apiToken := apiToken; siteId := siteId; apiBaseUrl := apiBaseUrl;
         sourceDir := sourceDir; targetPath := targetPath;
         timeout := timeout; maxRetries := maxRetries;
         workflowRun := workflowRun; repositoryNwo := repositoryNwo;
         buildVersion := buildVersion |}.

(** The [for ... in] loop of [getContext] over the remaining properties. *)
Fixpoint check_defined (props : list (string * JsVal)) : M Trace unit :=
  match props with
  | [] => ret tt
  | (variable, value) :: rest =>
      match value with
      | VUndefined =>
          throw (new_Error (variable +:+ " is undefined. Cannot continue."))
      | _ => check_defined rest
      end
  end.

Definition getContext : M Trace RequiredVars :=
  let* requiredVars := getRequiredVars in
  check_defined (entries requiredVars) ;;
  Core.debug "all variables are set" ;;
  ret requiredVars.

End WithHost.

End Context.

(* ===================================================================== *)
(** ** The runtime's [path] module *)
(* ===================================================================== *)

Module Path.

Definition sep_string (sep : ascii) : string := String sep EmptyString.

Fixpoint ends_with (c : ascii) (s : string) : bool :=
  match s with
  | EmptyString => false
  | String a EmptyString => Ascii.eqb a c
  | String _ r => ends_with c r
  end.

(** [path.join(dirPath, name)] for a normalized directory path (see
    [normalized] at the end of this module) and the name of one of its
    entries (which holds no separator and is neither [.] nor [..]): the two
    are glued with one separator, unless the directory is a root and already
    ends with it.
    On any other [dirPath] Node would also normalize the result
    ([./dist] and [css] give [dist/css]), which this function does not do:
    statements that name a joined path carry [normalized] as a hypothesis. *)
Definition join (sep : ascii) (dirPath name : string) : string :=
  if ends_with sep dirPath then dirPath +:+ name
  else dirPath +:+ sep_string sep +:+ name.

(** [path.relative(basePath, fullPath)] for a normalized [fullPath] that
    lies at or below the normalized [basePath]: what follows the base and
    the separator after it.  For a [fullPath] elsewhere Node climbs with
    [..], which this function does not do: statements that name a relative
    path are made for the walk from [basePath] itself. *)
Definition relative (sep : ascii) (basePath fullPath : string) : string :=
  match JsString.strip_prefix basePath fullPath with
  | Some rest =>
      match JsString.strip_prefix (sep_string sep) rest with
      | Some rest' => rest'
      | None => rest
      end
  | None => fullPath
  end.

(** POSIX [path.dirname]: scan from the end down to index 1 for the last
    separator that follows a non-separator. *)
Fixpoint dirname_scan (path : string) (i : nat) (matchedSlash : bool) : option nat :=
  match i with
  | O => None
  | S i' =>
      match String.get i path with
      | Some "/"%char =>
          if negb matchedSlash then Some i else dirname_scan path i' matchedSlash
      | _ => dirname_scan path i' false
      end
  end.

Definition posix_dirname (path : string) : string :=
  if (String.length path =? 0)%nat then "."
  else
    let hasRoot := match String.get 0 path with
                   | Some "/"%char => true
                   | _ => false
                   end in
    match dirname_scan path (String.length path - 1) true with
    | None => if hasRoot then "/" else "."
    | Some e =>
        if hasRoot && (e =? 1)%nat then "//" else String.substring 0 e path
    end.

(** POSIX [path.basename] (no suffix argument): scan from the end down to
    index 0, returning the bounds of the last component. *)
Fixpoint basename_scan (path : string) (n : nat) (matchedSlash : bool)
    (e : option nat) : nat * option nat :=
  match n with
  | O => (O, e)
  | S i =>
      match String.get i path with
      | Some "/"%char =>
          if negb matchedSlash then (S i, e) else basename_scan path i matchedSlash e
      | _ =>
          match e with
          | None => basename_scan path i false (Some (S i))
          | Some _ => basename_scan path i matchedSlash e
          end
      end
  end.

Definition posix_basename (path : string) : string :=
  match basename_scan path (String.length path) true None with
  | (_, None) => ""
  | (start, Some e) => String.substring start (e - start) path
  end.

(** Windows [path.dirname].  Both [/] and [\] separate; a leading UNC
    root ([\\server\share\]) or device root ([C:] or [C:\]) is never cut. *)
Definition is_path_separator (c : ascii) : bool :=
  Ascii.eqb c "/" || Ascii.eqb c "\".

Definition is_device_root (c : ascii) : bool :=
  let n := nat_of_ascii c in
  ((65 <=? n) && (n <=? 90) || (97 <=? n) && (n <=? 122))%nat.

Definition separator_at (path : string) (i : nat) : bool :=
  match String.get i path with
  | Some c => is_path_separator c
  | None => false
  end.

(** [while (j < len && isPathSeparator(path[j]) === wanted) j++] *)
Fixpoint skip_while (wanted : bool) (path : string) (fuel j : nat) : nat :=
  match fuel with
  | O => j
  | S fuel' =>
      if (j <? String.length path)%nat && Bool.eqb (separator_at path j) wanted
      then skip_while wanted path fuel' (S j)
      else j
  end.

(** The root of a path of length at least two: either the whole path is
    a UNC root (left), or [rootEnd] (if any) and the offset where the scan
    for the last separator stops (right). *)
Definition win32_root (path : string) : string + (option nat * nat) :=
  let len := String.length path in
  match String.get 0 path with
  | None => inr (None, O)
  | Some code =>
      if is_path_separator code then
        if separator_at path 1 then
          let j1 := skip_while false path len 2 in
          if (j1 <? len)%nat && negb (j1 =? 2)%nat then
            let j2 := skip_while true path len j1 in
            if (j2 <? len)%nat && negb (j2 =? j1)%nat then
              let j3 := skip_while false path len j2 in
              if (j3 =? len)%nat then inl path
              else if negb (j3 =? j2)%nat then inr (Some (S j3), S j3)
              else inr (Some 1%nat, 1%nat)
            else inr (Some 1%nat, 1%nat)
          else inr (Some 1%nat, 1%nat)
        else inr (Some 1%nat, 1%nat)
      else
        match String.get 1 path with
        | Some ":"%char =>
            if is_device_root code then
              let rootEnd :=
                if (2 <? len)%nat && separator_at path 2 then 3%nat else 2%nat in
              inr (Some rootEnd, rootEnd)
            else inr (None, O)
        | _ => inr (None, O)
        end
  end.

(** [for (let i = len - 1; i >= offset; --i)], with [n] one above [i]. *)
Fixpoint win32_scan (path : string) (offset n : nat) (matchedSlash : bool)
    : option nat :=
  match n with
  | O => None
  | S i =>
      if (i <? offset)%nat then None
      else if separator_at path i
      then if negb matchedSlash then Some i else win32_scan path offset i matchedSlash
      else win32_scan path offset i false
  end.

Definition win32_dirname (path : string) : string :=
  let len := String.length path in
  if (len =? 0)%nat then "."
  else if (len =? 1)%nat then
    (if separator_at path 0 then path else ".")
  else
    match win32_root path with
    | inl whole => whole
    | inr (rootEnd, offset) =>
        match win32_scan path offset len true with
        | Some e => String.substring 0 e path
        | None =>
            match rootEnd with
            | None => "."
            | Some r => String.substring 0 r path
            end
        end
    end.

(** *** Normalized paths *)

(** The components of a path: what lies between its separators. *)
Fixpoint components (sep : ascii) (p : string) : list string :=
  match p with
  | EmptyString => [EmptyString]
  | String c r =>
      if Ascii.eqb c sep then EmptyString :: components sep r
      else
        match components sep r with
        | first :: others => String c first :: others
        | [] => [String c EmptyString]
        end
  end.

(** A character that a component cannot hold: [/], which separates on
    Windows too, and on Windows the colon of a drive. *)
Definition is_reserved (sep c : ascii) : bool :=
  Ascii.eqb c "/" || (Ascii.eqb sep "\" && Ascii.eqb c ":").

(** A component that normalization keeps as it is: not empty, not [.] or
    [..], and without a reserved character. *)
Definition proper_component (sep : ascii) (c : string) : bool :=
  negb (String.eqb c "") && negb (String.eqb c ".") && negb (String.eqb c "..")
  && forallb (fun a => negb (is_reserved sep a)) (JsString.chars c).

(** A Windows drive, [C:]. *)
Definition is_drive (sep : ascii) (c : string) : bool :=
  Ascii.eqb sep "\"
  && match c with
     | String letter (String ":" EmptyString) => is_device_root letter
     | _ => false
     end.

(** A normalized path, as [path.resolve] returns them: the root itself, or
    components that normalization keeps, without a trailing separator, after
    an optional leading separator or drive ([/work/dist], [dist],
    [C:\work\dist]; not [./dist], [dist/], [a//b], [C:/work], [C:]
    or the empty path).  These are the directory paths on which [join] and
    [relative] above compute what Node's functions do. *)
Definition normalized (sep : ascii) (p : string) : bool :=
  String.eqb p (sep_string sep)
  || match components sep p with
     | [] => false
     | [only] => proper_component sep only
     | first :: others =>
         (String.eqb first "" || is_drive sep first || proper_component sep first)
         && forallb (proper_component sep) others
     end.

End Path.

(* ===================================================================== *)
(** ** The API client *)
(* ===================================================================== *)

(** One element of the array [getAllFiles] returns. *)
Record FileRecord : Type := mkFile {
  localPath : string;
  relativePath : string;
  name : string;
  size : Z
}.

Module ApiClient.

Section WithHost.
Variable h : Host.

(** Reading the clock, a GET and a POST, each recorded in the trace. *)
Definition Date_now : M Trace Z :=
  fun t => let v := date_now h t in (t ++ [EvDateNow v], Returned v).

Definition axios_get_call (url token : string) (path : option string)
    : M Trace string :=
  fun t => (t ++ [EvGet url token path], axios_get h t url token path).

Definition axios_post_call (req : PostRequest) : M Trace string :=
  fun t => (t ++ [EvPost req], axios_post h t req).

(** [s || '根目录'] *)
Definition or_root (s : string) : string :=
  if String.eqb s "" then "根目录" else s.

Definition listFiles (apiToken siteId apiBaseUrl : string)
    (path : option string) : M Trace string :=
  let dirPath := default "" path in
  let url := apiBaseUrl +:+ "/sites/" +:+ siteId +:+ "/files" in
  let params := Some dirPath in
  try_catch
    (Core.info ("正在获取目录文件列表: " +:+ or_root dirPath) ;;
     let* data := axios_get_call url apiToken params in
     ret data)
    (fun error =>
       Core.error ("获取文件列表失败: " +:+ message error) ;;
       throw error).

Definition existsSync (filePath : string) : M Trace bool :=
  ret (fs_existsSync h filePath).

Definition statSync_size (filePath : string) : M Trace Z :=
  fun t => (t, fs_statSync_size h filePath).

Definition uploadFile (apiToken siteId apiBaseUrl filePath : string)
    (uploadPathArg : option string) : M Trace string :=
  let uploadPath := default "" uploadPathArg in
  let url := apiBaseUrl +:+ "/sites/" +:+ siteId +:+ "/files?path=" +:+ uploadPath in
  Core.emit (EvUploadFile filePath uploadPath) ;;
  try_catch
    (let* present := existsSync filePath in
     if negb present
     then throw (new_Error ("文件不存在: " +:+ filePath))
     else
       let fileName := path_basename h filePath in
       let* fileSize := statSync_size filePath in
       Core.info ("正在上传文件: " +:+ fileName +:+ " (" +:+ num_toString fileSize
                  +:+ " 字节) 到路径: " +:+ or_root uploadPath) ;;
       let pathField := if String.eqb uploadPath "" then None else Some uploadPath in
       let* data := axios_post_call
                      {| post_url := url; post_token := apiToken;
                         post_fileName := fileName; post_filePath := filePath;
                         post_pathField := pathField |} in
       Core.info ("文件上传成功: " +:+ fileName) ;;
       ret data)
    (fun error =>
       Core.error ("文件上传失败 " +:+ path_basename h filePath +:+ ": "
                   +:+ message error) ;;
       throw error).

(** The [for (const item of items)] loop of [getAllFiles]: [each] computes
    what one entry contributes and the contributions are pushed in order. *)
Fixpoint for_items (each : Dirent -> M Trace (list FileRecord))
    (items : list Dirent) (files : list FileRecord) : M Trace (list FileRecord) :=
  match items with
  | [] => ret files
  | item :: rest =>
      let* pushed := each item in
      for_items each rest (files ++ pushed)
  end.

(** The body of [getAllFiles] for a directory whose [readdirSync] throws
    [unreadable] (if set) or else yields [items]. *)
Definition getAllFiles_body (each : Dirent -> M Trace (list FileRecord))
    (dirPath : string) (unreadable : option JsError) (items : list Dirent)
    : M Trace (list FileRecord) :=
  try_catch
    (match unreadable with
     | Some e => throw e
     | None => for_items each items []
     end)
    (fun error =>
       Core.error ("读取目录失败 " +:+ dirPath +:+ ": " +:+ message error) ;;
       throw error).

(** One turn of the loop for [item], found in [dirPath]; the directory case
    is the recursive call [getAllFiles(fullPath, basePath)]. *)
Fixpoint getAllFiles_item (dirPath basePath : string) (item : Dirent)
    : M Trace (list FileRecord) :=
  let fullPath := Path.join (path_sep h) dirPath (dirent_name item) in
  let relPath := Path.relative (path_sep h) basePath fullPath in
  match item with
  | DDir _ unreadable sub =>
      getAllFiles_body (getAllFiles_item fullPath basePath) fullPath unreadable sub
  | DFile nm stat =>
      let* sz := (fun t => (t, stat)) in
      ret [ {| localPath := fullPath;
               relativePath := JsString.replace_all "\" "/" relPath;
               name := nm;
               size := sz |} ]
  | DOther _ => ret []
  end.

(** [getAllFiles(dirPath, basePath)] on the directory tree [dir]. *)
Definition getAllFiles_tree (dirPath basePath : string)
    (unreadable : option JsError) (items : list Dirent) : M Trace (list FileRecord) :=
  getAllFiles_body (getAllFiles_item dirPath basePath) dirPath unreadable items.

(** The errors [readdirSync] throws for a path that is missing or is not a
    directory. *)
Definition ENOENT (dirPath : string) : JsError :=
  new_Error ("ENOENT: no such file or directory, scandir '" +:+ dirPath +:+ "'").

Definition ENOTDIR (dirPath : string) : JsError :=
  new_Error ("ENOTDIR: not a directory, scandir '" +:+ dirPath +:+ "'").

Definition getAllFiles (dirPath : string) (basePathArg : option string)
    : M Trace (list FileRecord) :=
  let basePath := default dirPath basePathArg in
  match fs_lookup h dirPath with
  | Some (DDir _ unreadable items) =>
      getAllFiles_tree dirPath basePath unreadable items
  | Some _ => getAllFiles_tree dirPath basePath (Some (ENOTDIR dirPath)) []
  | None => getAllFiles_tree dirPath basePath (Some (ENOENT dirPath)) []
  end.

(** What one turn of the upload loop does to the statistics. *)
Definition count_success (results : UploadResult) : UploadResult :=
  {| total := total results; success := success results + 1;
     failed := failed results; errors := errors results |}.

Definition count_failure (f : FileRecord) (e : JsError) (results : UploadResult)
    : UploadResult :=
  {| total := total results; success := success results;
     failed := failed results + 1;
     errors := errors results ++ [ {| file := relativePath f; error := message e |} ] |}.

(** The [for (const file of files)] loop of [uploadDirectory]. *)
Fixpoint upload_loop (apiToken siteId apiBaseUrl : string)
    (files : list FileRecord) (results : UploadResult) : M Trace UploadResult :=
  match files with
  | [] => ret results
  | f :: rest =>
      let* results' :=
        try_catch
          (let uploadPath := path_dirname h (relativePath f) in
           uploadFile apiToken siteId apiBaseUrl (localPath f) (Some uploadPath) ;;
           ret (count_success results))
          (fun error =>
             let results' := count_failure f error results in
             Core.warning ("跳过文件 " +:+ relativePath f +:+ ": " +:+ message error) ;;
             ret results') in
      upload_loop apiToken siteId apiBaseUrl rest results'
  end.

Definition uploadDirectory (apiToken siteId apiBaseUrl sourceDir : string)
    : M Trace UploadResult :=
  try_catch
    (Core.info ("开始上传目录: " +:+ sourceDir) ;;
     let* files := getAllFiles sourceDir None in
     let results := {| total := Z.of_nat (length files); success := 0;
                       failed := 0; errors := [] |} in
     Core.info ("发现 " +:+ num_toString (Z.of_nat (length files))
                +:+ " 个文件需要上传") ;;
     let* results := upload_loop apiToken siteId apiBaseUrl files results in
     Core.info ("上传完成: 成功 " +:+ num_toString (success results) +:+ "/"
                +:+ num_toString (total results) +:+ " 个文件") ;;
     (if 0 <? failed results
      then Core.warning ("失败 " +:+ num_toString (failed results) +:+ " 个文件")
      else ret tt) ;;
     ret results)
    (fun error =>
       Core.error ("批量上传失败: " +:+ message error) ;;
       throw error).

Definition validateApiAccess (apiToken siteId apiBaseUrl : string) : M Trace bool :=
  try_catch
    (Core.info "验证API访问权限..." ;;
     listFiles apiToken siteId apiBaseUrl None ;;
     Core.info "API访问权限验证成功" ;;
     ret true)
    (fun error =>
       Core.error ("API访问权限验证失败: " +:+ message error) ;;
       match response error with
       | Some status =>
           if status =? 401 then throw (new_Error "API Token无效或已过期")
           else if status =? 403
           then throw (new_Error "API Token权限不足，需要website_hosting权限")
           else if status =? 404
           then throw (new_Error ("网站ID不存在: " +:+ siteId))
           else throw error
       | None => throw error
       end).

End WithHost.

End ApiClient.

(* ===================================================================== *)
(** ** The upload orchestrator: class [FileUploader] *)
(* ===================================================================== *)

Module Uploader.

(** The [uploadStatus] table: its keys are the states, [status_text]
    gives the text stored under each key (the value of [this.status]). *)
Module uploadStatus.

Inductive key : Type :=
| pending
| uploading
| success
| failed
| cancelled.

End uploadStatus.

Definition status_text (s : uploadStatus.key) : string :=
  match s with
  | uploadStatus.pending => "等待上传"
  | uploadStatus.uploading => "正在上传"
  | uploadStatus.success => "上传成功"
  | uploadStatus.failed => "上传失败"
  | uploadStatus.cancelled => "上传已取消"
  end.

Definition MAX_TIMEOUT : Z := 600000.
Definition MAX_FILE_SIZE : Z := 100 * 1024 * 1024.
Definition SIZE_LIMIT_DESCRIPTION : string := "100 MB".

(** The fields of a [FileUploader] instance. *)
Record FileUploader : Type := mkUploader {
  apiToken : string;
  siteId : string;
  apiBaseUrl : string;
  sourceDir : string;
  timeout : Z;
  maxRetries : Z;
  repositoryNwo : option string;
  buildVersion : option string;
  buildActor : option string;
  workflowRun : option string;
  uploadInfo : option UploadInfo;
  startTime : option Z;
  status : uploadStatus.key
}.

Definition set_timeout (v : Z) (u : FileUploader) : FileUploader :=
  {| apiToken := apiToken u; siteId := siteId u; apiBaseUrl := apiBaseUrl u;
     sourceDir := sourceDir u; timeout := v; maxRetries := maxRetries u;
     repositoryNwo := repositoryNwo u; buildVersion := buildVersion u;
     buildActor := buildActor u; workflowRun := workflowRun u;
     uploadInfo := uploadInfo u; startTime := startTime u; status := status u |}.

Definition set_uploadInfo (v : option UploadInfo) (u : FileUploader) : FileUploader :=
  {| apiToken := apiToken u; siteId := siteId u; apiBaseUrl := apiBaseUrl u;
     sourceDir := sourceDir u; timeout := timeout u; maxRetries := maxRetries u;
     repositoryNwo := repositoryNwo u; buildVersion := buildVersion u;
     buildActor := buildActor u; workflowRun := workflowRun u;
     uploadInfo := v; startTime := startTime u; status := status u |}.

Definition set_startTime (v : option Z) (u : FileUploader) : FileUploader :=
  {| apiToken := apiToken u; siteId := siteId u; apiBaseUrl := apiBaseUrl u;
     sourceDir := sourceDir u; timeout := timeout u; maxRetries := maxRetries u;
     repositoryNwo := repositoryNwo u; buildVersion := buildVersion u;
     buildActor := buildActor u; workflowRun := workflowRun u;
     uploadInfo := uploadInfo u; startTime := v; status := status u |}.

Definition set_status (v : uploadStatus.key) (u : FileUploader) : FileUploader :=
  {| apiToken := apiToken u; siteId := siteId u; apiBaseUrl := apiBaseUrl u;
     sourceDir := sourceDir u; timeout := timeout u; maxRetries := maxRetries u;
     repositoryNwo := repositoryNwo u; buildVersion := buildVersion u;
     buildActor := buildActor u; workflowRun := workflowRun u;
     uploadInfo := uploadInfo u; startTime := startTime u; status := v |}.

(** A method runs on the instance and the trace. *)
Definition Method (A : Type) : Type := M (FileUploader * Trace) A.

Definition lift {A} (m : M Trace A) : Method A :=
  fun s =>
    match m (snd s) with
    | (t', r) => ((fst s, t'), r)
    end.

Definition this : Method FileUploader :=
  fun s => (s, Returned (fst s)).

Definition assign (f : FileUploader -> FileUploader) : Method unit :=
  fun s => ((f (fst s), snd s), Returned tt).

Section WithHost.
Variable h : Host.

(** [n || d] on numbers *)
Definition num_or (n d : Z) : Z := if n =? 0 then d else n.

Definition constructor : M Trace FileUploader :=
  let* context := Context.getContext h in
  ret {| apiToken := Context.apiToken context;
         siteId := Context.siteId context;
         apiBaseUrl := Context.apiBaseUrl context;
         sourceDir := Context.sourceDir context;
         timeout := num_or (Context.timeout context) MAX_TIMEOUT;
         maxRetries := num_or (Context.maxRetries context) 3;
         repositoryNwo := Context.repositoryNwo context;
         buildVersion := Context.buildVersion context;
         buildActor := None;          (* the context has no such property *)
         workflowRun := Context.workflowRun context;
         uploadInfo := None;
         startTime := None;
         status := uploadStatus.pending |}.

Definition validateConfig : Method unit :=
  let* u := this in
  if String.eqb (apiToken u) ""
  then throw (new_Error "API Token未配置，请设置api_token参数或API_TOKEN环境变量")
  else if String.eqb (siteId u) ""
  then throw (new_Error "网站ID未配置，请设置site_id参数或SITE_ID环境变量")
  else if String.eqb (apiBaseUrl u) ""
  then throw (new_Error "API基础URL未配置，请设置api_base_url参数或API_BASE_URL环境变量")
  else lift (Core.info "配置验证通过").

(** The message [create] builds for an error that carries a response. *)
Definition http_error_message (u : FileUploader) (error : JsError) (status : Z) : string :=
  let errorMessage := "文件上传失败 (状态码: " +:+ num_toString status +:+ ")" in
  if status =? 400 then errorMessage +:+ " 错误详情: " +:+ message error
  else if status =? 401 then errorMessage +:+ " API Token无效或已过期"
  else if status =? 403 then errorMessage +:+ " API Token权限不足，需要website_hosting权限"
  else if status =? 404 then errorMessage +:+ " 网站ID不存在: " +:+ siteId u
  else if 500 <=? status then errorMessage +:+ " 服务器错误，请稍后重试"
  else errorMessage.

Definition is_directory (node : Dirent) : bool :=
  match node with
  | DDir _ _ _ => true
  | _ => false
  end.

Definition create : Method UploadInfo :=
  let* u0 := this in
  (if MAX_TIMEOUT <? timeout u0
   then lift (Core.warning ("警告: 超时时间超过最大允许值 - 超时时间设置为最大值 "
                            +:+ num_toString MAX_TIMEOUT +:+ " 毫秒")) ;;
        assign (set_timeout MAX_TIMEOUT)
   else ret tt) ;;
  try_catch
    (let* u := this in
     lift (Core.debug ("构建版本: " +:+ interpolate (of_env (buildVersion u)))) ;;
     lift (Core.debug ("构建用户: " +:+ interpolate (of_env (buildActor u)))) ;;
     lift (Core.debug ("工作流运行ID: " +:+ interpolate (of_env (workflowRun u)))) ;;
     lift (Core.debug ("源目录: " +:+ sourceDir u)) ;;
     validateConfig ;;
     let resolvedSourceDir := path_resolve h (sourceDir u) in
     match fs_lookup h resolvedSourceDir with
     | None => throw (new_Error ("源目录不存在: " +:+ resolvedSourceDir))
     | Some node =>
         if negb (is_directory node)
         then throw (new_Error ("源路径不是目录: " +:+ resolvedSourceDir))
         else
           lift (ApiClient.validateApiAccess h (apiToken u) (siteId u) (apiBaseUrl u)) ;;
           assign (set_status uploadStatus.uploading) ;;
           let* started := lift (ApiClient.Date_now h) in
           assign (set_startTime (Some started)) ;;
           let* uploadResult :=
             lift (ApiClient.uploadDirectory h (apiToken u) (siteId u)
                     (apiBaseUrl u) resolvedSourceDir) in
           let* ident :=
             (if truthy (of_env (buildVersion u))
              then ret (default "" (buildVersion u))
              else let* now := lift (ApiClient.Date_now h) in
                   ret (num_toString now)) in
           let* ended := lift (ApiClient.Date_now h) in
           let info := {| result := uploadResult; id := ident;
                          Upload.startTime := started; endTime := ended;
                          cancelled := false |} in
           assign (set_uploadInfo (Some info)) ;;
           (if failed uploadResult =? 0
            then assign (set_status uploadStatus.success) ;;
                 lift (Core.info ("文件上传完成! 成功上传 "
                                  +:+ num_toString (success uploadResult) +:+ " 个文件"))
            else assign (set_status uploadStatus.failed) ;;
                 lift (Core.warning ("文件上传部分失败: 成功 "
                                     +:+ num_toString (success uploadResult) +:+ "/"
                                     +:+ num_toString (total uploadResult) +:+ " 个文件"))) ;;
           lift (Core.debug (json_of_result h uploadResult)) ;;
           ret info
     end)
    (fun error =>
       assign (set_status uploadStatus.failed) ;;
       lift (Core.error (error_stack h error)) ;;
       let* u := this in
       match response error with
       | Some status => throw (new_Error (http_error_message u error status))
       | None => throw error
       end).

(** [this.uploadInfo.errors.forEach(error => core.warning(...))] *)
Fixpoint warn_each (errs : list ErrorEntry) : M Trace unit :=
  match errs with
  | [] => ret tt
  | e :: rest =>
      Core.warning ("  - " +:+ file e +:+ ": " +:+ error e) ;;
      warn_each rest
  end.

(** [Math.round(duration / 1000)] for an integer duration *)
Definition round_seconds (duration : Z) : Z := (duration + 500) / 1000.

Definition check : Method unit :=
  let* u := this in
  match uploadInfo u with
  | None => lift (Core.setFailed "上传未开始或上传信息丢失")
  | Some info =>
      try_catch
        (lift (Core.info "检查上传状态...") ;;
         (match status u with
          | uploadStatus.success =>
              lift (Core.info "文件上传成功!") ;;
              lift (Core.setOutput "status" "success") ;;
              lift (Core.setOutput "upload_result" (json_of_info h info)) ;;
              let r := result info in
              lift (Core.setOutput "total_files" (num_toString (total r))) ;;
              lift (Core.setOutput "success_files" (num_toString (success r))) ;;
              lift (Core.setOutput "failed_files" (num_toString (failed r))) ;;
              if 0 <? failed r
              then
                lift (Core.warning ("部分文件上传失败: " +:+ num_toString (failed r)
                                    +:+ "/" +:+ num_toString (total r))) ;;
                if (0 <? List.length (errors r))%nat
                then lift (Core.warning "失败文件列表:") ;;
                     lift (warn_each (errors r))
                else ret tt
              else ret tt
          | uploadStatus.failed =>
              let errorMsg := "文件上传失败" in
              lift (Core.setFailed errorMsg) ;;
              lift (Core.setOutput "status" "failed")
          | uploadStatus.cancelled =>
              lift (Core.setFailed "文件上传已取消") ;;
              lift (Core.setOutput "status" "cancelled")
          | _ =>
              lift (Core.info ("当前状态: " +:+ status_text (status u))) ;;
              lift (Core.setOutput "status" (status_text (status u)))
          end) ;;
         match startTime u with
         | Some started =>
             if negb (started =? 0) && negb (endTime info =? 0)
             then
               let duration := endTime info - started in
               lift (Core.info ("上传耗时: " +:+ num_toString (round_seconds duration)
                                +:+ " 秒")) ;;
               lift (Core.setOutput "duration" (num_toString duration))
             else ret tt
         | None => ret tt
         end)
        (fun error =>
           lift (Core.error ("检查上传状态失败: " +:+ message error)) ;;
           lift (Core.setFailed "检查上传状态时发生错误"))
  end.

Definition mark_cancelled (now : Z) (info : UploadInfo) : UploadInfo :=
  {| result := result info; id := id info;
     Upload.startTime := Upload.startTime info; endTime := now;
     cancelled := true |}.

Definition is_final (s : uploadStatus.key) : bool :=
  match s with
  | uploadStatus.success | uploadStatus.failed => true
  | _ => false
  end.

Definition cancel : Method unit :=
  let* u := this in
  match uploadInfo u with
  | None => lift (Core.debug "无需取消上传操作")
  | Some info =>
      if is_final (status u)
      then lift (Core.debug "无需取消上传操作")
      else
        try_catch
          (lift (Core.info "正在取消文件上传...") ;;
           assign (set_status uploadStatus.cancelled) ;;
           let* now := lift (ApiClient.Date_now h) in
           assign (set_uploadInfo (Some (mark_cancelled now info))) ;;
           lift (Core.info "文件上传已取消"))
          (fun error =>
             lift (Core.error ("取消上传操作失败: " +:+ message error)) ;;
             lift (Core.setFailed "取消上传时发生错误"))
  end.

End WithHost.

End Uploader.

(* ===================================================================== *)
(** ** Notions used to state the properties *)
(* ===================================================================== *)

Module Spec.

(** A property value that is [undefined]. *)
Definition undefined_in (props : list (string * JsVal)) (field : string) : Prop :=
  In (field, VUndefined) props.

(** The error [getContext] throws for a missing field. *)
Definition missing_field_error (field : string) : JsError :=
  new_Error (field +:+ " is undefined. Cannot continue.").

(** What [getRequiredVars] returns once the two required inputs are there. *)
Definition vars_of (h : Host) (token site : string) : Context.RequiredVars :=
  Context.mkVars
    (JsString.trim token)
    (JsString.trim site)
    (Context.or_else
       (JsString.trim (default "" (process_env h !! "INPUT_API_BASE_URL")))
       "https://api.example.com")
    (Context.or_else
       (JsString.trim (default "" (process_env h !! "INPUT_SOURCE_DIR")))
       "./dist")
    "/" 600000 3
    (process_env h !! "GITHUB_RUN_ID")
    (process_env h !! "GITHUB_REPOSITORY")
    (process_env h !! "GITHUB_SHA").

(** The trace at the moment the probe's GET is sent, and the remote's answer. *)
Definition probe_trace (t : Trace) : Trace :=
  (t ++ [EvInfo "验证API访问权限..."])
  ++ [EvInfo ("正在获取目录文件列表: " +:+ ApiClient.or_root "")].

Definition probe_reply (h : Host) (apiToken siteId apiBaseUrl : string) (t : Trace)
    : outcome string :=
  axios_get h (probe_trace t) (apiBaseUrl +:+ "/sites/" +:+ siteId +:+ "/files")
    apiToken (Some "").

(** *** The directory tree *)

(** The number of regular files in a tree, at any depth. *)
Fixpoint count_files (item : Dirent) : nat :=
  match item with
  | DFile _ _ => 1
  | DDir _ _ sub => list_sum (map count_files sub)
  | DOther _ => 0
  end.

Definition count_files_in (items : list Dirent) : nat :=
  list_sum (map count_files items).

(** The first error a depth-first walk of the tree runs into: the error of
    a [readdirSync] or of a [statSync]. *)
Definition first_some {A} (f : A -> option JsError) (l : list A) : option JsError :=
  fold_right (fun x rest => match f x with Some e => Some e | None => rest end) None l.

Fixpoint first_failure (item : Dirent) : option JsError :=
  match item with
  | DFile _ (Returned _) => None
  | DFile _ (Threw e) => Some e
  | DDir _ (Some e) _ => Some e
  | DDir _ None sub => first_some first_failure sub
  | DOther _ => None
  end.

Definition first_failure_in (unreadable : option JsError) (items : list Dirent)
    : option JsError :=
  match unreadable with
  | Some e => Some e
  | None => first_some first_failure items
  end.

(** Some directory of the tree cannot be read. *)
Fixpoint has_unreadable_dir (item : Dirent) : bool :=
  match item with
  | DDir _ (Some _) _ => true
  | DDir _ None sub => existsb has_unreadable_dir sub
  | _ => false
  end.

Definition has_unreadable_dir_in (unreadable : option JsError) (items : list Dirent)
    : bool :=
  match unreadable with
  | Some _ => true
  | None => existsb has_unreadable_dir items
  end.

(** [file_at items route sz]: following the names in [route] from a
    directory with entries [items] leads, through directories only, to a
    regular file of size [sz]. *)
Inductive file_at : list Dirent -> list string -> Z -> Prop :=
| file_here items nm sz :
    In (DFile nm (Returned sz)) items -> file_at items [nm] sz
| file_below items nm unreadable sub route sz :
    In (DDir nm unreadable sub) items ->
    file_at sub route sz ->
    file_at items (nm :: route) sz.

(** The path of the entry reached by [route] from [dirPath]. *)
Definition path_of (sep : ascii) (dirPath : string) (route : list string) : string :=
  fold_left (Path.join sep) route dirPath.

(** The record [getAllFiles] builds for the file at [route] below [dirPath]. *)
Definition record_of (sep : ascii) (dirPath basePath : string)
    (route : list string) (sz : Z) : FileRecord :=
  let fullPath := path_of sep dirPath route in
  {| localPath := fullPath;
     relativePath := JsString.replace_all "\" "/" (Path.relative sep basePath fullPath);
     name := List.last route "";
     size := sz |}.

(** Entry names as a file system has them: not empty, without the
    separator, and different within one directory. *)
Definition plain_name (sep : ascii) (nm : string) : Prop :=
  nm <> "" /\ ~ In sep (JsString.chars nm).

Fixpoint well_formed (sep : ascii) (item : Dirent) : Prop :=
  plain_name sep (dirent_name item) /\
  match item with
  | DDir _ _ sub =>
      List.NoDup (map dirent_name sub) /\
      fold_right (fun x rest => well_formed sep x /\ rest) True sub
  | _ => True
  end.

Definition well_formed_in (sep : ascii) (items : list Dirent) : Prop :=
  List.NoDup (map dirent_name items) /\
  fold_right (fun x rest => well_formed sep x /\ rest) True items.

(** The flat listing of a readable tree, in walk order. *)
Fixpoint listing (sep : ascii) (dirPath basePath : string) (item : Dirent)
    : list FileRecord :=
  let fullPath := Path.join sep dirPath (dirent_name item) in
  match item with
  | DFile nm (Returned sz) =>
      [ {| localPath := fullPath;
           relativePath :=
             JsString.replace_all "\" "/" (Path.relative sep basePath fullPath);
           name := nm;
           size := sz |} ]
  | DFile _ (Threw _) => []
  | DDir _ _ sub => List.concat (map (listing sep fullPath basePath) sub)
  | DOther _ => []
  end.

Definition listing_in (sep : ascii) (dirPath basePath : string)
    (items : list Dirent) : list FileRecord :=
  List.concat (map (listing sep dirPath basePath) items).

(** What [join] puts before the name. *)
Definition dir_prefix (sep : ascii) (dirPath : string) : string :=
  if Path.ends_with sep dirPath then dirPath else dirPath +:+ Path.sep_string sep.

(** [q] is [p] or lies below it. *)
Definition extends (sep : ascii) (p q : string) : Prop :=
  q = p \/ exists rest, q = p +:+ Path.sep_string sep +:+ rest.

(** *** The upload loop *)

(** The [uploadFile] calls recorded in a trace: file path and upload path. *)
Fixpoint upload_calls (t : Trace) : list (string * string) :=
  match t with
  | [] => []
  | EvUploadFile filePath uploadPath :: rest => (filePath, uploadPath) :: upload_calls rest
  | _ :: rest => upload_calls rest
  end.

(** The call [uploadDirectory] makes for one file. *)
Definition call_of (h : Host) (f : FileRecord) : string * string :=
  (localPath f, path_dirname h (relativePath f)).

Definition attempt (h : Host) (apiToken siteId apiBaseUrl : string) (f : FileRecord)
    : M Trace string :=
  ApiClient.uploadFile h apiToken siteId apiBaseUrl (localPath f)
    (Some (path_dirname h (relativePath f))).

(** The trace after the turn of the loop for [f], given how the attempt
    ended. *)
Definition after_attempt (f : FileRecord) (t1 : Trace) (o : outcome string) : Trace :=
  match o with
  | Returned _ => t1
  | Threw e => t1 ++ [EvWarning ("跳过文件 " +:+ relativePath f +:+ ": " +:+ message e)]
  end.

(** How the attempts for [files] end, one after the other from trace [t]. *)
Fixpoint outcomes (h : Host) (apiToken siteId apiBaseUrl : string)
    (files : list FileRecord) (t : Trace) : list (FileRecord * outcome string) :=
  match files with
  | [] => []
  | f :: rest =>
      let r := attempt h apiToken siteId apiBaseUrl f t in
      (f, snd r) :: outcomes h apiToken siteId apiBaseUrl rest
                      (after_attempt f (fst r) (snd r))
  end.

(** The entries the failed attempts leave in [errors], in order. *)
Fixpoint failures (run : list (FileRecord * outcome string)) : list ErrorEntry :=
  match run with
  | [] => []
  | (f, Threw e) :: rest => {| file := relativePath f; error := message e |} :: failures rest
  | (_, Returned _) :: rest => failures rest
  end.

Fixpoint successes (run : list (FileRecord * outcome string)) : nat :=
  match run with
  | [] => 0
  | (_, Returned _) :: rest => S (successes rest)
  | (_, Threw _) :: rest => successes rest
  end.

(** A host on which every upload succeeds. *)
Definition uploads_succeed (h : Host) : Prop :=
  (forall p, fs_existsSync h p = true)
  /\ (forall p, exists sz, fs_statSync_size h p = Returned sz)
  /\ (forall t req, exists data, axios_post h t req = Returned data).

(** The two conventions of the runtime's [path] module. *)
Definition node_path (h : Host) : Prop :=
  (path_sep h = "/"%char /\ path_dirname h = Path.posix_dirname)
  \/ (path_sep h = "\"%char /\ path_dirname h = Path.win32_dirname).

(** *** The two-file scenario *)

(** A source directory with [index.html] at the root and [css/style.css]. *)
Definition two_file_site (sz1 sz2 : Z) : list Dirent :=
  [ DFile "index.html" (Returned sz1);
    DDir "css" None [ DFile "style.css" (Returned sz2) ] ].

Definition index_html (sep : ascii) (sourceDir : string) (sz : Z) : FileRecord :=
  {| localPath := Path.join sep sourceDir "index.html";
     relativePath := "index.html";
     name := "index.html";
     size := sz |}.

Definition style_css (sep : ascii) (sourceDir : string) (sz : Z) : FileRecord :=
  {| localPath := Path.join sep (Path.join sep sourceDir "css") "style.css";
     relativePath := "css/style.css";
     name := "style.css";
     size := sz |}.

(** *** Observing a trace *)

(** The events of a trace that [f] selects, in order. *)
Fixpoint pick {A : Type} (f : Event -> option A) (t : Trace) : list A :=
  match t with
  | [] => []
  | ev :: rest =>
      match f ev with
      | Some a => a :: pick f rest
      | None => pick f rest
      end
  end.

Definition as_post (ev : Event) : option PostRequest :=
  match ev with
  | EvPost req => Some req
  | _ => None
  end.

Definition as_get (ev : Event) : option (string * string * option string) :=
  match ev with
  | EvGet url token path => Some (url, token, path)
  | _ => None
  end.

Definition as_warning (ev : Event) : option string :=
  match ev with
  | EvWarning msg => Some msg
  | _ => None
  end.

Definition as_failure (ev : Event) : option string :=
  match ev with
  | EvSetFailed msg => Some msg
  | _ => None
  end.

Definition as_output (ev : Event) : option (string * string) :=
  match ev with
  | EvSetOutput name value => Some (name, value)
  | _ => None
  end.

Definition as_call (ev : Event) : option (string * string) :=
  match ev with
  | EvUploadFile filePath uploadPath => Some (filePath, uploadPath)
  | _ => None
  end.

(** Anything that reaches the remote API or starts an upload. *)
Definition as_remote (ev : Event) : option Event :=
  match ev with
  | EvGet _ _ _ | EvPost _ | EvUploadFile _ _ => Some ev
  | _ => None
  end.

(** The POSTs, GETs, warnings, failures and outputs of a trace. *)
Definition posts (t : Trace) : list PostRequest := pick as_post t.
Definition gets (t : Trace) : list (string * string * option string) := pick as_get t.
Definition warnings (t : Trace) : list string := pick as_warning t.
Definition set_failed (t : Trace) : list string := pick as_failure t.
Definition outputs (t : Trace) : list (string * string) := pick as_output t.
Definition remote (t : Trace) : list Event := pick as_remote t.

(** The multipart request [uploadFile] builds for a file and upload path. *)
Definition request_for (h : Host) (apiToken siteId apiBaseUrl filePath uploadPath : string)
    : PostRequest :=
  {| post_url := apiBaseUrl +:+ "/sites/" +:+ siteId +:+ "/files?path=" +:+ uploadPath;
     post_token := apiToken;
     post_fileName := path_basename h filePath;
     post_filePath := filePath;
     post_pathField := if String.eqb uploadPath "" then None else Some uploadPath |}.

(** A file that is there and can be stat'ed when its upload starts. *)
Definition uploadable (h : Host) (filePath : string) : bool :=
  fs_existsSync h filePath &&
  match fs_statSync_size h filePath with
  | Returned _ => true
  | Threw _ => false
  end.

(** The request [uploadDirectory] sends for an enumerated file. *)
Definition request_of (h : Host) (apiToken siteId apiBaseUrl : string) (f : FileRecord)
    : PostRequest :=
  request_for h apiToken siteId apiBaseUrl (localPath f)
    (path_dirname h (relativePath f)).

(** The warning the upload loop logs for an entry of [errors]. *)
Definition skip_warning (e : ErrorEntry) : string :=
  "跳过文件 " +:+ file e +:+ ": " +:+ error e.

(** *** Upload paths on a POSIX host *)

(** Whether the character read at an index is the POSIX separator. *)
Definition is_slash (o : option ascii) : bool :=
  match o with
  | Some c => Ascii.eqb c "/"
  | None => false
  end.

(** The directory, relative to the source directory, of a file reached
    through the directories [dirs]: [.] for a file at the root. *)
Definition parent_directory (dirs : list string) : string :=
  match dirs with
  | [] => "."
  | _ => String.concat "/" dirs
  end.

(** The [uploadFile] call for the file named [pl.2] below the directories
    [pl.1] of [sourceDir]: its full path and the directory it goes to. *)
Definition place (sourceDir : string) (pl : list string * string) : string * string :=
  (path_of "/" sourceDir (pl.1 ++ [pl.2]), parent_directory pl.1).

(** *** Directories of the tree *)

(** [dir_at items route entries]: following the names in [route] from a
    directory with entries [items] leads, through directories only, to a
    directory with entries [entries]. *)
Inductive dir_at : list Dirent -> list string -> list Dirent -> Prop :=
| dir_here items : dir_at items [] items
| dir_below items nm unreadable sub route entries :
    In (DDir nm unreadable sub) items ->
    dir_at sub route entries ->
    dir_at items (nm :: route) entries.

End Spec.

(* ===================================================================== *)
(** ** Example hosts *)
(* ===================================================================== *)

Module Examples.

(** A Linux runner with all inputs and environment values set, started in
    [/work]. *)
Definition env_full : gmap string string :=
  <["INPUT_API_TOKEN" := "secret"]>
  (<["INPUT_SITE_ID" := "site-1"]>
  (<["GITHUB_RUN_ID" := "123456"]>
  (<["GITHUB_REPOSITORY" := "owner/repo"]>
  (<["GITHUB_SHA" := "abc123"]> ∅)))).

(** The same runner without [GITHUB_SHA]. *)
Definition env_no_sha : gmap string string := delete "GITHUB_SHA" env_full.

Definition ok_reply : outcome string := Returned "{}".

Definition site : Dirent :=
  DDir "dist" None
    [ DFile "index.html" (Returned 10);
      DDir "css" None [ DFile "style.css" (Returned 20) ] ].

Definition posix_host (env : gmap string string)
    (lookup : string -> option Dirent)
    (post : Trace -> PostRequest -> outcome string) : Host :=
  {| process_env := env;
     date_now := fun t => 1700000000000 + Z.of_nat (List.length t);
     path_sep := "/"%char;
     path_dirname := Path.posix_dirname;
     path_basename := Path.posix_basename;
     path_resolve := fun p => if String.eqb p "./dist" then "/work/dist" else p;
     fs_lookup := lookup;
     fs_existsSync := fun _ => true;
     fs_statSync_size :=
       fun p => Returned (if String.eqb p "/work/dist/css/style.css" then 20 else 10);
     axios_get := fun _ _ _ _ => ok_reply;
     axios_post := post;
     error_stack := fun e => "Error: " +:+ message e;
     json_of_result := fun _ => "{}";
     json_of_info := fun _ => "{}" |}.

Definition lookup_site (p : string) : option Dirent :=
  if String.eqb p "/work/dist" then Some site else None.

Definition host_ok (env : gmap string string) : Host :=
  posix_host env lookup_site (fun _ _ => ok_reply).

(** The error the HTTP client raises for a 500 answer. *)
Definition server_error : JsError :=
  {| message := "Request failed with status code 500"; response := Some 500 |}.

(** A remote that fails the upload of [css/style.css] with status 500. *)
Definition post_second_fails (t : Trace) (req : PostRequest) : outcome string :=
  if String.eqb (post_fileName req) "style.css" then Threw server_error else ok_reply.

Definition host_500 : Host := posix_host env_full lookup_site post_second_fails.

(** The instance after [new FileUploader()] and [create()], with the trace
    so far, as the entry point runs them. *)
Definition created (h : Host) : option (Uploader.FileUploader * Trace) :=
  match Uploader.constructor h [] with
  | (t0, Returned u0) => Some (fst (Uploader.create h (u0, t0)))
  | (_, Threw _) => None
  end.

(** The fresh instance on the runner with everything set. *)
Definition fresh_uploader : Uploader.FileUploader :=
  Uploader.mkUploader "secret" "site-1" "https://api.example.com" "./dist"
    600000 3 (Some "owner/repo") (Some "abc123") None (Some "123456")
    None None Uploader.uploadStatus.pending.

(** A Windows runner: separator [\], the same site below [C:\work\dist]. *)
Fixpoint last_component (s acc : string) : string :=
  match s with
  | EmptyString => acc
  | String c r =>
      if Path.is_path_separator c then last_component r ""
      else last_component r (acc +:+ String c "")
  end.

Definition lookup_site_windows (p : string) : option Dirent :=
  if String.eqb p "C:\work\dist" then Some site else None.

Definition windows_host : Host :=
  {| process_env := env_full;
     date_now := fun t => 1700000000000 + Z.of_nat (length t);
     path_sep := "\"%char;
     path_dirname := Path.win32_dirname;
     path_basename := fun p => last_component p "";
     path_resolve := fun p => if String.eqb p "./dist" then "C:\work\dist" else p;
     fs_lookup := lookup_site_windows;
     fs_existsSync := fun _ => true;
     fs_statSync_size := fun _ => Returned 10;
     axios_get := fun _ _ _ _ => ok_reply;
     axios_post := fun _ _ => ok_reply;
     error_stack := fun e => "Error: " +:+ message e;
     json_of_result := fun _ => "{}";
     json_of_info := fun _ => "{}" |}.

(** A site with a directory that cannot be read. *)
Definition permission_denied : JsError :=
  new_Error "EACCES: permission denied, scandir '/work/locked/private'".

Definition locked_site : Dirent :=
  DDir "locked" None
    [ DFile "index.html" (Returned 10);
      DDir "private" (Some permission_denied) [ DFile "notes.txt" (Returned 5) ] ].

Definition lookup_locked (p : string) : option Dirent :=
  if String.eqb p "/work/locked" then Some locked_site else None.

Definition host_locked : Host :=
  posix_host env_full lookup_locked (fun _ _ => ok_reply).

(** [h] with another view of the files at upload time. *)
Definition with_files (h : Host) (present : string -> bool)
    (stat : string -> outcome Z) : Host :=
  {| process_env := process_env h;
     date_now := date_now h;
     path_sep := path_sep h;
     path_dirname := path_dirname h;
     path_basename := path_basename h;
     path_resolve := path_resolve h;
     fs_lookup := fs_lookup h;
     fs_existsSync := present;
     fs_statSync_size := stat;
     axios_get := axios_get h;
     axios_post := axios_post h;
     error_stack := error_stack h;
     json_of_result := json_of_result h;
     json_of_info := json_of_info h |}.

(** The runner on which [css/style.css] has vanished between the walk and
    its upload. *)
Definition host_vanished : Host :=
  with_files (host_ok env_full)
    (fun p => negb (String.eqb p "/work/dist/css/style.css"))
    (fun _ => Returned 10).

(** The runner on which every file is 200 MB large. *)
Definition host_large : Host :=
  with_files (host_ok env_full) (fun _ => true) (fun _ => Returned 209715200).

(** The records of the two-file site below [/work/dist]. *)
Definition site_files : list FileRecord :=
  [ mkFile "/work/dist/index.html" "index.html" "index.html" 10;
    mkFile "/work/dist/css/style.css" "css/style.css" "style.css" 20 ].

(** [h] with another answer to the GETs. *)
Definition with_get (h : Host)
    (get : Trace -> string -> string -> option string -> outcome string) : Host :=
  {| process_env := process_env h;
     date_now := date_now h;
     path_sep := path_sep h;
     path_dirname := path_dirname h;
     path_basename := path_basename h;
     path_resolve := path_resolve h;
     fs_lookup := fs_lookup h;
     fs_existsSync := fs_existsSync h;
     fs_statSync_size := fs_statSync_size h;
     axios_get := get;
     axios_post := axios_post h;
     error_stack := error_stack h;
     json_of_result := json_of_result h;
     json_of_info := json_of_info h |}.

(** The error the HTTP client raises for a 401 answer, and a remote that
    rejects the token. *)
Definition unauthorized : JsError :=
  {| message := "Request failed with status code 401"; response := Some 401 |}.

Definition host_unauthorized : Host :=
  with_get (host_ok env_full) (fun _ _ _ _ => Threw unauthorized).

(** The runner without a source directory. *)
Definition host_no_dir : Host :=
  posix_host env_full (fun _ => None) (fun _ _ => ok_reply).

(** The runner whose [api_token] input is two spaces. *)
Definition env_blank_token : gmap string string :=
  <["INPUT_API_TOKEN" := "  "]> env_full.

(** An instance whose pass was interrupted: a record and status
    [uploading]. *)
Definition interrupted_info : UploadInfo :=
  {| result := {| total := 2; success := 1; failed := 0; errors := [] |};
     id := "abc123"; Upload.startTime := 1700000000010; endTime := 1700000000020;
     cancelled := false |}.

Definition interrupted_uploader : Uploader.FileUploader :=
  Uploader.mkUploader "secret" "site-1" "https://api.example.com" "./dist"
    600000 3 (Some "owner/repo") (Some "abc123") None (Some "123456")
    (Some interrupted_info) (Some 1700000000010) Uploader.uploadStatus.uploading.

(** The two-file site as a directory read lists it by name: [css] before
    [index.html]. *)
Definition site_by_name : Dirent :=
  DDir "dist" None
    [ DDir "css" None [ DFile "style.css" (Returned 20) ];
      DFile "index.html" (Returned 10) ].

Definition lookup_site_by_name (p : string) : option Dirent :=
  if String.eqb p "/work/dist" then Some site_by_name else None.

Definition host_by_name : Host :=
  posix_host env_full lookup_site_by_name (fun _ _ => ok_reply).

End Examples.

(* ===================================================================== *)
(** * Properties *)
(* ===================================================================== *)

(** ** The effect monad *)

Lemma bind_returned {St A B} (m : M St A) (k : A -> M St B) s s' a :
  m s = (s', Returned a) -> bind m k s = k a s'.
Proof. intros E. unfold bind. now rewrite E. Qed.

Lemma bind_threw {St A B} (m : M St A) (k : A -> M St B) s s' e :
  m s = (s', Threw e) -> bind m k s = (s', Threw e).
Proof. intros E. unfold bind. now rewrite E. Qed.

Lemma try_returned {St A} (m : M St A) handler s s' a :
  m s = (s', Returned a) -> try_catch m handler s = (s', Returned a).
Proof. intros E. unfold try_catch. now rewrite E. Qed.

Lemma try_threw {St A} (m : M St A) handler s s' e :
  m s = (s', Threw e) -> try_catch m handler s = handler e s'.
Proof. intros E. unfold try_catch. now rewrite E. Qed.

(** ** The context loader *)

Module ContextFacts.

Import Context.

Lemma getInput_required h name value t :
  process_env h !! input_variable name = Some value -> value <> "" ->
  getInput h name true t = (t, Returned (JsString.trim value)).
Proof.
  intros E Hne. unfold getInput. rewrite E. simpl.
  destruct (String.eqb_spec value ""); [contradiction | reflexivity].
Qed.

Lemma getInput_missing h name t :
  process_env h !! input_variable name = None ->
  getInput h name true t
  = (t, Threw (new_Error ("Input required and not supplied: " +:+ name))).
Proof. intros E. unfold getInput. rewrite E. reflexivity. Qed.

Lemma getInput_optional h name t :
  getInput h name false t
  = (t, Returned (JsString.trim (default "" (process_env h !! input_variable name)))).
Proof. reflexivity. Qed.

(** The loop stops at the first undefined property and names it. *)
Lemma check_defined_first props1 field props2 t :
  Forall (fun p => snd p <> VUndefined) props1 ->
  check_defined (props1 ++ (field, VUndefined) :: props2) t
  = (t, Threw (Spec.missing_field_error field)).
Proof.
  induction 1 as [| [n v] l Hv _ IH]; simpl.
  - reflexivity.
  - destruct v; [now elim Hv | exact IH | exact IH].
Qed.

Lemma check_defined_all props t :
  Forall (fun p => snd p <> VUndefined) props ->
  check_defined props t = (t, Returned tt).
Proof.
  induction 1 as [| [n v] l Hv _ IH]; simpl.
  - reflexivity.
  - destruct v; [now elim Hv | exact IH | exact IH].
Qed.

Lemma check_defined_some props field t :
  Spec.undefined_in props field ->
  exists missing, Spec.undefined_in props missing /\
    check_defined props t = (t, Threw (Spec.missing_field_error missing)).
Proof.
  unfold Spec.undefined_in.
  induction props as [| [n v] l IH]; simpl; [tauto |].
  intros Hin. destruct v.
  - exists n. split; [now left | reflexivity].
  - destruct Hin as [Heq | Hin]; [discriminate |].
    destruct (IH Hin) as (m & Hm & E). exists m. split; [now right | exact E].
  - destruct Hin as [Heq | Hin]; [discriminate |].
    destruct (IH Hin) as (m & Hm & E). exists m. split; [now right | exact E].
Qed.

Lemma getRequiredVars_present h token site t :
  process_env h !! "INPUT_API_TOKEN" = Some token -> token <> "" ->
  process_env h !! "INPUT_SITE_ID" = Some site -> site <> "" ->
  getRequiredVars h t = (t, Returned (Spec.vars_of h token site)).
Proof.
  intros Ht Htne Hs Hsne. unfold getRequiredVars.
  rewrite (bind_returned _ _ _ _ _ (getInput_required h "api_token" token t Ht Htne)).
  rewrite (bind_returned _ _ _ _ _ (getInput_required h "site_id" site t Hs Hsne)).
  rewrite (bind_returned _ _ _ _ _ (getInput_optional h "api_base_url" t)).
  rewrite (bind_returned _ _ _ _ _ (getInput_optional h "source_dir" t)).
  reflexivity.
Qed.

Lemma getContext_after h vars t :
  getRequiredVars h t = (t, Returned vars) ->
  getContext h t
  = match check_defined (entries vars) t with
    | (t', Returned _) => (t' ++ [EvDebug "all variables are set"], Returned vars)
    | (t', Threw e) => (t', Threw e)
    end.
Proof.
  intros E. unfold getContext. rewrite (bind_returned _ _ _ _ _ E).
  unfold bind. destruct (check_defined (entries vars) t) as [t' [[] | e]]; reflexivity.
Qed.

End ContextFacts.

(** C10. [getContext] fails closed: a required input that is not supplied
    makes it throw an error naming the input; once both required inputs are
    there, any property of the object that is [undefined] makes it throw an
    error naming such a property, in particular each of the three values read
    from [GITHUB_RUN_ID], [GITHUB_REPOSITORY] and [GITHUB_SHA]; when nothing is
    undefined the object is returned, with [apiBaseUrl] defaulting to the
    placeholder URL and [sourceDir] to [./dist]. *)
Theorem getContext_fails_closed (h : Host) (t : Trace) :
  let env := process_env h in
  (env !! "INPUT_API_TOKEN" = None ->
   Context.getContext h t
   = (t, Threw (new_Error "Input required and not supplied: api_token")))
  /\ (forall token, env !! "INPUT_API_TOKEN" = Some token -> token <> "" ->
      env !! "INPUT_SITE_ID" = None ->
      Context.getContext h t
      = (t, Threw (new_Error "Input required and not supplied: site_id")))
  /\ (forall token site,
      env !! "INPUT_API_TOKEN" = Some token -> token <> "" ->
      env !! "INPUT_SITE_ID" = Some site -> site <> "" ->
      let vars := Spec.vars_of h token site in
      Context.getRequiredVars h t = (t, Returned vars)
      /\ (forall field, Spec.undefined_in (Context.entries vars) field ->
          exists missing, Spec.undefined_in (Context.entries vars) missing /\
            Context.getContext h t = (t, Threw (Spec.missing_field_error missing)))
      /\ (env !! "GITHUB_RUN_ID" = None ->
          Context.getContext h t = (t, Threw (Spec.missing_field_error "workflowRun")))
      /\ (env !! "GITHUB_RUN_ID" <> None -> env !! "GITHUB_REPOSITORY" = None ->
          Context.getContext h t = (t, Threw (Spec.missing_field_error "repositoryNwo")))
      /\ (env !! "GITHUB_RUN_ID" <> None -> env !! "GITHUB_REPOSITORY" <> None ->
          env !! "GITHUB_SHA" = None ->
          Context.getContext h t = (t, Threw (Spec.missing_field_error "buildVersion")))
      /\ (env !! "GITHUB_RUN_ID" <> None -> env !! "GITHUB_REPOSITORY" <> None ->
          env !! "GITHUB_SHA" <> None ->
          Context.getContext h t
          = (t ++ [EvDebug "all variables are set"], Returned vars))
      /\ (env !! "INPUT_API_BASE_URL" = None ->
          Context.apiBaseUrl vars = "https://api.example.com")
      /\ (env !! "INPUT_SOURCE_DIR" = None -> Context.sourceDir vars = "./dist")).
Proof.
  intros env. split; [| split].
  - intros E. unfold Context.getContext, Context.getRequiredVars.
    rewrite (bind_threw _ _ _ _ _
               (bind_threw _ _ _ _ _ (ContextFacts.getInput_missing h "api_token" t E))).
    reflexivity.
  - intros token Ht Hne Hs. unfold Context.getContext, Context.getRequiredVars.
    apply bind_threw.
    rewrite (bind_returned _ _ _ _ _
               (ContextFacts.getInput_required h "api_token" token t Ht Hne)).
    apply bind_threw. now apply ContextFacts.getInput_missing.
  - intros token site Ht Htne Hs Hsne vars.
    pose proof (ContextFacts.getRequiredVars_present h token site t Ht Htne Hs Hsne) as Hv.
    fold vars in Hv.
    pose proof (ContextFacts.getContext_after h vars t Hv) as Hc.
    split; [exact Hv |].
    split.
    { intros field Hu.
      destruct (ContextFacts.check_defined_some _ field t Hu) as (m & Hm & E).
      exists m. split; [exact Hm |]. rewrite Hc, E. reflexivity. }
    assert (Hrun : forall props1 field props2,
               Context.entries vars = props1 ++ (field, VUndefined) :: props2 ->
               Forall (fun p => snd p <> VUndefined) props1 ->
               Context.getContext h t = (t, Threw (Spec.missing_field_error field))).
    { intros p1 f p2 Heq Hall. rewrite Hc, Heq.
      rewrite (ContextFacts.check_defined_first p1 f p2 t Hall). reflexivity. }
    subst env. unfold Context.entries in *.
    repeat split.
    + intros E.
      eapply (Hrun [_; _; _; _; _; _; _] "workflowRun" [_; _]).
      * simpl. unfold vars at 1. simpl. rewrite E. reflexivity.
      * repeat constructor; simpl; discriminate.
    + intros E1 E2.
      eapply (Hrun [_; _; _; _; _; _; _; _] "repositoryNwo" [_]).
      * simpl. unfold vars at 2. simpl. rewrite E2. reflexivity.
      * unfold vars. simpl.
        destruct (process_env h !! "GITHUB_RUN_ID"); [| now elim E1].
        repeat constructor; simpl; discriminate.
    + intros E1 E2 E3.
      eapply (Hrun [_; _; _; _; _; _; _; _; _] "buildVersion" []).
      * simpl. unfold vars at 3. simpl. rewrite E3. reflexivity.
      * unfold vars. simpl.
        destruct (process_env h !! "GITHUB_RUN_ID"); [| now elim E1].
        destruct (process_env h !! "GITHUB_REPOSITORY"); [| now elim E2].
        repeat constructor; simpl; discriminate.
    + intros E1 E2 E3. rewrite Hc.
      rewrite ContextFacts.check_defined_all; [reflexivity |].
      unfold vars. simpl.
      destruct (process_env h !! "GITHUB_RUN_ID"); [| now elim E1].
      destruct (process_env h !! "GITHUB_REPOSITORY"); [| now elim E2].
      destruct (process_env h !! "GITHUB_SHA"); [| now elim E3].
      repeat constructor; simpl; discriminate.
    + intros E. unfold vars. simpl. rewrite E. reflexivity.
    + intros E. unfold vars. simpl. rewrite E. reflexivity.
Qed.

Lemma getContext_fails_closed_witness :
  Context.getContext (Examples.host_ok Examples.env_no_sha) []
  = ([], Threw (Spec.missing_field_error "buildVersion")).
Proof.
  pose proof (getContext_fails_closed (Examples.host_ok Examples.env_no_sha) [])
    as (_ & _ & H).
  destruct (H "secret" "site-1") as (_ & _ & _ & _ & Hsha & _).
  - reflexivity.
  - discriminate.
  - reflexivity.
  - discriminate.
  - apply Hsha.
    + vm_compute. discriminate.
    + vm_compute. discriminate.
    + reflexivity.
Defined.

(** ** The access probe *)

Module ProbeFacts.

Import ApiClient.

Lemma validateApiAccess_ok h apiToken siteId apiBaseUrl t data :
  Spec.probe_reply h apiToken siteId apiBaseUrl t = Returned data ->
  snd (validateApiAccess h apiToken siteId apiBaseUrl t) = Returned true.
Proof.
  unfold Spec.probe_reply, Spec.probe_trace. intros E.
  unfold validateApiAccess, listFiles, try_catch, bind, axios_get_call,
    Core.info, Core.emit. simpl. rewrite E. reflexivity.
Qed.

Lemma validateApiAccess_failed h apiToken siteId apiBaseUrl t e :
  Spec.probe_reply h apiToken siteId apiBaseUrl t = Threw e ->
  snd (validateApiAccess h apiToken siteId apiBaseUrl t)
  = match response e with
    | Some status =>
        if status =? 401 then Threw (new_Error "API Token无效或已过期")
        else if status =? 403
        then Threw (new_Error "API Token权限不足，需要website_hosting权限")
        else if status =? 404 then Threw (new_Error ("网站ID不存在: " +:+ siteId))
        else Threw e
    | None => Threw e
    end.
Proof.
  unfold Spec.probe_reply, Spec.probe_trace. intros E.
  unfold validateApiAccess, listFiles, try_catch, bind, axios_get_call,
    Core.info, Core.error, Core.emit. simpl. rewrite E. simpl.
  destruct (response e) as [status |]; [| reflexivity].
  destruct (status =? 401); [reflexivity |].
  destruct (status =? 403); [reflexivity |].
  destruct (status =? 404); reflexivity.
Qed.

End ProbeFacts.

(** C7. [validateApiAccess] returns [true] when the probe succeeds; when
    the probe fails with a response of status 401, 403 or 404 it throws a new
    error whose message depends on the status, the three messages being
    pairwise different; for any other status, and for a failure without a
    response, it throws the error of the probe itself. *)
Theorem validateApiAccess_refines_errors
    (h : Host) (apiToken siteId apiBaseUrl : string) (t : Trace) :
  let reply := Spec.probe_reply h apiToken siteId apiBaseUrl t in
  let outcome_of := snd (ApiClient.validateApiAccess h apiToken siteId apiBaseUrl t) in
  let invalid_token := new_Error "API Token无效或已过期" in
  let no_permission := new_Error "API Token权限不足，需要website_hosting权限" in
  let unknown_site := new_Error ("网站ID不存在: " +:+ siteId) in
  (forall data, reply = Returned data -> outcome_of = Returned true)
  /\ (forall e, reply = Threw e ->
        (response e = Some 401 -> outcome_of = Threw invalid_token)
        /\ (response e = Some 403 -> outcome_of = Threw no_permission)
        /\ (response e = Some 404 -> outcome_of = Threw unknown_site)
        /\ (forall status, response e = Some status ->
              status <> 401 -> status <> 403 -> status <> 404 ->
              outcome_of = Threw e)
        /\ (response e = None -> outcome_of = Threw e))
  /\ message invalid_token <> message no_permission
  /\ message invalid_token <> message unknown_site
  /\ message no_permission <> message unknown_site.
Proof.
  intros reply outcome_of invalid_token no_permission unknown_site.
  split; [| split].
  - intros data E. exact (ProbeFacts.validateApiAccess_ok _ _ _ _ _ _ E).
  - intros e E.
    pose proof (ProbeFacts.validateApiAccess_failed _ _ _ _ _ _ E) as R.
    fold outcome_of in R.
    repeat split.
    + intros S. rewrite R, S. reflexivity.
    + intros S. rewrite R, S. reflexivity.
    + intros S. rewrite R, S. reflexivity.
    + intros status S N1 N3 N4. rewrite R, S.
      destruct (Z.eqb_spec status 401); [contradiction |].
      destruct (Z.eqb_spec status 403); [contradiction |].
      destruct (Z.eqb_spec status 404); [contradiction | reflexivity].
    + intros S. rewrite R, S. reflexivity.
  - repeat split; simpl; discriminate.
Qed.

Lemma validateApiAccess_refines_errors_witness :
  snd (ApiClient.validateApiAccess
         (Examples.posix_host Examples.env_full Examples.lookup_site
            (fun _ _ => Examples.ok_reply))
         "secret" "site-1" "https://api.example.com" [])
  = Returned true.
Proof.
  pose proof (validateApiAccess_refines_errors
                (Examples.posix_host Examples.env_full Examples.lookup_site
                   (fun _ _ => Examples.ok_reply))
                "secret" "site-1" "https://api.example.com" []) as (H & _).
  apply (H "{}"). reflexivity.
Defined.

(** ** The directory walk *)

Module WalkFacts.

Import ApiClient.

(** Induction over a tree, with the property available for every entry of
    a directory. *)
Lemma Dirent_induction (P : Dirent -> Prop) :
  (forall nm stat, P (DFile nm stat)) ->
  (forall nm unreadable sub, Forall P sub -> P (DDir nm unreadable sub)) ->
  (forall nm, P (DOther nm)) ->
  forall item, P item.
Proof.
  intros Hfile Hdir Hother.
  fix IH 1. intros [nm stat | nm unreadable sub | nm].
  - apply Hfile.
  - apply Hdir. induction sub as [| x sub IHsub]; constructor.
    + apply IH.
    + exact IHsub.
  - apply Hother.
Qed.

Lemma first_some_none {A} (f : A -> option JsError) (l : list A) :
  Spec.first_some f l = None <-> Forall (fun x => f x = None) l.
Proof.
  induction l as [| x l IH]; simpl.
  - split; [constructor | reflexivity].
  - destruct (f x) eqn:E.
    + split; [discriminate |]. intros H. inversion H; subst. congruence.
    + rewrite IH. split.
      * intros H. now constructor.
      * intros H. now inversion H.
Qed.

(** The loop over the entries, when every entry contributes [f]. *)
Lemma for_items_returns (each : Dirent -> M Trace (list FileRecord))
    (f : Dirent -> list FileRecord) items :
  Forall (fun x => forall t, each x t = (t, Returned (f x))) items ->
  forall files t,
    for_items each items files t
    = (t, Returned (files ++ List.concat (map f items))).
Proof.
  induction 1 as [| x l Hx _ IH]; intros files t; simpl.
  - now rewrite app_nil_r.
  - rewrite (bind_returned _ _ _ _ _ (Hx t)). rewrite IH.
    now rewrite <- app_assoc.
Qed.

(** The loop over the entries, when some entry throws. *)
Lemma for_items_throws (each : Dirent -> M Trace (list FileRecord))
    (f : Dirent -> list FileRecord) (g : Dirent -> option JsError) items e :
  Forall (fun x => forall t,
            match g x with
            | None => each x t = (t, Returned (f x))
            | Some e => exists t', each x t = (t', Threw e)
            end) items ->
  Spec.first_some g items = Some e ->
  forall files t, exists t', for_items each items files t = (t', Threw e).
Proof.
  induction 1 as [| x l Hx _ IH]; simpl; [discriminate |].
  intros Hfirst files t. specialize (Hx t).
  destruct (g x) as [e' |].
  - injection Hfirst as ->. destruct Hx as [t' Hx]. exists t'.
    now rewrite (bind_threw _ _ _ _ _ Hx).
  - rewrite (bind_returned _ _ _ _ _ Hx). now apply IH.
Qed.

(** A walk that meets no error leaves the trace alone and returns the flat
    listing; a walk that meets an error throws the first one it meets. *)
Lemma getAllFiles_item_outcome h basePath item :
  forall dirPath t,
    match Spec.first_failure item with
    | None =>
        getAllFiles_item h dirPath basePath item t
        = (t, Returned (Spec.listing (path_sep h) dirPath basePath item))
    | Some e => exists t', getAllFiles_item h dirPath basePath item t = (t', Threw e)
    end.
Proof.
  induction item as [nm stat | nm unreadable sub IH | nm] using Dirent_induction;
    intros dirPath t.
  - destruct stat as [sz | e]; simpl.
    + reflexivity.
    + exists t. reflexivity.
  - simpl. unfold getAllFiles_body. destruct unreadable as [e |].
    + eexists. unfold try_catch, throw, bind, Core.error, Core.emit. reflexivity.
    + destruct (Spec.first_some Spec.first_failure sub) as [e |] eqn:E.
      * destruct (for_items_throws
                    (getAllFiles_item h (Path.join (path_sep h) dirPath nm) basePath)
                    (Spec.listing (path_sep h) (Path.join (path_sep h) dirPath nm) basePath)
                    Spec.first_failure sub e) with (files := @nil FileRecord) (t := t)
          as [t' Ht'].
        { eapply Forall_impl; [exact IH |]. intros x Hx t0. apply Hx. }
        { exact E. }
        eexists. rewrite (try_threw _ _ _ _ _ Ht').
        unfold throw, bind, Core.error, Core.emit. reflexivity.
      * apply first_some_none in E.
        erewrite try_returned; [reflexivity |].
        rewrite (for_items_returns _
                   (Spec.listing (path_sep h) (Path.join (path_sep h) dirPath nm) basePath)).
        { reflexivity. }
        { rewrite Forall_forall in *. intros x Hin t0.
          specialize (IH x Hin (Path.join (path_sep h) dirPath nm) t0).
          now rewrite (E x Hin) in IH. }
  - reflexivity.
Qed.

End WalkFacts.

(** ** Paths of the entries of a well-formed tree *)

Module PathFacts.

Lemma append_cons (x : ascii) (a b : string) :
  String x a +:+ b = String x (a +:+ b).
Proof. reflexivity. Qed.

Lemma append_nil (b : string) : "" +:+ b = b.
Proof. reflexivity. Qed.

Lemma append_assoc (a b c : string) : (a +:+ b) +:+ c = a +:+ (b +:+ c).
Proof.
  induction a as [| x a IH]; [reflexivity |].
  now rewrite !append_cons, IH.
Qed.

Lemma append_empty_r (a : string) : a +:+ "" = a.
Proof.
  induction a as [| x a IH]; [reflexivity |].
  now rewrite append_cons, IH.
Qed.

Lemma ends_with_append c (s n : string) :
  n <> "" -> Path.ends_with c (s +:+ n) = Path.ends_with c n.
Proof.
  intros Hn. induction s as [| a s IH]; [reflexivity |].
  rewrite append_cons.
  destruct (s +:+ n) as [| b r] eqn:E.
  - destruct s; [rewrite append_nil in E; contradiction
                | rewrite append_cons in E; discriminate].
  - rewrite <- IH. reflexivity.
Qed.

Lemma ends_with_in c (n : string) :
  Path.ends_with c n = true -> In c (JsString.chars n).
Proof.
  induction n as [| a n IH]; simpl; [discriminate |].
  destruct n as [| b r].
  - intros E. apply Ascii.eqb_eq in E. now left.
  - intros E. right. apply IH. exact E.
Qed.

Lemma join_prefix sep dirPath nm :
  Path.join sep dirPath nm = Spec.dir_prefix sep dirPath +:+ nm.
Proof.
  unfold Path.join, Spec.dir_prefix. destruct (Path.ends_with sep dirPath);
    [reflexivity | now rewrite append_assoc].
Qed.

Lemma join_join sep dirPath nm nm' :
  Spec.plain_name sep nm ->
  Path.join sep (Path.join sep dirPath nm) nm'
  = Path.join sep dirPath nm +:+ Path.sep_string sep +:+ nm'.
Proof.
  intros [Hne Hsep]. unfold Path.join at 1.
  rewrite join_prefix, ends_with_append by exact Hne.
  destruct (Path.ends_with sep nm) eqn:E; [| reflexivity].
  elim Hsep. now apply ends_with_in.
Qed.

Lemma extends_below sep p nm q :
  Spec.extends sep (p +:+ Path.sep_string sep +:+ nm) q -> Spec.extends sep p q.
Proof.
  intros [-> | [rest ->]]; right.
  - now exists nm.
  - exists (nm +:+ Path.sep_string sep +:+ rest).
    now rewrite !append_assoc.
Qed.

(** Two names without separator that agree up to a separator are equal. *)
Lemma plain_names_agree sep (n n' tail tail' : string) :
  ~ In sep (JsString.chars n) -> ~ In sep (JsString.chars n') ->
  (tail = "" \/ exists r, tail = String sep r) ->
  (tail' = "" \/ exists r, tail' = String sep r) ->
  n +:+ tail = n' +:+ tail' -> n = n'.
Proof.
  revert n'. induction n as [| c n IH]; intros [| c' n'] Hn Hn' Ht Ht' E.
  - reflexivity.
  - exfalso. rewrite append_nil, append_cons in E.
    destruct Ht as [-> | [r ->]]; [discriminate |].
    injection E as <- _. apply Hn'. now left.
  - exfalso. rewrite append_nil, append_cons in E.
    destruct Ht' as [-> | [r ->]]; [discriminate |].
    injection E as -> _. apply Hn. now left.
  - rewrite !append_cons in E. injection E as -> E. f_equal.
    apply IH; try assumption.
    + intros Hin. apply Hn. now right.
    + intros Hin. apply Hn'. now right.
Qed.

Lemma extends_distinct sep dirPath n n' q :
  ~ In sep (JsString.chars n) -> ~ In sep (JsString.chars n') ->
  Spec.extends sep (Path.join sep dirPath n) q ->
  Spec.extends sep (Path.join sep dirPath n') q ->
  n = n'.
Proof.
  intros Hn Hn' H1 H2. rewrite !join_prefix in *.
  assert (forall nm, Spec.extends sep (Spec.dir_prefix sep dirPath +:+ nm) q ->
            exists tail, (tail = "" \/ exists r, tail = String sep r) /\
                         q = Spec.dir_prefix sep dirPath +:+ (nm +:+ tail)) as Hform.
  { intros nm [-> | [rest ->]].
    - exists "". split; [now left |]. now rewrite append_empty_r.
    - exists (String sep rest). split; [right; now exists rest |].
      now rewrite !append_assoc. }
  destruct (Hform n H1) as (tail & Ht & E1).
  destruct (Hform n' H2) as (tail' & Ht' & E2).
  rewrite E1 in E2. apply String.app_inj in E2.
  now apply (plain_names_agree sep n n' tail tail').
Qed.

(** *** Normalized paths

    [Path.join] is what Node computes on normalized directory paths, and the
    walk never leaves them. *)

Lemma components_plain sep (n : string) :
  ~ In sep (JsString.chars n) -> Path.components sep n = [n].
Proof.
  induction n as [| c n IH]; intros Hno; [reflexivity |].
  simpl. destruct (Ascii.eqb_spec c sep) as [-> | _].
  - exfalso. apply Hno. now left.
  - rewrite IH; [reflexivity |]. intros Hin. apply Hno. now right.
Qed.

Lemma components_nonempty sep (p : string) : Path.components sep p <> [].
Proof.
  destruct p as [| c r]; simpl; [discriminate |].
  destruct (Ascii.eqb c sep); [discriminate |].
  destruct (Path.components sep r); discriminate.
Qed.

Lemma components_app sep (a b : string) :
  Path.components sep (a +:+ String sep b)
  = Path.components sep a ++ Path.components sep b.
Proof.
  induction a as [| c a IH].
  - rewrite append_nil. simpl. now rewrite Ascii.eqb_refl.
  - rewrite append_cons. simpl. rewrite IH.
    destruct (Ascii.eqb c sep); [reflexivity |].
    pose proof (components_nonempty sep a) as Hne.
    destruct (Path.components sep a); [contradiction | reflexivity].
Qed.

Lemma ends_with_components sep (d : string) :
  Path.ends_with sep d = true ->
  exists first middle, Path.components sep d = first :: middle ++ [""].
Proof.
  induction d as [| a d IH]; [discriminate |].
  destruct d as [| b r].
  - simpl. intros E. rewrite E. now exists "", [].
  - intros E. change (Path.ends_with sep (String b r) = true) in E.
    destruct (IH E) as (first & middle & Hc).
    change (Path.components sep (String a (String b r)))
      with (if Ascii.eqb a sep then EmptyString :: Path.components sep (String b r)
            else match Path.components sep (String b r) with
                 | first :: others => String a first :: others
                 | [] => [String a EmptyString]
                 end).
    rewrite Hc. destruct (Ascii.eqb a sep).
    + now exists "", (first :: middle).
    + now exists (String a first), middle.
Qed.

Lemma normalized_open sep (d : string) :
  Path.normalized sep d = true -> d <> Path.sep_string sep ->
  Path.ends_with sep d = false.
Proof.
  intros Hn Hroot. destruct (Path.ends_with sep d) eqn:E; [| reflexivity].
  exfalso. apply ends_with_components in E as (first & middle & Hc).
  unfold Path.normalized in Hn. rewrite Hc in Hn.
  destruct (String.eqb_spec d (Path.sep_string sep)) as [-> | _]; [now apply Hroot |].
  simpl in Hn. destruct middle as [| m ms]; simpl in Hn.
  - rewrite andb_false_r in Hn. discriminate.
  - apply andb_true_iff in Hn as [_ Hn]. apply andb_true_iff in Hn as [_ Hn].
    rewrite forallb_app in Hn. simpl in Hn.
    rewrite andb_false_r in Hn. discriminate.
Qed.

(** The walk stays among normalized paths: joining a normalized directory
    path and an entry name gives a normalized path. *)
Lemma join_normalized sep (d n : string) :
  Path.normalized sep d = true ->
  Path.proper_component sep n = true ->
  ~ In sep (JsString.chars n) ->
  Path.normalized sep (Path.join sep d n) = true.
Proof.
  intros Hd Hn Hplain.
  destruct (String.eqb_spec d (Path.sep_string sep)) as [-> | Hroot].
  - unfold Path.join, Path.sep_string. simpl Path.ends_with. rewrite Ascii.eqb_refl.
    rewrite append_cons, append_nil. unfold Path.normalized.
    simpl Path.components. rewrite Ascii.eqb_refl, components_plain by exact Hplain.
    simpl. rewrite Hn. apply orb_true_r.
  - unfold Path.join. rewrite (normalized_open sep d Hd Hroot).
    unfold Path.sep_string in *. rewrite append_cons, append_nil.
    unfold Path.normalized, Path.sep_string in *.
    rewrite components_app, (components_plain sep n Hplain).
    destruct (String.eqb d (String sep "")) eqn:E;
      [apply String.eqb_eq in E; now elim Hroot |].
    simpl in Hd. apply orb_true_iff. right.
    destruct (Path.components sep d) as [| first [| o os]]; [discriminate | |].
    + simpl. rewrite Hd, Hn. simpl. now rewrite !orb_true_r.
    + apply andb_true_iff in Hd as [Hfirst Hothers].
      change ((first :: o :: os) ++ [n]) with (first :: o :: (os ++ [n])).
      apply andb_true_iff. split; [exact Hfirst |].
      change (o :: os ++ [n]) with ((o :: os) ++ [n]).
      rewrite forallb_app, Hothers. simpl. now rewrite Hn.
Qed.

Lemma path_of_normalized sep (route : list string) :
  forall d,
    Path.normalized sep d = true ->
    List.Forall (fun n => Path.proper_component sep n = true
                          /\ ~ In sep (JsString.chars n)) route ->
    Path.normalized sep (Spec.path_of sep d route) = true.
Proof.
  induction route as [| n route IH]; intros d Hd Hall; [exact Hd |].
  apply List.Forall_cons_iff in Hall as [[Hn Hplain] Hrest].
  apply (IH (Path.join sep d n)); [now apply join_normalized | exact Hrest].
Qed.

End PathFacts.

(** ** The listing of a tree *)

Module ListingFacts.

Import ApiClient.

Lemma getAllFiles_tree_outcome h dirPath basePath unreadable items t :
  match Spec.first_failure_in unreadable items with
  | None =>
      getAllFiles_tree h dirPath basePath unreadable items t
      = (t, Returned (Spec.listing_in (path_sep h) dirPath basePath items))
  | Some e =>
      exists t', getAllFiles_tree h dirPath basePath unreadable items t = (t', Threw e)
  end.
Proof.
  pose proof (WalkFacts.getAllFiles_item_outcome h basePath
                (DDir "" unreadable items)) as H.
  unfold getAllFiles_tree, getAllFiles_body, Spec.first_failure_in.
  destruct unreadable as [e |].
  - eexists. unfold try_catch, throw, bind, Core.error, Core.emit. reflexivity.
  - destruct (Spec.first_some Spec.first_failure items) as [e |] eqn:E.
    + destruct (WalkFacts.for_items_throws
                  (getAllFiles_item h dirPath basePath)
                  (Spec.listing (path_sep h) dirPath basePath)
                  Spec.first_failure items e) with (files := @nil FileRecord) (t := t)
        as [t' Ht'].
      { rewrite Forall_forall. intros x _ t0.
        apply (WalkFacts.getAllFiles_item_outcome h basePath x dirPath t0). }
      { exact E. }
      eexists. rewrite (try_threw _ _ _ _ _ Ht').
      unfold throw, bind, Core.error, Core.emit. reflexivity.
    + apply WalkFacts.first_some_none in E.
      erewrite try_returned; [reflexivity |].
      rewrite (WalkFacts.for_items_returns _
                 (Spec.listing (path_sep h) dirPath basePath)).
      { reflexivity. }
      { rewrite Forall_forall in *. intros x Hin t0.
        pose proof (WalkFacts.getAllFiles_item_outcome h basePath x dirPath t0) as Hx.
        now rewrite (E x Hin) in Hx. }
Qed.

Lemma length_concat_map {A B} (f : A -> list B) (g : A -> nat) (l : list A) :
  Forall (fun x => length (f x) = g x) l ->
  length (List.concat (map f l)) = list_sum (map g l).
Proof.
  induction 1 as [| x l Hx _ IH]; simpl; [reflexivity |].
  rewrite length_app. congruence.
Qed.

(** A tree without failure lists as many records as it has regular files. *)
Lemma listing_length sep basePath item :
  forall dirPath,
    Spec.first_failure item = None ->
    length (Spec.listing sep dirPath basePath item) = Spec.count_files item.
Proof.
  induction item as [nm stat | nm unreadable sub IH | nm] using WalkFacts.Dirent_induction;
    intros dirPath Hok.
  - destruct stat; [reflexivity | discriminate].
  - simpl in *. destruct unreadable; [discriminate |].
    apply WalkFacts.first_some_none in Hok.
    apply length_concat_map.
    rewrite Forall_forall in *. intros x Hin. apply IH; auto.
  - reflexivity.
Qed.

Lemma listing_in_length sep dirPath basePath items :
  Spec.first_some Spec.first_failure items = None ->
  length (Spec.listing_in sep dirPath basePath items) = Spec.count_files_in items.
Proof.
  intros Hok. apply WalkFacts.first_some_none in Hok.
  apply length_concat_map.
  rewrite Forall_forall in *. intros x Hin. apply listing_length; auto.
Qed.

Lemma file_at_route items route sz :
  Spec.file_at items route sz -> route <> [].
Proof. destruct 1; discriminate. Qed.

Lemma record_of_below sep dirPath basePath nm route sz :
  route <> [] ->
  Spec.record_of sep dirPath basePath (nm :: route) sz
  = Spec.record_of sep (Path.join sep dirPath nm) basePath route sz.
Proof.
  intros Hne. unfold Spec.record_of, Spec.path_of. simpl.
  destruct route; [contradiction | reflexivity].
Qed.

(** Every regular file of the tree is listed. *)
Lemma listing_in_complete sep basePath items route sz :
  Spec.file_at items route sz ->
  forall dirPath,
    In (Spec.record_of sep dirPath basePath route sz)
       (Spec.listing_in sep dirPath basePath items).
Proof.
  induction 1 as [items nm sz Hin | items nm unreadable sub route sz Hin Hsub IH];
    intros dirPath; unfold Spec.listing_in; apply in_concat.
  - exists (Spec.listing sep dirPath basePath (DFile nm (Returned sz))).
    split; [now apply in_map |]. now left.
  - exists (Spec.listing sep dirPath basePath (DDir nm unreadable sub)).
    split; [now apply in_map |].
    rewrite record_of_below by (eapply file_at_route; eauto).
    apply IH.
Qed.

Lemma file_at_weaken items items' route sz :
  (forall x, In x items -> In x items') ->
  Spec.file_at items route sz -> Spec.file_at items' route sz.
Proof.
  intros Hsub Hat. destruct Hat as [items nm sz Hin | items nm u sub route sz Hin Hat].
  - constructor. auto.
  - eapply Spec.file_below; eauto.
Qed.

(** Everything listed is a regular file of the tree. *)
Lemma listing_sound sep basePath item :
  forall dirPath f,
    In f (Spec.listing sep dirPath basePath item) ->
    exists route sz,
      Spec.file_at [item] route sz /\ f = Spec.record_of sep dirPath basePath route sz.
Proof.
  induction item as [nm stat | nm unreadable sub IH | nm] using WalkFacts.Dirent_induction;
    intros dirPath f Hin.
  - destruct stat as [sz | e]; simpl in Hin; [| contradiction].
    destruct Hin as [<- | []]. exists [nm], sz. split; [| reflexivity].
    constructor. now left.
  - simpl in Hin. apply in_concat in Hin as (l & Hl & Hf).
    apply in_map_iff in Hl as (x & <- & Hx).
    rewrite List.Forall_forall in IH.
    destruct (IH x Hx _ _ Hf) as (route & sz & Hat & ->).
    exists (nm :: route), sz. split.
    + apply Spec.file_below with (unreadable := unreadable) (sub := sub); [now left |].
      apply (file_at_weaken [x]); [| exact Hat].
      intros y [<- | []]. exact Hx.
    + symmetry. apply record_of_below. eapply file_at_route; eauto.
  - contradiction.
Qed.

Lemma listing_in_sound sep dirPath basePath items f :
  In f (Spec.listing_in sep dirPath basePath items) ->
  exists route sz,
    Spec.file_at items route sz /\ f = Spec.record_of sep dirPath basePath route sz.
Proof.
  intros Hin. apply in_concat in Hin as (l & Hl & Hf).
  apply in_map_iff in Hl as (x & <- & Hx).
  destruct (listing_sound sep basePath x dirPath f Hf) as (route & sz & Hat & ->).
  exists route, sz. split; [| reflexivity].
  apply (file_at_weaken [x]); [| exact Hat].
  intros y [<- | []]. exact Hx.
Qed.

Lemma well_formed_entries sep (items : list Dirent) :
  fold_right (fun x rest => Spec.well_formed sep x /\ rest) True items
  <-> List.Forall (Spec.well_formed sep) items.
Proof.
  induction items as [| x l IH]; simpl.
  - split; [constructor | trivial].
  - rewrite IH. split.
    + intros [Hx Hl]. now constructor.
    + intros H. inversion H; subst. now split.
Qed.

Lemma well_formed_name sep item :
  Spec.well_formed sep item -> Spec.plain_name sep (dirent_name item).
Proof. destruct item; simpl; tauto. Qed.

(** The local path of a listed record lies at or below its entry. *)
Lemma listing_extends sep basePath item :
  forall dirPath f,
    Spec.well_formed sep item ->
    In f (Spec.listing sep dirPath basePath item) ->
    Spec.extends sep (Path.join sep dirPath (dirent_name item)) (localPath f).
Proof.
  induction item as [nm stat | nm unreadable sub IH | nm] using WalkFacts.Dirent_induction;
    intros dirPath f Hwf Hin.
  - destruct stat as [sz | e]; simpl in Hin; [| contradiction].
    destruct Hin as [<- | []]. now left.
  - simpl in Hin. apply in_concat in Hin as (l & Hl & Hf).
    apply in_map_iff in Hl as (x & <- & Hx).
    destruct Hwf as (Hplain & _ & Hsub). simpl in Hplain.
    apply well_formed_entries in Hsub.
    rewrite List.Forall_forall in IH, Hsub.
    pose proof (IH x Hx _ _ (Hsub x Hx) Hf) as Hext.
    rewrite PathFacts.join_join in Hext by exact Hplain.
    simpl. eapply PathFacts.extends_below. exact Hext.
  - contradiction.
Qed.

Lemma concat_listing_NoDup sep dirPath basePath items :
  List.NoDup (map dirent_name items) ->
  List.Forall (Spec.well_formed sep) items ->
  List.Forall (fun x => forall d, Spec.well_formed sep x ->
                 List.NoDup (map localPath (Spec.listing sep d basePath x))) items ->
  List.NoDup (map localPath (List.concat (map (Spec.listing sep dirPath basePath) items))).
Proof.
  induction items as [| x l IH]; intros Hnames Hwf Hall; simpl.
  - constructor.
  - inversion Hnames as [| ? ? Hnotin Hnames']; subst.
    inversion Hwf as [| ? ? Hwfx Hwfl]; subst.
    inversion Hall as [| ? ? Hx Hl]; subst.
    rewrite map_app. apply List.NoDup_app.
    + now apply Hx.
    + now apply IH.
    + intros p Hp1 Hp2.
      apply in_map_iff in Hp1 as (f1 & <- & Hf1).
      apply in_map_iff in Hp2 as (f2 & Heq & Hf2).
      apply in_concat in Hf2 as (l2 & Hl2 & Hf2).
      apply in_map_iff in Hl2 as (y & <- & Hy).
      rewrite List.Forall_forall in Hwfl.
      pose proof (listing_extends sep basePath x dirPath f1 Hwfx Hf1) as E1.
      pose proof (listing_extends sep basePath y dirPath f2 (Hwfl y Hy) Hf2) as E2.
      rewrite Heq in E2.
      assert (dirent_name x = dirent_name y) as Hsame.
      { eapply PathFacts.extends_distinct; eauto.
        - apply (well_formed_name sep x Hwfx).
        - apply (well_formed_name sep y (Hwfl y Hy)). }
      apply Hnotin. rewrite Hsame. now apply in_map.
Qed.

(** In a well-formed tree no two listed records share a local path. *)
Lemma listing_NoDup sep basePath item :
  forall dirPath,
    Spec.well_formed sep item ->
    List.NoDup (map localPath (Spec.listing sep dirPath basePath item)).
Proof.
  induction item as [nm stat | nm unreadable sub IH | nm] using WalkFacts.Dirent_induction;
    intros dirPath Hwf.
  - destruct stat; simpl; repeat constructor. all: intros [].
  - destruct Hwf as (_ & Hnames & Hsub). apply well_formed_entries in Hsub.
    simpl. apply concat_listing_NoDup; assumption.
  - constructor.
Qed.

Lemma listing_in_NoDup sep dirPath basePath items :
  Spec.well_formed_in sep items ->
  List.NoDup (map localPath (Spec.listing_in sep dirPath basePath items)).
Proof.
  intros (Hnames & Hsub). apply well_formed_entries in Hsub.
  apply concat_listing_NoDup; try assumption.
  rewrite List.Forall_forall. intros x _ d Hwfx. now apply listing_NoDup.
Qed.

Lemma unreadable_fails item :
  Spec.has_unreadable_dir item = true -> Spec.first_failure item <> None.
Proof.
  induction item as [nm stat | nm unreadable sub IH | nm] using WalkFacts.Dirent_induction;
    simpl; try discriminate.
  destruct unreadable as [e |]; [discriminate |].
  intros Hex Hnone. apply existsb_exists in Hex as (x & Hx & Hbad).
  apply WalkFacts.first_some_none in Hnone.
  rewrite List.Forall_forall in IH, Hnone.
  exact (IH x Hx Hbad (Hnone x Hx)).
Qed.

Lemma unreadable_fails_in unreadable items :
  Spec.has_unreadable_dir_in unreadable items = true ->
  Spec.first_failure_in unreadable items <> None.
Proof.
  exact (unreadable_fails (DDir "" unreadable items)).
Qed.

Lemma getAllFiles_lookup h dirPath basePathArg nm unreadable items t :
  fs_lookup h dirPath = Some (DDir nm unreadable items) ->
  getAllFiles h dirPath basePathArg t
  = getAllFiles_tree h dirPath (default dirPath basePathArg) unreadable items t.
Proof. intros E. unfold getAllFiles. now rewrite E. Qed.

Lemma getAllFiles_not_directory h dirPath basePathArg t :
  (forall nm unreadable items, fs_lookup h dirPath <> Some (DDir nm unreadable items)) ->
  exists t' e, getAllFiles h dirPath basePathArg t = (t', Threw e).
Proof.
  intros Hno. unfold getAllFiles.
  destruct (fs_lookup h dirPath) as [[nm stat | nm unreadable items | nm] |];
    try (do 2 eexists; reflexivity).
  now elim (Hno nm unreadable items).
Qed.

Lemma replace_all_absent (c d : ascii) (s : string) :
  c <> d -> ~ In c (JsString.chars (JsString.replace_all c d s)).
Proof.
  intros Hcd. induction s as [| a s IH]; simpl; [tauto |].
  intros [E | Hin]; [| now apply IH].
  destruct (Ascii.eqb_spec a c); congruence.
Qed.

Lemma strip_prefix_append (p s : string) :
  JsString.strip_prefix p (p +:+ s) = Some s.
Proof.
  induction p as [| a p IH]; [reflexivity |].
  rewrite PathFacts.append_cons. simpl. now rewrite Ascii.eqb_refl.
Qed.

Lemma strip_prefix_plain sep (n rest : string) :
  Spec.plain_name sep n ->
  JsString.strip_prefix (Path.sep_string sep) (n +:+ rest) = None.
Proof.
  intros [Hne Hsep]. destruct n as [| a n]; [contradiction |].
  rewrite PathFacts.append_cons. simpl.
  destruct (Ascii.eqb_spec sep a) as [-> |]; [| reflexivity].
  elim Hsep. now left.
Qed.

(** The path of a route of plain names: the names, glued by the separator,
    after the directory's prefix. *)
Lemma fold_join_plain sep (rest : list string) :
  forall (prefix n : string),
    Spec.plain_name sep n -> List.Forall (Spec.plain_name sep) rest ->
    fold_left (Path.join sep) rest (prefix +:+ n)
    = prefix +:+ String.concat (Path.sep_string sep) (n :: rest).
Proof.
  induction rest as [| m rest IH]; intros prefix n Hn Hrest.
  - reflexivity.
  - inversion Hrest as [| ? ? Hm Hrest']; subst.
    change (fold_left (Path.join sep) (m :: rest) (prefix +:+ n))
      with (fold_left (Path.join sep) rest (Path.join sep (prefix +:+ n) m)).
    assert (Path.join sep (prefix +:+ n) m
            = (prefix +:+ n +:+ Path.sep_string sep) +:+ m) as ->.
    { unfold Path.join. destruct Hn as [Hne Hsep].
      rewrite PathFacts.ends_with_append by exact Hne.
      destruct (Path.ends_with sep n) eqn:E.
      - elim Hsep. now apply PathFacts.ends_with_in.
      - now rewrite !PathFacts.append_assoc. }
    rewrite IH by assumption.
    change (String.concat (Path.sep_string sep) (n :: m :: rest))
      with (n +:+ Path.sep_string sep +:+ String.concat (Path.sep_string sep) (m :: rest)).
    now rewrite !PathFacts.append_assoc.
Qed.

Lemma relative_path_of sep (basePath : string) (route : list string) :
  route <> [] -> List.Forall (Spec.plain_name sep) route ->
  Path.relative sep basePath (Spec.path_of sep basePath route)
  = String.concat (Path.sep_string sep) route.
Proof.
  intros Hne Hplain. destruct route as [| n rest]; [contradiction |].
  inversion Hplain as [| ? ? Hn Hrest]; subst.
  unfold Spec.path_of. simpl fold_left.
  rewrite PathFacts.join_prefix, fold_join_plain by assumption.
  set (joined := String.concat (Path.sep_string sep) (n :: rest)).
  assert (exists tail, joined = n +:+ tail) as [tail Htail].
  { unfold joined. destruct rest.
    - exists "". simpl. now rewrite PathFacts.append_empty_r.
    - eexists. reflexivity. }
  unfold Path.relative, Spec.dir_prefix.
  destruct (Path.ends_with sep basePath).
  - rewrite strip_prefix_append, Htail, strip_prefix_plain by exact Hn. reflexivity.
  - rewrite PathFacts.append_assoc, strip_prefix_append, strip_prefix_append.
    reflexivity.
Qed.

Lemma file_at_plain sep items route sz :
  Spec.file_at items route sz ->
  List.Forall (Spec.well_formed sep) items ->
  List.Forall (Spec.plain_name sep) route.
Proof.
  induction 1 as [items nm sz Hin | items nm unreadable sub route sz Hin Hsub IH];
    intros Hwf; rewrite List.Forall_forall in Hwf.
  - constructor; [| constructor]. exact (well_formed_name sep _ (Hwf _ Hin)).
  - pose proof (Hwf _ Hin) as (Hplain & _ & Hrec).
    constructor; [exact Hplain |].
    apply IH. now apply well_formed_entries.
Qed.

Lemma replace_all_append c d (a b : string) :
  JsString.replace_all c d (a +:+ b)
  = JsString.replace_all c d a +:+ JsString.replace_all c d b.
Proof.
  induction a as [| x a IH]; [reflexivity |].
  rewrite PathFacts.append_cons. simpl. rewrite IH. reflexivity.
Qed.

Lemma replace_all_concat c d (s : string) (l : list string) :
  JsString.replace_all c d (String.concat s l)
  = String.concat (JsString.replace_all c d s) (map (JsString.replace_all c d) l).
Proof.
  induction l as [| x l IH]; [reflexivity |].
  destruct l as [| y l]; [reflexivity |].
  change (String.concat s (x :: y :: l)) with (x +:+ s +:+ String.concat s (y :: l)).
  rewrite !replace_all_append, IH. reflexivity.
Qed.

Lemma getAllFiles_readable h dirPath basePathArg nm unreadable items t :
  fs_lookup h dirPath = Some (DDir nm unreadable items) ->
  Spec.first_failure_in unreadable items = None ->
  getAllFiles h dirPath basePathArg t
  = (t, Returned (Spec.listing_in (path_sep h) dirPath (default dirPath basePathArg) items))
  /\ length (Spec.listing_in (path_sep h) dirPath (default dirPath basePathArg) items)
     = Spec.count_files_in items.
Proof.
  intros Hdir Hok.
  rewrite (getAllFiles_lookup h dirPath basePathArg nm unreadable items t Hdir).
  pose proof (getAllFiles_tree_outcome h dirPath (default dirPath basePathArg)
                unreadable items t) as Hout.
  rewrite Hok in Hout. split; [exact Hout |].
  apply listing_in_length.
  unfold Spec.first_failure_in in Hok. destruct unreadable; [discriminate | exact Hok].
Qed.

End ListingFacts.

(** C8. [getAllFiles] on a directory, in one statement: an empty
    directory yields the empty array; a walk that meets no failure leaves
    no trace, returns as many records as the tree holds regular files, has a
    record for every regular file at every depth, and has records for
    nothing but regular files (so for no directory); for a walk that starts
    at a normalized path with the default base, the records are exactly
    those of the regular files of the tree, and in a tree whose entry names
    are as a file system has them every such file occurs exactly once; a
    directory that cannot be read, anywhere in the tree, makes the whole
    walk throw, and the error thrown is the first failure met, with no array
    returned. *)
Theorem getAllFiles_walk (h : Host) (dirPath : string) (basePathArg : option string)
    (nm : string) (unreadable : option JsError) (items : list Dirent) (t : Trace) :
  fs_lookup h dirPath = Some (DDir nm unreadable items) ->
  let sep := path_sep h in
  let walk := ApiClient.getAllFiles h dirPath basePathArg t in
  (unreadable = None -> items = [] -> walk = (t, Returned []))
  /\ (Spec.first_failure_in unreadable items = None ->
      exists files,
        walk = (t, Returned files)
        /\ length files = Spec.count_files_in items
        /\ (forall route sz, Spec.file_at items route sz ->
              exists f, In f files /\ name f = List.last route "" /\ size f = sz)
        /\ (forall f, In f files ->
              exists route sz, Spec.file_at items route sz /\
                               name f = List.last route "" /\ size f = sz)
        /\ (Path.normalized sep dirPath = true -> basePathArg = None ->
            (forall route sz, Spec.file_at items route sz ->
               In (Spec.record_of sep dirPath dirPath route sz) files)
            /\ (forall f, In f files ->
                  exists route sz, Spec.file_at items route sz /\
                                   f = Spec.record_of sep dirPath dirPath route sz)
            /\ (Spec.well_formed_in sep items ->
                List.NoDup (map localPath files) /\
                forall route sz, Spec.file_at items route sz ->
                  exists before after,
                    files = before ++ Spec.record_of sep dirPath dirPath route sz :: after
                    /\ ~ In (Spec.record_of sep dirPath dirPath route sz) before
                    /\ ~ In (Spec.record_of sep dirPath dirPath route sz) after)))
  /\ (Spec.has_unreadable_dir_in unreadable items = true ->
      exists t' e, walk = (t', Threw e))
  /\ (forall e, Spec.first_failure_in unreadable items = Some e ->
      exists t', walk = (t', Threw e)).
Proof.
  intros Hdir sep walk.
  set (basePath := default dirPath basePathArg).
  assert (walk = ApiClient.getAllFiles_tree h dirPath basePath unreadable items t) as Hwalk
    by (apply ListingFacts.getAllFiles_lookup with (nm := nm); exact Hdir).
  pose proof (ListingFacts.getAllFiles_tree_outcome h dirPath basePath unreadable items t)
    as Hout.
  rewrite <- Hwalk in Hout.
  split; [| split; [| split]].
  - intros -> ->. exact Hout.
  - intros Hok. rewrite Hok in Hout.
    exists (Spec.listing_in sep dirPath basePath items).
    split; [exact Hout |].
    split.
    { apply ListingFacts.listing_in_length.
      unfold Spec.first_failure_in in Hok. destruct unreadable; [discriminate | exact Hok]. }
    split.
    { intros route sz Hat.
      exists (Spec.record_of sep dirPath basePath route sz).
      split; [now apply ListingFacts.listing_in_complete |]. split; reflexivity. }
    split.
    { intros f Hin.
      destruct (ListingFacts.listing_in_sound _ _ _ _ _ Hin) as (route & sz & Hat & ->).
      exists route, sz. split; [exact Hat |]. split; reflexivity. }
    intros _ Hbase. subst basePath. rewrite Hbase. simpl default.
    split.
    { intros route sz Hat. now apply ListingFacts.listing_in_complete. }
    split.
    { intros f Hin. now apply ListingFacts.listing_in_sound. }
    intros Hwf.
    pose proof (ListingFacts.listing_in_NoDup sep dirPath dirPath items Hwf) as Hnd.
    split; [exact Hnd |].
    intros route sz Hat.
    pose proof (ListingFacts.listing_in_complete sep dirPath items route sz Hat dirPath)
      as Hin.
    apply in_split in Hin as (before & after & Hsplit).
    exists before, after. split; [exact Hsplit |].
    rewrite Hsplit in Hnd. apply List.NoDup_map_inv in Hnd.
    apply List.NoDup_remove_2 in Hnd.
    split; intros Hin; apply Hnd; apply in_or_app; [now left | now right].
  - intros Hbad. apply ListingFacts.unreadable_fails_in in Hbad.
    destruct (Spec.first_failure_in unreadable items) as [e |]; [| now elim Hbad].
    destruct Hout as [t' Ht']. now exists t', e.
  - intros e He. rewrite He in Hout. exact Hout.
Qed.

Lemma getAllFiles_walk_witness :
  exists files,
    ApiClient.getAllFiles (Examples.host_by_name) "/work/dist" None []
    = ([], Returned files)
    /\ length files = 2%nat
    /\ In (mkFile "/work/dist/css/style.css" "css/style.css" "style.css" 20) files
    /\ List.NoDup (map localPath files).
Proof.
  destruct (getAllFiles_walk Examples.host_by_name "/work/dist" None
              "dist" None
              [ DDir "css" None [ DFile "style.css" (Returned 20) ];
                DFile "index.html" (Returned 10) ] [])
    as (_ & H & _).
  - reflexivity.
  - destruct H as (files & Hwalk & Hlen & _ & _ & Hrecords); [reflexivity |].
    destruct Hrecords as (Hall & _ & Honce); [reflexivity | reflexivity |].
    destruct Honce as (Hnodup & _).
    { split; [repeat constructor; simpl; intuition discriminate |].
      cbv. repeat split; try (intros H; decompose [or] H; discriminate).
      all: repeat constructor; cbv; intuition discriminate. }
    exists files. split; [exact Hwalk |]. split; [exact Hlen |].
    split; [| exact Hnodup].
    apply (Hall ["css"; "style.css"] 20).
    apply Spec.file_below with (unreadable := None) (sub := [DFile "style.css" (Returned 20)]).
    + left. reflexivity.
    + apply Spec.file_here. left. reflexivity.
Defined.

(** C9. Whatever separator the host's [path] module uses, no record that
    [getAllFiles] returns has a backslash in its [relativePath]; and on the
    two conventions there are (separator [/] or [\]), with entry names as a
    file system has them, the [relativePath] of a listed file is the names on
    its route from the base directory, with any backslash in them replaced,
    glued by forward slashes. *)
Theorem relativePath_forward_slashes (h : Host) (dirPath : string)
    (basePathArg : option string) (t t' : Trace) (files : list FileRecord) :
  ApiClient.getAllFiles h dirPath basePathArg t = (t', Returned files) ->
  (forall f, In f files -> ~ In "\"%char (JsString.chars (relativePath f)))
  /\ (forall nm unreadable items,
        fs_lookup h dirPath = Some (DDir nm unreadable items) ->
        basePathArg = None ->
        path_sep h = "/"%char \/ path_sep h = "\"%char ->
        Spec.well_formed_in (path_sep h) items ->
        forall f, In f files ->
          exists route sz,
            Spec.file_at items route sz /\
            relativePath f
            = String.concat "/" (map (JsString.replace_all "\" "/") route)).
Proof.
  intros Hwalk.
  assert (exists nm unreadable items,
             fs_lookup h dirPath = Some (DDir nm unreadable items) /\
             files = Spec.listing_in (path_sep h) dirPath (default dirPath basePathArg) items)
    as (nm & unreadable & items & Hdir & Hfiles).
  { destruct (fs_lookup h dirPath) as [[nm stat | nm unreadable items | nm] |] eqn:Hdir.
    2: {
      exists nm, unreadable, items. split; [reflexivity |].
      rewrite (ListingFacts.getAllFiles_lookup h dirPath basePathArg nm unreadable items t Hdir)
        in Hwalk.
      pose proof (ListingFacts.getAllFiles_tree_outcome h dirPath
                    (default dirPath basePathArg) unreadable items t) as Hout.
      destruct (Spec.first_failure_in unreadable items) as [e |].
      - destruct Hout as [t'' Ht'']. congruence.
      - rewrite Hout in Hwalk. now injection Hwalk as _ <-. }
    all: destruct (ListingFacts.getAllFiles_not_directory h dirPath basePathArg t)
           as (t'' & e & Hthrow);
         [intros ? ? ? ?; congruence | congruence]. }
  split.
  - intros f Hin. rewrite Hfiles in Hin.
    apply ListingFacts.listing_in_sound in Hin as (route & sz & _ & ->).
    apply ListingFacts.replace_all_absent. discriminate.
  - intros nm' unreadable' items' Hdir' -> Hsep Hwf f Hin.
    rewrite Hdir in Hdir'. injection Hdir' as <- <- <-.
    rewrite Hfiles in Hin.
    apply ListingFacts.listing_in_sound in Hin as (route & sz & Hat & ->).
    exists route, sz. split; [exact Hat |].
    destruct Hwf as (_ & Hentries). apply ListingFacts.well_formed_entries in Hentries.
    unfold Spec.record_of. simpl.
    rewrite ListingFacts.relative_path_of.
    + rewrite ListingFacts.replace_all_concat.
      destruct Hsep as [-> | ->]; reflexivity.
    + eapply ListingFacts.file_at_route; eauto.
    + eapply ListingFacts.file_at_plain; eauto.
Qed.

Lemma relativePath_forward_slashes_witness :
  ~ In "\"%char (JsString.chars "index.html")
  /\ ~ In "\"%char (JsString.chars "css/style.css").
Proof.
  destruct (relativePath_forward_slashes (Examples.host_ok Examples.env_full)
              "/work/dist" None [] []
              [ mkFile "/work/dist/index.html" "index.html" "index.html" 10;
                mkFile "/work/dist/css/style.css" "css/style.css" "style.css" 20 ])
    as (H & _).
  - reflexivity.
  - split.
    + apply (H (mkFile "/work/dist/index.html" "index.html" "index.html" 10)).
      now left.
    + apply (H (mkFile "/work/dist/css/style.css" "css/style.css" "style.css" 20)).
      right. now left.
Defined.

(** ** The upload loop *)

Module LoopFacts.

Import ApiClient.

Lemma upload_calls_app (t1 t2 : Trace) :
  Spec.upload_calls (t1 ++ t2) = Spec.upload_calls t1 ++ Spec.upload_calls t2.
Proof.
  induction t1 as [| ev t1 IH]; [reflexivity |].
  destruct ev; simpl; rewrite IH; reflexivity.
Qed.

(** One call of [uploadFile] records exactly one call, its own. *)
Lemma uploadFile_calls h apiToken siteId apiBaseUrl filePath uploadPathArg t :
  Spec.upload_calls (fst (uploadFile h apiToken siteId apiBaseUrl filePath uploadPathArg t))
  = Spec.upload_calls t ++ [(filePath, default "" uploadPathArg)].
Proof.
  unfold uploadFile, try_catch, bind, existsSync, statSync_size, axios_post_call,
    Core.info, Core.error, Core.emit, ret, throw.
  destruct (fs_existsSync h filePath); simpl.
  - destruct (fs_statSync_size h filePath) as [sz | e]; simpl.
    + match goal with
      | |- context [axios_post h ?tr ?req] => destruct (axios_post h tr req) as [data | e]
      end; simpl;
        repeat rewrite upload_calls_app; simpl; rewrite ?app_nil_r; reflexivity.
    + repeat rewrite upload_calls_app. simpl. rewrite ?app_nil_r. reflexivity.
  - repeat rewrite upload_calls_app. simpl. rewrite ?app_nil_r. reflexivity.
Qed.

(** One turn of the loop. *)
Lemma upload_loop_step h apiToken siteId apiBaseUrl f rest results t :
  upload_loop h apiToken siteId apiBaseUrl (f :: rest) results t
  = let r := Spec.attempt h apiToken siteId apiBaseUrl f t in
    upload_loop h apiToken siteId apiBaseUrl rest
      (match snd r with
       | Returned _ => count_success results
       | Threw e => count_failure f e results
       end)
      (Spec.after_attempt f (fst r) (snd r)).
Proof.
  simpl. unfold bind at 1. unfold try_catch, bind, Spec.attempt, Spec.after_attempt.
  destruct (uploadFile h apiToken siteId apiBaseUrl (localPath f)
              (Some (path_dirname h (relativePath f))) t) as [t1 [data | e]];
    reflexivity.
Qed.

(** The loop never throws; its result is the tally of the attempts. *)
Lemma upload_loop_tally h apiToken siteId apiBaseUrl files :
  forall results t,
    exists t' r,
      upload_loop h apiToken siteId apiBaseUrl files results t = (t', Returned r)
      /\ total r = total results
      /\ success r = success results
                     + Z.of_nat (Spec.successes
                                   (Spec.outcomes h apiToken siteId apiBaseUrl files t))
      /\ failed r = failed results
                    + Z.of_nat (length (Spec.failures
                                          (Spec.outcomes h apiToken siteId apiBaseUrl files t)))
      /\ errors r = errors results
                    ++ Spec.failures (Spec.outcomes h apiToken siteId apiBaseUrl files t)
      /\ Spec.upload_calls t'
         = Spec.upload_calls t ++ map (Spec.call_of h) files.
Proof.
  induction files as [| f rest IH]; intros results t.
  - exists t, results. simpl. rewrite !Z.add_0_r, !app_nil_r. repeat split; reflexivity.
  - rewrite upload_loop_step. cbv zeta.
    pose proof (uploadFile_calls h apiToken siteId apiBaseUrl (localPath f)
                  (Some (path_dirname h (relativePath f))) t) as Hcall.
    fold (Spec.attempt h apiToken siteId apiBaseUrl f) in Hcall.
    simpl Spec.outcomes.
    destruct (Spec.attempt h apiToken siteId apiBaseUrl f t) as [t1 [data | e]];
      simpl fst in *; simpl snd in *; simpl Spec.after_attempt.
    + destruct (IH (count_success results) t1) as (t' & r & E & Ht & Hs & Hf & He & Hc).
      exists t', r. split; [exact E |]. simpl in *.
      repeat split; try assumption; try lia.
      rewrite Hc, Hcall, <- app_assoc. reflexivity.
    + destruct (IH (count_failure f e results)
                  (t1 ++ [EvWarning ("跳过文件 " +:+ relativePath f +:+ ": " +:+ message e)]))
        as (t' & r & E & Ht & Hs & Hf & He & Hc).
      exists t', r. split; [exact E |]. simpl in *.
      repeat split; try assumption; try lia.
      * rewrite He, <- app_assoc. reflexivity.
      * rewrite Hc, upload_calls_app, Hcall. simpl.
        rewrite app_nil_r, <- app_assoc. reflexivity.
Qed.

Lemma outcomes_files h apiToken siteId apiBaseUrl files :
  forall t, map fst (Spec.outcomes h apiToken siteId apiBaseUrl files t) = files.
Proof.
  induction files as [| f rest IH]; intros t; simpl; [reflexivity |].
  now rewrite IH.
Qed.

Lemma outcomes_split (run : list (FileRecord * outcome string)) :
  (Spec.successes run + length (Spec.failures run))%nat = length run.
Proof.
  induction run as [| [f [data | e]] run IH]; simpl; lia.
Qed.

(** [uploadDirectory] once the walk has returned [files]. *)
Lemma uploadDirectory_returns h apiToken siteId apiBaseUrl sourceDir t t1 files :
  getAllFiles h sourceDir None (t ++ [EvInfo ("开始上传目录: " +:+ sourceDir)])
  = (t1, Returned files) ->
  let t2 := t1 ++ [EvInfo ("发现 " +:+ num_toString (Z.of_nat (length files))
                           +:+ " 个文件需要上传")] in
  let run := Spec.outcomes h apiToken siteId apiBaseUrl files t2 in
  exists t' r,
    uploadDirectory h apiToken siteId apiBaseUrl sourceDir t = (t', Returned r)
    /\ total r = Z.of_nat (length files)
    /\ success r = Z.of_nat (Spec.successes run)
    /\ failed r = Z.of_nat (length (Spec.failures run))
    /\ errors r = Spec.failures run
    /\ Spec.upload_calls t' = Spec.upload_calls t1 ++ map (Spec.call_of h) files.
Proof.
  intros Hwalk t2 run.
  destruct (upload_loop_tally h apiToken siteId apiBaseUrl files
              {| total := Z.of_nat (length files); success := 0; failed := 0; errors := [] |}
              t2) as (t3 & r & Hloop & Ht & Hs & Hf & He & Hc).
  simpl in Ht, Hs, Hf, He. fold run in Hs, Hf, He.
  unfold uploadDirectory, try_catch.
  unfold bind at 1. unfold Core.info at 1, Core.emit at 1.
  rewrite (bind_returned _ _ _ _ _ Hwalk).
  unfold bind at 1. unfold Core.info at 1, Core.emit at 1. fold t2.
  rewrite (bind_returned _ _ _ _ _ Hloop).
  unfold bind, Core.info, Core.warning, Core.emit, ret.
  assert (Spec.upload_calls t2 = Spec.upload_calls t1) as Hc2.
  { unfold t2. rewrite upload_calls_app. simpl. now rewrite app_nil_r. }
  destruct (0 <? failed r); simpl; do 2 eexists; (split; [reflexivity |]);
    repeat split; try assumption;
    repeat rewrite upload_calls_app; simpl; rewrite ?app_nil_r, Hc, Hc2; reflexivity.
Qed.

(** [uploadDirectory] when the walk throws. *)
Lemma uploadDirectory_throws h apiToken siteId apiBaseUrl sourceDir t t1 e :
  getAllFiles h sourceDir None (t ++ [EvInfo ("开始上传目录: " +:+ sourceDir)])
  = (t1, Threw e) ->
  uploadDirectory h apiToken siteId apiBaseUrl sourceDir t
  = (t1 ++ [EvError ("批量上传失败: " +:+ message e)], Threw e).
Proof.
  intros Hwalk. unfold uploadDirectory, try_catch.
  unfold bind at 1. unfold Core.info at 1, Core.emit at 1.
  rewrite (bind_threw _ _ _ _ _ Hwalk).
  reflexivity.
Qed.

(** Whatever [uploadDirectory] returns adds up. *)
Lemma uploadDirectory_accounts h apiToken siteId apiBaseUrl sourceDir t t' r :
  uploadDirectory h apiToken siteId apiBaseUrl sourceDir t = (t', Returned r) ->
  success r + failed r = total r /\ Z.of_nat (length (errors r)) = failed r.
Proof.
  intros Hret.
  destruct (getAllFiles h sourceDir None (t ++ [EvInfo ("开始上传目录: " +:+ sourceDir)]))
    as [t1 [files | e]] eqn:Hwalk.
  - destruct (uploadDirectory_returns h apiToken siteId apiBaseUrl sourceDir t t1 files Hwalk)
      as (t'' & r' & E & Ht & Hs & Hf & He & _).
    rewrite E in Hret. injection Hret as _ <-.
    pose proof (outcomes_files h apiToken siteId apiBaseUrl files
                  (t1 ++ [EvInfo ("发现 " +:+ num_toString (Z.of_nat (length files))
                                  +:+ " 个文件需要上传")])) as Hlen.
    apply (f_equal (@length FileRecord)) in Hlen. rewrite length_map in Hlen.
    rewrite Ht, Hs, Hf, He, <- Nat2Z.inj_add, outcomes_split, Hlen.
    split; reflexivity.
  - rewrite (uploadDirectory_throws h apiToken siteId apiBaseUrl sourceDir t t1 e Hwalk)
      in Hret. discriminate.
Qed.

Lemma attempt_succeeds h apiToken siteId apiBaseUrl f t :
  Spec.uploads_succeed h ->
  exists t1 data, Spec.attempt h apiToken siteId apiBaseUrl f t = (t1, Returned data).
Proof.
  intros (Hex & Hstat & Hpost).
  unfold Spec.attempt, uploadFile, try_catch, bind, existsSync, statSync_size,
    axios_post_call, Core.info, Core.emit, ret.
  rewrite Hex. simpl.
  destruct (Hstat (localPath f)) as [sz ->]. simpl.
  match goal with
  | |- context [axios_post h ?tr ?req] => destruct (Hpost tr req) as [data ->]
  end.
  do 2 eexists. reflexivity.
Qed.

Lemma outcomes_all_succeed h apiToken siteId apiBaseUrl files :
  Spec.uploads_succeed h ->
  forall t,
    Spec.failures (Spec.outcomes h apiToken siteId apiBaseUrl files t) = []
    /\ Spec.successes (Spec.outcomes h apiToken siteId apiBaseUrl files t) = length files.
Proof.
  intros Hok. induction files as [| f rest IH]; intros t; simpl; [split; reflexivity |].
  destruct (attempt_succeeds h apiToken siteId apiBaseUrl f t Hok) as (t1 & data & ->).
  simpl. destruct (IH t1) as [-> ->]. split; reflexivity.
Qed.

End LoopFacts.

(** C1. For a directory tree whose walk meets no failure,
    [uploadDirectory] returns a result whose [total] is the number of regular
    files in the tree (at any depth), with [success + failed = total] and as
    many entries in [errors] as [failed] says; and whenever [uploadDirectory]
    returns at all, its result satisfies these two equations. *)
Theorem uploadDirectory_counts (h : Host) (apiToken siteId apiBaseUrl sourceDir : string)
    (t : Trace) :
  (forall nm unreadable items,
     fs_lookup h sourceDir = Some (DDir nm unreadable items) ->
     Spec.first_failure_in unreadable items = None ->
     exists t' r,
       ApiClient.uploadDirectory h apiToken siteId apiBaseUrl sourceDir t
       = (t', Returned r)
       /\ total r = Z.of_nat (Spec.count_files_in items)
       /\ success r + failed r = total r
       /\ Z.of_nat (length (errors r)) = failed r)
  /\ (forall t' r,
        ApiClient.uploadDirectory h apiToken siteId apiBaseUrl sourceDir t
        = (t', Returned r) ->
        success r + failed r = total r /\ Z.of_nat (length (errors r)) = failed r).
Proof.
  split.
  - intros nm unreadable items Hdir Hok.
    destruct (ListingFacts.getAllFiles_readable h sourceDir None nm unreadable items
                (t ++ [EvInfo ("开始上传目录: " +:+ sourceDir)]) Hdir Hok)
      as (Hfiles & Hlen).
    set (files := Spec.listing_in (path_sep h) sourceDir (default sourceDir None) items)
      in *.
    destruct (LoopFacts.uploadDirectory_returns h apiToken siteId apiBaseUrl sourceDir t _
                files Hfiles) as (t' & r & E & Ht & _).
    exists t', r. split; [exact E |].
    split; [now rewrite Ht, Hlen |].
    exact (LoopFacts.uploadDirectory_accounts h apiToken siteId apiBaseUrl sourceDir
             t t' r E).
  - intros t' r E.
    exact (LoopFacts.uploadDirectory_accounts h apiToken siteId apiBaseUrl sourceDir
             t t' r E).
Qed.

Lemma uploadDirectory_counts_witness :
  exists t' r,
    ApiClient.uploadDirectory Examples.host_500 "secret" "site-1"
      "https://api.example.com" "/work/dist" [] = (t', Returned r)
    /\ total r = 2
    /\ success r + failed r = total r
    /\ Z.of_nat (length (errors r)) = failed r.
Proof.
  destruct (uploadDirectory_counts Examples.host_500 "secret" "site-1"
              "https://api.example.com" "/work/dist" []) as (H & _).
  apply (H "dist" None
           [ DFile "index.html" (Returned 10);
             DDir "css" None [ DFile "style.css" (Returned 20) ] ]).
  - reflexivity.
  - reflexivity.
Defined.

(** C6. In the loop of [uploadDirectory] a failed upload is caught: the
    turn for that file adds one to [failed], appends the one entry
    [{file: relativePath, error: message}] to [errors], and the loop goes on
    with the remaining files.  Hence the loop never throws, every file of the
    enumeration is passed to [uploadFile], in order, and [errors] holds one
    entry per failed attempt; the same holds for [uploadDirectory] once the
    walk has returned. *)
Theorem upload_failures_are_contained (h : Host) (apiToken siteId apiBaseUrl : string) :
  (forall f rest results t e,
     snd (Spec.attempt h apiToken siteId apiBaseUrl f t) = Threw e ->
     ApiClient.upload_loop h apiToken siteId apiBaseUrl (f :: rest) results t
     = ApiClient.upload_loop h apiToken siteId apiBaseUrl rest
         {| total := total results; success := success results;
            failed := failed results + 1;
            errors := errors results
                      ++ [ {| file := relativePath f; error := message e |} ] |}
         (fst (Spec.attempt h apiToken siteId apiBaseUrl f t)
          ++ [EvWarning ("跳过文件 " +:+ relativePath f +:+ ": " +:+ message e)]))
  /\ (forall files results t,
        let run := Spec.outcomes h apiToken siteId apiBaseUrl files t in
        map fst run = files
        /\ exists t' r,
             ApiClient.upload_loop h apiToken siteId apiBaseUrl files results t
             = (t', Returned r)
             /\ failed r = failed results + Z.of_nat (length (Spec.failures run))
             /\ errors r = errors results ++ Spec.failures run
             /\ success r = success results + Z.of_nat (Spec.successes run)
             /\ Spec.upload_calls t' = Spec.upload_calls t ++ map (Spec.call_of h) files)
  /\ (forall sourceDir t t1 files,
        ApiClient.getAllFiles h sourceDir None
          (t ++ [EvInfo ("开始上传目录: " +:+ sourceDir)]) = (t1, Returned files) ->
        let run := Spec.outcomes h apiToken siteId apiBaseUrl files
                     (t1 ++ [EvInfo ("发现 " +:+ num_toString (Z.of_nat (length files))
                                     +:+ " 个文件需要上传")]) in
        map fst run = files
        /\ exists t' r,
             ApiClient.uploadDirectory h apiToken siteId apiBaseUrl sourceDir t
             = (t', Returned r)
             /\ failed r = Z.of_nat (length (Spec.failures run))
             /\ errors r = Spec.failures run
             /\ Spec.upload_calls t' = Spec.upload_calls t1 ++ map (Spec.call_of h) files).
Proof.
  split; [| split].
  - intros f rest results t e He.
    rewrite LoopFacts.upload_loop_step. cbv zeta. rewrite He. reflexivity.
  - intros files results t run. split; [apply LoopFacts.outcomes_files |].
    destruct (LoopFacts.upload_loop_tally h apiToken siteId apiBaseUrl files results t)
      as (t' & r & E & _ & Hs & Hf & He & Hc).
    exists t', r. repeat split; assumption.
  - intros sourceDir t t1 files Hwalk run. split; [apply LoopFacts.outcomes_files |].
    destruct (LoopFacts.uploadDirectory_returns h apiToken siteId apiBaseUrl sourceDir
                t t1 files Hwalk) as (t' & r & E & _ & _ & Hf & He & Hc).
    exists t', r. repeat split; assumption.
Qed.

Lemma upload_failures_are_contained_witness :
  exists t' r,
    ApiClient.uploadDirectory Examples.host_500 "secret" "site-1"
      "https://api.example.com" "/work/dist" [] = (t', Returned r)
    /\ failed r = 1
    /\ errors r = [ {| file := "css/style.css";
                       error := "Request failed with status code 500" |} ]
    /\ map fst (Spec.upload_calls t')
       = [ "/work/dist/index.html"; "/work/dist/css/style.css" ].
Proof.
  destruct (upload_failures_are_contained Examples.host_500 "secret" "site-1"
              "https://api.example.com") as (_ & _ & H).
  destruct (H "/work/dist" [] [EvInfo "开始上传目录: /work/dist"]
              [ mkFile "/work/dist/index.html" "index.html" "index.html" 10;
                mkFile "/work/dist/css/style.css" "css/style.css" "style.css" 20 ])
    as (_ & t' & r & E & Hf & He & Hc).
  - reflexivity.
  - exists t', r. split; [exact E |].
    split; [exact Hf |]. split; [exact He |].
    rewrite Hc. reflexivity.
Defined.

(** C2 (as the code has it). For a source directory holding exactly
    [index.html] and [css/style.css], in whichever order the directory read
    lists the two entries, on either path convention and for a normalized
    source path (as [create] passes it), [getAllFiles] returns the two
    records with [relativePath] [index.html] and [css/style.css]; when both
    uploads succeed, [uploadDirectory] makes exactly two [uploadFile] calls,
    one per record and in the order of the records, with [uploadPath] ["."]
    for [index.html] (what [path.dirname] gives for a file at the root) and
    ["css"] for [css/style.css], and returns
    [{total: 2, success: 2, failed: 0, errors: []}]. *)
Theorem uploadDirectory_two_files (h : Host) (apiToken siteId apiBaseUrl sourceDir : string)
    (nm : string) (items : list Dirent) (sz1 sz2 : Z) (t : Trace) :
  Spec.node_path h ->
  Path.normalized (path_sep h) sourceDir = true ->
  fs_lookup h sourceDir = Some (DDir nm None items) ->
  Permutation items (Spec.two_file_site sz1 sz2) ->
  Spec.uploads_succeed h ->
  exists files calls,
    Permutation files [ Spec.index_html (path_sep h) sourceDir sz1;
                        Spec.style_css (path_sep h) sourceDir sz2 ]
    /\ (forall t0,
          ApiClient.getAllFiles h sourceDir None t0 = (t0, Returned files))
    /\ Permutation calls
         [ (Path.join (path_sep h) sourceDir "index.html", ".");
           (Path.join (path_sep h) (Path.join (path_sep h) sourceDir "css")
              "style.css", "css") ]
    /\ map fst calls = map localPath files
    /\ exists t',
         ApiClient.uploadDirectory h apiToken siteId apiBaseUrl sourceDir t
         = (t', Returned {| total := 2; success := 2; failed := 0; errors := [] |})
         /\ Spec.upload_calls t' = Spec.upload_calls t ++ calls.
Proof.
  intros Hpath _ Hdir Hperm Hok.
  set (index := Spec.index_html (path_sep h) sourceDir sz1).
  set (style := Spec.style_css (path_sep h) sourceDir sz2).
  set (call1 := (Path.join (path_sep h) sourceDir "index.html", ".")).
  set (call2 := (Path.join (path_sep h) (Path.join (path_sep h) sourceDir "css")
                   "style.css", "css")).
  assert (Hplain : forall route, route = ["index.html"] \/ route = ["css"; "style.css"] ->
                   List.Forall (Spec.plain_name (path_sep h)) route).
  { intros route Hroute.
    destruct Hpath as [[Hsep _] | [Hsep _]]; rewrite Hsep;
      destruct Hroute as [-> | ->];
      repeat constructor; try discriminate; simpl; intuition discriminate. }
  assert (Hindex : Spec.record_of (path_sep h) sourceDir sourceDir ["index.html"] sz1
                   = index).
  { unfold Spec.record_of. rewrite ListingFacts.relative_path_of; try discriminate.
    - rewrite ListingFacts.replace_all_concat.
      unfold index, style.
      destruct Hpath as [[Hsep _] | [Hsep _]]; rewrite Hsep; reflexivity.
    - apply Hplain. now left. }
  assert (Hstyle : Spec.record_of (path_sep h) sourceDir sourceDir ["css"; "style.css"] sz2
                   = style).
  { unfold Spec.record_of. rewrite ListingFacts.relative_path_of; try discriminate.
    - rewrite ListingFacts.replace_all_concat.
      unfold index, style.
      destruct Hpath as [[Hsep _] | [Hsep _]]; rewrite Hsep; reflexivity.
    - apply Hplain. now right. }
  assert (Hcall1 : Spec.call_of h index = call1)
    by (unfold Spec.call_of, index, style;
        destruct Hpath as [[_ Hdirname] | [_ Hdirname]]; rewrite Hdirname; reflexivity).
  assert (Hcall2 : Spec.call_of h style = call2)
    by (unfold Spec.call_of, index, style;
        destruct Hpath as [[_ Hdirname] | [_ Hdirname]]; rewrite Hdirname; reflexivity).
  assert (exists files,
             (files = [index; style] \/ files = [style; index])
             /\ forall t0,
                  ApiClient.getAllFiles h sourceDir None t0 = (t0, Returned files))
    as (files & Horder & Hwalk).
  { unfold Spec.two_file_site in Hperm. symmetry in Hperm.
    apply Permutation_length_2_inv in Hperm.
    destruct Hperm as [-> | ->].
    - exists [index; style]. split; [now left |]. intros t0.
      destruct (ListingFacts.getAllFiles_readable h sourceDir None nm None _ t0 Hdir
                  eq_refl) as (-> & _).
      do 2 f_equal. rewrite <- Hindex, <- Hstyle. reflexivity.
    - exists [style; index]. split; [now right |]. intros t0.
      destruct (ListingFacts.getAllFiles_readable h sourceDir None nm None _ t0 Hdir
                  eq_refl) as (-> & _).
      do 2 f_equal. rewrite <- Hindex, <- Hstyle. reflexivity. }
  destruct (LoopFacts.uploadDirectory_returns h apiToken siteId apiBaseUrl sourceDir t _ _
              (Hwalk _)) as (t' & r & E & Ht & Hs & Hf & He & Hc).
  match type of Hf with
  | context [Spec.outcomes _ _ _ _ ?fs ?tr] =>
      destruct (LoopFacts.outcomes_all_succeed h apiToken siteId apiBaseUrl fs Hok tr)
        as (Hnone & Hall)
  end.
  rewrite Hnone in Hf, He. rewrite Hall in Hs.
  rewrite LoopFacts.upload_calls_app in Hc. simpl in Hc. rewrite app_nil_r in Hc.
  exists files, (map (Spec.call_of h) files).
  split; [destruct Horder as [-> | ->]; [reflexivity | apply perm_swap] |].
  split; [exact Hwalk |].
  split.
  { destruct Horder as [-> | ->]; simpl; rewrite Hcall1, Hcall2;
      [reflexivity | apply perm_swap]. }
  split; [rewrite map_map; reflexivity |].
  exists t'. split; [| exact Hc].
  rewrite E. destruct r as [tot suc fai errs]. simpl in *.
  destruct Horder as [-> | ->]; simpl in *; subst; reflexivity.
Qed.

Lemma uploadDirectory_two_files_witness :
  exists files calls,
    map relativePath files = [ "css/style.css"; "index.html" ]
    /\ ApiClient.getAllFiles Examples.host_by_name "/work/dist" None []
       = ([], Returned files)
    /\ Permutation calls
         [ ("/work/dist/index.html", "."); ("/work/dist/css/style.css", "css") ]
    /\ exists t',
         ApiClient.uploadDirectory Examples.host_by_name "secret" "site-1"
           "https://api.example.com" "/work/dist" []
         = (t', Returned {| total := 2; success := 2; failed := 0; errors := [] |})
         /\ Spec.upload_calls t' = calls.
Proof.
  destruct (uploadDirectory_two_files Examples.host_by_name "secret"
              "site-1" "https://api.example.com" "/work/dist" "dist"
              [ DDir "css" None [ DFile "style.css" (Returned 20) ];
                DFile "index.html" (Returned 10) ] 10 20 [])
    as (files & calls & _ & Hwalk & Hcalls & _ & t' & E & Hc).
  - left. split; reflexivity.
  - reflexivity.
  - reflexivity.
  - apply perm_swap.
  - repeat split.
    + intros p. eexists. reflexivity.
    + intros t0 req. eexists. reflexivity.
  - exists files, calls.
    split.
    { pose proof (Hwalk []) as Hrun. vm_compute in Hrun.
      injection Hrun as <-. reflexivity. }
    split; [exact (Hwalk []) |]. split; [exact Hcalls |].
    exists t'. split; [exact E | exact Hc].
Defined.

(** C2 as stated fails: on the POSIX runner with the two-file site and a
    remote that accepts every upload, the result is
    [{total: 2, success: 2, failed: 0, errors: []}] and two calls are made,
    but the [uploadPath] passed for [index.html] is ["."], not [""]. *)
Lemma uploadDirectory_root_uploadPath_counterexample :
  let run := ApiClient.uploadDirectory (Examples.host_ok Examples.env_full) "secret"
               "site-1" "https://api.example.com" "/work/dist" [] in
  snd run = Returned {| total := 2; success := 2; failed := 0; errors := [] |}
  /\ Spec.upload_calls (fst run)
     = [ ("/work/dist/index.html", "."); ("/work/dist/css/style.css", "css") ]
  /\ ~ (snd run = Returned {| total := 2; success := 2; failed := 0; errors := [] |}
        /\ Spec.upload_calls (fst run)
           = [ ("/work/dist/index.html", ""); ("/work/dist/css/style.css", "css") ]).
Proof.
  vm_compute. split; [reflexivity |]. split; [reflexivity |].
  intros [_ H]. discriminate H.
Qed.

(** ** The orchestrator *)

Module UploaderFacts.

Import Uploader.

Ltac run_method :=
  unfold try_catch, bind, this, assign, lift, ret, throw,
    Core.debug, Core.info, Core.warning, Core.error, Core.setFailed, Core.setOutput,
    Core.emit, ApiClient.Date_now in *;
  simpl in *.

Ltac split_cases :=
  repeat match goal with
         | |- context [match ?x with _ => _ end] =>
             lazymatch x with
             | context [match _ with _ => _ end] => fail
             | _ => destruct x eqn:?; simpl in *
             end
         end.

(** How [create] leaves the instance. *)
Lemma create_leaves h u t :
  match create h (u, t) with
  | ((u', _), Returned info) =>
      uploadInfo u' = Some info /\
      status u' = (if failed (result info) =? 0
                   then uploadStatus.success else uploadStatus.failed)
  | ((u', _), Threw _) => status u' = uploadStatus.failed
  end.
Proof.
  unfold create, validateConfig. run_method.
  split_cases; try (split; reflexivity); try reflexivity;
    repeat match goal with
           | H : (_, _) = (_, _) |- _ => injection H as ? ?; subst
           end; simpl; try congruence; auto.
Qed.

(** [cancel] without an upload record, or after the pass has ended. *)
Lemma cancel_nothing_to_do h u t :
  uploadInfo u = None \/ is_final (status u) = true ->
  cancel h (u, t) = ((u, t ++ [EvDebug "无需取消上传操作"]), Returned tt).
Proof.
  intros Hcase. unfold cancel. run_method.
  destruct (uploadInfo u) as [info |]; [| reflexivity].
  destruct Hcase as [Hnone | Hfinal]; [discriminate |].
  rewrite Hfinal. reflexivity.
Qed.

(** [cancel] with an upload record and a status that is not final. *)
Lemma cancel_marks h u t info :
  uploadInfo u = Some info -> is_final (status u) = false ->
  cancel h (u, t)
  = ((set_uploadInfo
        (Some (mark_cancelled (date_now h (t ++ [EvInfo "正在取消文件上传..."])) info))
        (set_status uploadStatus.cancelled u),
      ((t ++ [EvInfo "正在取消文件上传..."])
       ++ [EvDateNow (date_now h (t ++ [EvInfo "正在取消文件上传..."]))])
      ++ [EvInfo "文件上传已取消"]),
     Returned tt).
Proof.
  intros Hinfo Hfinal. unfold cancel. run_method.
  rewrite Hinfo, Hfinal. reflexivity.
Qed.

(** What [check] emits in the [failed] case: a failure, the status output
    and, with both time stamps, the duration; no warning. *)
Lemma check_failed_branch h u t info :
  uploadInfo u = Some info -> status u = uploadStatus.failed ->
  exists timing,
    check h (u, t)
    = ((u, t ++ [EvInfo "检查上传状态..."; EvSetFailed "文件上传失败";
                 EvSetOutput "status" "failed"] ++ timing), Returned tt)
    /\ forall msg, ~ In (EvWarning msg) timing.
Proof.
  intros Hinfo Hstatus. unfold check. run_method.
  rewrite Hinfo, Hstatus. simpl.
  destruct (startTime u) as [started |];
    [destruct (negb (started =? 0) && negb (endTime info =? 0)) |];
    simpl; eexists;
    (split; [rewrite <- ?app_assoc; simpl; reflexivity
            | intros msg H; simpl in H; intuition discriminate]).
Qed.

End UploaderFacts.

(** C5. However [create] ends, the status follows the outcome: when it
    returns the upload record of a completed pass, the status is [success]
    exactly when the result has [failed = 0] and is [failed] otherwise (one
    failed file is enough); when it throws, the status has been set to
    [failed]. *)
Theorem create_sets_status (h : Host) (u : Uploader.FileUploader) (t : Trace) :
  match Uploader.create h (u, t) with
  | ((u', _), Returned info) =>
      Uploader.uploadInfo u' = Some info
      /\ (Uploader.status u' = Uploader.uploadStatus.success <-> failed (result info) = 0)
      /\ (failed (result info) <> 0 -> Uploader.status u' = Uploader.uploadStatus.failed)
  | ((u', _), Threw _) => Uploader.status u' = Uploader.uploadStatus.failed
  end.
Proof.
  pose proof (UploaderFacts.create_leaves h u t) as H.
  destruct (Uploader.create h (u, t)) as [[u' t'] [info | e]]; [| exact H].
  destruct H as [Hinfo Hstatus]. split; [exact Hinfo |].
  destruct (Z.eqb_spec (failed (result info)) 0) as [Hz | Hnz]; rewrite Hstatus.
  - split; [tauto | intros Hne; now elim Hne].
  - split; [split; [discriminate | intros Hz; now elim Hnz] | reflexivity].
Qed.

(** C3 as stated fails: on the fresh instance (status [pending], no upload
    record) [cancel] changes neither the status nor any record: the status
    stays [pending] and no end time is stamped. *)
Lemma cancel_pending_counterexample :
  let h := Examples.host_ok Examples.env_full in
  Uploader.constructor h []
  = ([EvDebug "all variables are set"], Returned Examples.fresh_uploader)
  /\ Uploader.status Examples.fresh_uploader = Uploader.uploadStatus.pending
  /\ Uploader.cancel h (Examples.fresh_uploader, [EvDebug "all variables are set"])
     = ((Examples.fresh_uploader,
         [EvDebug "all variables are set"; EvDebug "无需取消上传操作"]), Returned tt)
  /\ Uploader.status
       (fst (fst (Uploader.cancel h
                    (Examples.fresh_uploader, [EvDebug "all variables are set"]))))
     <> Uploader.uploadStatus.cancelled.
Proof.
  vm_compute. repeat split; try reflexivity. discriminate.
Qed.

(** C3 (as the code has it). [cancel] does nothing on an instance that has
    no upload record, whatever its status: the pending instance on which no
    upload was attempted, and the failed one that [create] leaves when it
    throws; it does nothing on an instance whose status is [success] or
    [failed], with or without a record; on an instance that has an upload
    record and whose status is neither [success] nor [failed] it sets the
    status to [cancelled], flags the record as cancelled and stamps the
    current time as its end time. *)
Theorem cancel_effect (h : Host) (u : Uploader.FileUploader) (t : Trace) :
  (Uploader.uploadInfo u = None ->
   Uploader.cancel h (u, t) = ((u, t ++ [EvDebug "无需取消上传操作"]), Returned tt))
  /\ (forall info,
        Uploader.uploadInfo u = Some info ->
        Uploader.status u <> Uploader.uploadStatus.success ->
        Uploader.status u <> Uploader.uploadStatus.failed ->
        let now := date_now h (t ++ [EvInfo "正在取消文件上传..."]) in
        exists u' t',
          Uploader.cancel h (u, t) = ((u', t'), Returned tt)
          /\ Uploader.status u' = Uploader.uploadStatus.cancelled
          /\ Uploader.uploadInfo u'
             = Some {| result := result info; id := id info;
                       Upload.startTime := Upload.startTime info;
                       endTime := now; cancelled := true |}
          /\ In (EvDateNow now) t')
  /\ (Uploader.status u = Uploader.uploadStatus.success
      \/ Uploader.status u = Uploader.uploadStatus.failed ->
      Uploader.cancel h (u, t) = ((u, t ++ [EvDebug "无需取消上传操作"]), Returned tt)).
Proof.
  split; [| split].
  - intros Hnone. apply UploaderFacts.cancel_nothing_to_do. now left.
  - intros info Hinfo Hs Hf now.
    assert (Uploader.is_final (Uploader.status u) = false) as Hfinal
      by (destruct (Uploader.status u); reflexivity || contradiction).
    rewrite (UploaderFacts.cancel_marks h u t info Hinfo Hfinal).
    do 2 eexists. split; [reflexivity |].
    split; [reflexivity |]. split; [reflexivity |].
    apply in_or_app. left. apply in_or_app. right. now left.
  - intros Hcase. apply UploaderFacts.cancel_nothing_to_do. right.
    destruct Hcase as [-> | ->]; reflexivity.
Qed.

Lemma cancel_effect_witness :
  (Uploader.uploadInfo
     (fst (fst (Uploader.create Examples.host_no_dir (Examples.fresh_uploader, []))))
   = None
   /\ Uploader.status
        (fst (fst (Uploader.create Examples.host_no_dir (Examples.fresh_uploader, []))))
      = Uploader.uploadStatus.failed
   /\ Uploader.cancel Examples.host_no_dir
        (fst (Uploader.create Examples.host_no_dir (Examples.fresh_uploader, [])))
      = ((fst (fst (Uploader.create Examples.host_no_dir (Examples.fresh_uploader, []))),
          snd (fst (Uploader.create Examples.host_no_dir (Examples.fresh_uploader, [])))
          ++ [EvDebug "无需取消上传操作"]),
         Returned tt))
  /\ exists u' t',
       Uploader.cancel (Examples.host_ok Examples.env_full)
         (Examples.interrupted_uploader, [])
       = ((u', t'), Returned tt)
       /\ Uploader.status u' = Uploader.uploadStatus.cancelled
       /\ Uploader.uploadInfo u'
          = Some {| result := result Examples.interrupted_info;
                    id := "abc123"; Upload.startTime := 1700000000010;
                    endTime := 1700000000001; cancelled := true |}.
Proof.
  split.
  - split; [reflexivity |]. split; [reflexivity |].
    destruct (cancel_effect Examples.host_no_dir
                (fst (fst (Uploader.create Examples.host_no_dir
                             (Examples.fresh_uploader, []))))
                (snd (fst (Uploader.create Examples.host_no_dir
                             (Examples.fresh_uploader, []))))) as (_ & _ & H).
    apply H. right. reflexivity.
  - destruct (cancel_effect (Examples.host_ok Examples.env_full)
                Examples.interrupted_uploader []) as (_ & H & _).
    destruct (H Examples.interrupted_info) as (u' & t' & Hrun & Hstatus & Hinfo & _).
    + reflexivity.
    + discriminate.
    + discriminate.
    + exists u', t'. split; [exact Hrun |]. split; [exact Hstatus | exact Hinfo].
Defined.

(** C4 on the code. The two-file batch whose second upload fails with
    status 500: [create] records the failed file and leaves the status
    [failed]; [check] then reports the failure and the status output, and the
    duration, and emits no warning, so the failed file is not enumerated. *)
Theorem check_after_partial_failure :
  exists u t,
    Examples.created Examples.host_500 = Some (u, t)
    /\ Uploader.status u = Uploader.uploadStatus.failed
    /\ option_map result (Uploader.uploadInfo u)
       = Some {| total := 2; success := 1; failed := 1;
                 errors := [ {| file := "css/style.css";
                                error := "Request failed with status code 500" |} ] |}
    /\ Uploader.check Examples.host_500 (u, t)
       = ((u, t ++ [ EvInfo "检查上传状态..."; EvSetFailed "文件上传失败";
                     EvSetOutput "status" "failed"; EvInfo "上传耗时: 0 秒";
                     EvSetOutput "duration" "14" ]), Returned tt)
    /\ forall msg,
         ~ In (EvWarning msg)
              [ EvInfo "检查上传状态..."; EvSetFailed "文件上传失败";
                EvSetOutput "status" "failed"; EvInfo "上传耗时: 0 秒";
                EvSetOutput "duration" "14" ].
Proof.
  do 2 eexists. split; [vm_compute; reflexivity |].
  split; [reflexivity |]. split; [reflexivity |].
  split; [vm_compute; reflexivity |].
  intros msg H. simpl in H. intuition discriminate.
Qed.

(** ** Scenarios *)

Module Scenarios.

(** The table of status texts has no two equal values, so comparing
    [this.status] with an entry of the table is comparing keys. *)
Lemma status_text_injective (a b : Uploader.uploadStatus.key) :
  Uploader.status_text a = Uploader.status_text b -> a = b.
Proof. destruct a, b; simpl; intros E; try reflexivity; discriminate E. Qed.

(** On the Windows runner the local paths keep the backslash and the
    relative paths come out with forward slashes. *)
Example getAllFiles_on_windows :
  ApiClient.getAllFiles Examples.windows_host "C:\work\dist" None []
  = ([], Returned
           [ mkFile "C:\work\dist\index.html" "index.html" "index.html" 10;
             mkFile "C:\work\dist\css\style.css" "css/style.css" "style.css" 20 ]).
Proof. reflexivity. Qed.

Example upload_calls_on_windows :
  Spec.upload_calls
    (fst (ApiClient.uploadDirectory Examples.windows_host "secret" "site-1"
            "https://api.example.com" "C:\work\dist" []))
  = [ ("C:\work\dist\index.html", "."); ("C:\work\dist\css\style.css", "css") ].
Proof. reflexivity. Qed.

(** A directory that cannot be read aborts the walk: the error is logged
    at every level on the way out and nothing is uploaded. *)
Example getAllFiles_permission_denied :
  ApiClient.getAllFiles Examples.host_locked "/work/locked" None []
  = ([ EvError ("读取目录失败 /work/locked/private: "
                +:+ message Examples.permission_denied);
       EvError ("读取目录失败 /work/locked: " +:+ message Examples.permission_denied) ],
     Threw Examples.permission_denied).
Proof. reflexivity. Qed.

Example uploadDirectory_permission_denied :
  snd (ApiClient.uploadDirectory Examples.host_locked "secret" "site-1"
         "https://api.example.com" "/work/locked" [])
  = Threw Examples.permission_denied
  /\ Spec.upload_calls
       (fst (ApiClient.uploadDirectory Examples.host_locked "secret" "site-1"
               "https://api.example.com" "/work/locked" [])) = [].
Proof. split; reflexivity. Qed.

(** The entry point's sequence on the runner where everything works. *)
Example create_then_check_succeeds :
  exists u t,
    Examples.created (Examples.host_ok Examples.env_full) = Some (u, t)
    /\ Uploader.status u = Uploader.uploadStatus.success
    /\ snd (fst (Uploader.check (Examples.host_ok Examples.env_full) (u, t)))
       = t ++ [ EvInfo "检查上传状态..."; EvInfo "文件上传成功!";
                EvSetOutput "status" "success"; EvSetOutput "upload_result" "{}";
                EvSetOutput "total_files" "2"; EvSetOutput "success_files" "2";
                EvSetOutput "failed_files" "0"; EvInfo "上传耗时: 0 秒";
                EvSetOutput "duration" "12" ].
Proof.
  do 2 eexists. split; [vm_compute; reflexivity |].
  split; [reflexivity |]. vm_compute. reflexivity.
Qed.

(** With [site_id] missing the loader fails before anything else happens. *)
Example constructor_without_site_id :
  Uploader.constructor
    (Examples.host_ok (delete "INPUT_SITE_ID" Examples.env_full)) []
  = ([], Threw (new_Error "Input required and not supplied: site_id")).
Proof. vm_compute. reflexivity. Qed.

End Scenarios.

(* ===================================================================== *)
(** * Further properties of the code *)
(* ===================================================================== *)

(** ** Traces *)

Module TraceFacts.

Lemma pick_app {A} (f : Event -> option A) (t1 t2 : Trace) :
  Spec.pick f (t1 ++ t2) = Spec.pick f t1 ++ Spec.pick f t2.
Proof.
  induction t1 as [| ev t1 IH]; [reflexivity |].
  simpl. destruct (f ev); simpl; now rewrite IH.
Qed.

Lemma pick_none {A} (f : Event -> option A) (t : Trace) :
  Forall (fun ev => f ev = None) t -> Spec.pick f t = [].
Proof.
  induction 1 as [| ev t Hev _ IH]; [reflexivity |].
  simpl. now rewrite Hev.
Qed.

Lemma upload_calls_pick (t : Trace) : Spec.upload_calls t = Spec.pick Spec.as_call t.
Proof.
  induction t as [| ev t IH]; [reflexivity |].
  destruct ev; simpl; rewrite ?IH; reflexivity.
Qed.

End TraceFacts.

Ltac pick_simpl :=
  rewrite ?TraceFacts.upload_calls_pick in *;
  unfold Spec.posts, Spec.gets, Spec.warnings, Spec.set_failed, Spec.outputs,
    Spec.remote in *;
  repeat rewrite TraceFacts.pick_app in *; simpl in *; rewrite ?app_nil_r in *.

(** ** Uploading one file *)

Module UploadFileFacts.

Import ApiClient.

Ltac run_upload :=
  unfold uploadFile, try_catch, bind, existsSync, statSync_size, axios_post_call,
    Core.info, Core.error, Core.emit, ret, throw.

Lemma uploadFile_missing h apiToken siteId apiBaseUrl filePath uploadPathArg t :
  fs_existsSync h filePath = false ->
  uploadFile h apiToken siteId apiBaseUrl filePath uploadPathArg t
  = ((t ++ [EvUploadFile filePath (default "" uploadPathArg)])
     ++ [EvError ("文件上传失败 " +:+ path_basename h filePath +:+ ": "
                  +:+ "文件不存在: " +:+ filePath)],
     Threw (new_Error ("文件不存在: " +:+ filePath))).
Proof. intros E. run_upload. rewrite E. reflexivity. Qed.

Lemma uploadFile_stat_fails h apiToken siteId apiBaseUrl filePath uploadPathArg t e :
  fs_existsSync h filePath = true ->
  fs_statSync_size h filePath = Threw e ->
  uploadFile h apiToken siteId apiBaseUrl filePath uploadPathArg t
  = ((t ++ [EvUploadFile filePath (default "" uploadPathArg)])
     ++ [EvError ("文件上传失败 " +:+ path_basename h filePath +:+ ": " +:+ message e)],
     Threw e).
Proof. intros E1 E2. run_upload. rewrite E1. simpl. rewrite E2. reflexivity. Qed.

(** The trace when the POST is sent. *)
Lemma uploadFile_present h apiToken siteId apiBaseUrl filePath uploadPathArg t sz :
  fs_existsSync h filePath = true ->
  fs_statSync_size h filePath = Returned sz ->
  let uploadPath := default "" uploadPathArg in
  let req := Spec.request_for h apiToken siteId apiBaseUrl filePath uploadPath in
  let sent := (t ++ [EvUploadFile filePath uploadPath])
              ++ [EvInfo ("正在上传文件: " +:+ path_basename h filePath +:+ " ("
                          +:+ num_toString sz +:+ " 字节) 到路径: "
                          +:+ or_root uploadPath)] in
  uploadFile h apiToken siteId apiBaseUrl filePath uploadPathArg t
  = match axios_post h sent req with
    | Returned data =>
        ((sent ++ [EvPost req])
         ++ [EvInfo ("文件上传成功: " +:+ path_basename h filePath)], Returned data)
    | Threw e =>
        ((sent ++ [EvPost req])
         ++ [EvError ("文件上传失败 " +:+ path_basename h filePath +:+ ": "
                      +:+ message e)], Threw e)
    end.
Proof.
  intros E1 E2 uploadPath req sent. run_upload. rewrite E1. simpl. rewrite E2. simpl.
  fold uploadPath. unfold Spec.request_for in req. fold req. fold sent.
  destruct (axios_post h sent req); reflexivity.
Qed.

(** What one call adds to the POSTs, GETs and warnings of the trace. *)
Lemma uploadFile_observed h apiToken siteId apiBaseUrl filePath uploadPathArg t :
  let t' := fst (uploadFile h apiToken siteId apiBaseUrl filePath uploadPathArg t) in
  Spec.posts t'
  = Spec.posts t
    ++ (if Spec.uploadable h filePath
        then [Spec.request_for h apiToken siteId apiBaseUrl filePath
                (default "" uploadPathArg)]
        else [])
  /\ Spec.gets t' = Spec.gets t
  /\ Spec.warnings t' = Spec.warnings t.
Proof.
  unfold Spec.uploadable.
  destruct (fs_existsSync h filePath) eqn:E1.
  - destruct (fs_statSync_size h filePath) as [sz | e] eqn:E2.
    + rewrite (uploadFile_present h apiToken siteId apiBaseUrl filePath uploadPathArg
                 t sz E1 E2).
      cbv zeta.
      match goal with
      | |- context [axios_post h ?tr ?req] => destruct (axios_post h tr req)
      end; simpl fst; pick_simpl; repeat split; reflexivity.
    + rewrite (uploadFile_stat_fails h apiToken siteId apiBaseUrl filePath uploadPathArg
                 t e E1 E2).
      simpl fst. pick_simpl. repeat split; reflexivity.
  - rewrite (uploadFile_missing h apiToken siteId apiBaseUrl filePath uploadPathArg t E1).
    simpl fst. pick_simpl. repeat split; reflexivity.
Qed.

End UploadFileFacts.

(** X1. A file that is not there when its upload starts is never sent:
    [uploadFile] throws a new error saying so (it carries no response),
    logs it once, and issues neither a POST nor a GET. *)
Theorem uploadFile_rejects_missing_file (h : Host)
    (apiToken siteId apiBaseUrl filePath : string) (uploadPathArg : option string)
    (t : Trace) :
  fs_existsSync h filePath = false ->
  let r := ApiClient.uploadFile h apiToken siteId apiBaseUrl filePath uploadPathArg t in
  snd r = Threw (new_Error ("文件不存在: " +:+ filePath))
  /\ Spec.posts (fst r) = Spec.posts t
  /\ Spec.gets (fst r) = Spec.gets t
  /\ exists msg, fst r = (t ++ [EvUploadFile filePath (default "" uploadPathArg)])
                         ++ [EvError msg].
Proof.
  intros E r. subst r.
  rewrite (UploadFileFacts.uploadFile_missing h apiToken siteId apiBaseUrl filePath
             uploadPathArg t E).
  simpl fst. simpl snd. pick_simpl.
  repeat split; try reflexivity. eexists. reflexivity.
Qed.

Lemma uploadFile_rejects_missing_file_witness :
  snd (ApiClient.uploadFile Examples.host_vanished "secret" "site-1"
         "https://api.example.com" "/work/dist/css/style.css" (Some "css") [])
  = Threw (new_Error "文件不存在: /work/dist/css/style.css").
Proof.
  destruct (uploadFile_rejects_missing_file Examples.host_vanished "secret" "site-1"
              "https://api.example.com" "/work/dist/css/style.css" (Some "css") [])
    as (H & _).
  - reflexivity.
  - exact H.
Defined.

(** X2. A file that is there is sent with exactly one POST, whatever its
    size (the 100 MB constant is not consulted): the request goes to
    [{base}/sites/{siteId}/files?path={uploadPath}] with the token, the file
    under its base name, and the [path] form field exactly when the upload
    path is not empty; no GET is made, and the call ends as the POST ends:
    it returns the response data or throws the very error of the POST. *)
Theorem uploadFile_sends_one_post (h : Host)
    (apiToken siteId apiBaseUrl filePath : string) (uploadPathArg : option string)
    (t : Trace) (sz : Z) :
  fs_existsSync h filePath = true ->
  fs_statSync_size h filePath = Returned sz ->
  let uploadPath := default "" uploadPathArg in
  let req :=
    {| post_url := apiBaseUrl +:+ "/sites/" +:+ siteId +:+ "/files?path=" +:+ uploadPath;
       post_token := apiToken;
       post_fileName := path_basename h filePath;
       post_filePath := filePath;
       post_pathField := if String.eqb uploadPath "" then None else Some uploadPath |} in
  let r := ApiClient.uploadFile h apiToken siteId apiBaseUrl filePath uploadPathArg t in
  Spec.posts (fst r) = Spec.posts t ++ [req]
  /\ Spec.gets (fst r) = Spec.gets t
  /\ exists sent, snd r = axios_post h sent req /\ Spec.posts sent = Spec.posts t.
Proof.
  intros E1 E2 uploadPath req r. subst r.
  rewrite (UploadFileFacts.uploadFile_present h apiToken siteId apiBaseUrl filePath
             uploadPathArg t sz E1 E2).
  cbv zeta. fold uploadPath. change (Spec.request_for h apiToken siteId apiBaseUrl
                                       filePath uploadPath) with req.
  match goal with
  | |- context [axios_post h ?tr req] => set (sent := tr)
  end.
  assert (Spec.posts sent = Spec.posts t) as Hsent by (subst sent; pick_simpl; reflexivity).
  destruct (axios_post h sent req) as [data | e] eqn:Hpost; simpl fst; simpl snd.
  - split; [| split].
    + unfold Spec.posts in *. rewrite !TraceFacts.pick_app, Hsent. simpl.
      now rewrite app_nil_r.
    + subst sent. pick_simpl. reflexivity.
    + exists sent. split; [now rewrite Hpost | exact Hsent].
  - split; [| split].
    + unfold Spec.posts in *. rewrite !TraceFacts.pick_app, Hsent. simpl.
      now rewrite app_nil_r.
    + subst sent. pick_simpl. reflexivity.
    + exists sent. split; [now rewrite Hpost | exact Hsent].
Qed.

Lemma uploadFile_sends_one_post_witness :
  Uploader.MAX_FILE_SIZE < 209715200
  /\ Spec.posts
       (fst (ApiClient.uploadFile Examples.host_large "secret" "site-1"
               "https://api.example.com" "/work/dist/index.html" (Some ".") []))
     = [ {| post_url := "https://api.example.com/sites/site-1/files?path=.";
            post_token := "secret";
            post_fileName := "index.html";
            post_filePath := "/work/dist/index.html";
            post_pathField := Some "." |} ].
Proof.
  split; [reflexivity |].
  destruct (uploadFile_sends_one_post Examples.host_large "secret" "site-1"
              "https://api.example.com" "/work/dist/index.html" (Some ".") []
              209715200) as (H & _).
  - reflexivity.
  - reflexivity.
  - exact H.
Defined.

(** ** The walk and the trace *)

Module WalkTraceFacts.

Import ApiClient.

(** A walk that returns has left the trace alone and has read a directory
    without failure. *)
Lemma getAllFiles_returned h dirPath basePathArg t t' files :
  getAllFiles h dirPath basePathArg t = (t', Returned files) ->
  t' = t
  /\ exists nm items,
       fs_lookup h dirPath = Some (DDir nm None items)
       /\ Spec.first_failure_in None items = None
       /\ files = Spec.listing_in (path_sep h) dirPath (default dirPath basePathArg) items.
Proof.
  intros Hwalk.
  destruct (fs_lookup h dirPath) as [[nm stat | nm unreadable items | nm] |] eqn:Hdir.
  2: {
    rewrite (ListingFacts.getAllFiles_lookup h dirPath basePathArg nm unreadable items t Hdir)
      in Hwalk.
    pose proof (ListingFacts.getAllFiles_tree_outcome h dirPath
                  (default dirPath basePathArg) unreadable items t) as Hout.
    destruct (Spec.first_failure_in unreadable items) as [e |] eqn:Hfail.
    - destruct Hout as [t'' Ht'']. congruence.
    - rewrite Hout in Hwalk. injection Hwalk as <- <-.
      destruct unreadable as [e |]; [discriminate |].
      split; [reflexivity |]. exists nm, items. repeat split; assumption. }
  all: destruct (ListingFacts.getAllFiles_not_directory h dirPath basePathArg t)
         as (t'' & e & Hthrow);
       [intros ? ? ? ?; congruence | congruence].
Qed.

(** The loop over the entries only ever logs errors. *)
Lemma for_items_logs (each : Dirent -> M Trace (list FileRecord)) items :
  Forall (fun x => forall t, exists extra,
            fst (each x t) = t ++ extra /\
            Forall (fun ev => exists msg, ev = EvError msg) extra) items ->
  forall files t, exists extra,
    fst (for_items each items files t) = t ++ extra /\
    Forall (fun ev => exists msg, ev = EvError msg) extra.
Proof.
  induction 1 as [| x l Hx _ IH]; intros files t; simpl.
  - exists []. now rewrite app_nil_r.
  - unfold bind. destruct (Hx t) as (extra1 & E1 & H1).
    destruct (each x t) as [t1 [pushed | e]]; simpl in E1; subst t1.
    + destruct (IH (files ++ pushed) (t ++ extra1)) as (extra2 & E2 & H2).
      exists (extra1 ++ extra2). rewrite E2, app_assoc. split; [reflexivity |].
      now apply Forall_app.
    + exists extra1. now split.
Qed.

Lemma getAllFiles_body_logs each dirPath unreadable items t :
  (forall files t0, exists extra,
     fst (for_items each items files t0) = t0 ++ extra /\
     Forall (fun ev => exists msg, ev = EvError msg) extra) ->
  exists extra,
    fst (getAllFiles_body each dirPath unreadable items t) = t ++ extra /\
    Forall (fun ev => exists msg, ev = EvError msg) extra.
Proof.
  intros Hloop. unfold getAllFiles_body, try_catch.
  destruct unreadable as [e |].
  - unfold throw, bind, Core.error, Core.emit. simpl.
    eexists [_]. split; [reflexivity |]. repeat constructor. eexists. reflexivity.
  - destruct (Hloop [] t) as (extra & E & H).
    destruct (for_items each items [] t) as [t1 [files | e]]; simpl in E; subst t1.
    + exists extra. now split.
    + unfold throw, bind, Core.error, Core.emit. simpl.
      eexists (extra ++ [_]). rewrite app_assoc. split; [reflexivity |].
      apply Forall_app. split; [exact H |]. repeat constructor. eexists. reflexivity.
Qed.

Lemma getAllFiles_item_logs h basePath item :
  forall dirPath t, exists extra,
    fst (getAllFiles_item h dirPath basePath item t) = t ++ extra /\
    Forall (fun ev => exists msg, ev = EvError msg) extra.
Proof.
  induction item as [nm stat | nm unreadable sub IH | nm] using WalkFacts.Dirent_induction;
    intros dirPath t.
  - exists []. rewrite app_nil_r. destruct stat; simpl; split; constructor.
  - simpl. apply getAllFiles_body_logs. apply for_items_logs.
    eapply Forall_impl; [exact IH |]. intros x Hx t0. apply Hx.
  - exists []. rewrite app_nil_r. split; [reflexivity | constructor].
Qed.

(** Whatever the walk does, it only appends error logs to the trace. *)
Lemma getAllFiles_logs h dirPath basePathArg t :
  exists extra,
    fst (getAllFiles h dirPath basePathArg t) = t ++ extra /\
    Forall (fun ev => exists msg, ev = EvError msg) extra.
Proof.
  assert (forall unreadable items, exists extra,
             fst (getAllFiles_tree h dirPath (default dirPath basePathArg)
                    unreadable items t) = t ++ extra /\
             Forall (fun ev => exists msg, ev = EvError msg) extra) as Htree.
  { intros unreadable items. apply getAllFiles_body_logs. apply for_items_logs.
    rewrite Forall_forall. intros x _ t0. apply getAllFiles_item_logs. }
  unfold getAllFiles. destruct (fs_lookup h dirPath) as [[] |]; apply Htree.
Qed.

Lemma pick_errors {A} (f : Event -> option A) (extra : Trace) :
  (forall msg, f (EvError msg) = None) ->
  Forall (fun ev => exists msg, ev = EvError msg) extra ->
  Spec.pick f extra = [].
Proof.
  intros Hf Hall. apply TraceFacts.pick_none.
  eapply Forall_impl; [exact Hall |]. intros ev [msg ->]. apply Hf.
Qed.

End WalkTraceFacts.

(** ** The batch and the trace *)

Module BatchFacts.

Import ApiClient.

(** What the upload loop adds to the POSTs, GETs and warnings. *)
Lemma upload_loop_observed h apiToken siteId apiBaseUrl files :
  forall results t,
    let t' := fst (upload_loop h apiToken siteId apiBaseUrl files results t) in
    Spec.posts t'
    = Spec.posts t
      ++ map (Spec.request_of h apiToken siteId apiBaseUrl)
           (List.filter (fun f => Spec.uploadable h (localPath f)) files)
    /\ Spec.gets t' = Spec.gets t
    /\ Spec.warnings t'
       = Spec.warnings t
         ++ map Spec.skip_warning
              (Spec.failures (Spec.outcomes h apiToken siteId apiBaseUrl files t)).
Proof.
  induction files as [| f rest IH]; intros results t.
  - simpl. rewrite !app_nil_r. repeat split; reflexivity.
  - cbv zeta. rewrite LoopFacts.upload_loop_step. cbv zeta.
    destruct (UploadFileFacts.uploadFile_observed h apiToken siteId apiBaseUrl
                (localPath f) (Some (path_dirname h (relativePath f))) t)
      as (Hp & Hg & Hw).
    fold (Spec.attempt h apiToken siteId apiBaseUrl f) in Hp, Hg, Hw. cbv zeta in Hp, Hg, Hw.
    simpl Spec.outcomes. simpl List.filter.
    destruct (Spec.attempt h apiToken siteId apiBaseUrl f t) as [t1 [data | e]];
      simpl fst in *; simpl snd in *; simpl Spec.after_attempt; simpl Spec.failures.
    + destruct (IH (count_success results) t1) as (Ip & Ig & Iw). cbv zeta in Ip, Ig, Iw.
      rewrite Ip, Ig, Iw, Hp, Hg, Hw. repeat split; try reflexivity.
      rewrite <- app_assoc. f_equal.
      destruct (Spec.uploadable h (localPath f)); reflexivity.
    + destruct (IH (count_failure f e results)
                  (t1 ++ [EvWarning ("跳过文件 " +:+ relativePath f +:+ ": " +:+ message e)]))
        as (Ip & Ig & Iw). cbv zeta in Ip, Ig, Iw.
      rewrite Ip, Ig, Iw.
      unfold Spec.posts, Spec.gets, Spec.warnings in *.
      rewrite !TraceFacts.pick_app, Hp, Hg, Hw. simpl. rewrite !app_nil_r.
      repeat split; try reflexivity.
      * rewrite <- app_assoc. f_equal.
        destruct (Spec.uploadable h (localPath f)); reflexivity.
      * rewrite <- app_assoc. reflexivity.
Qed.

(** [uploadDirectory] after a walk that returned [files]. *)
Lemma uploadDirectory_after_walk h apiToken siteId apiBaseUrl sourceDir t files :
  getAllFiles h sourceDir None (t ++ [EvInfo ("开始上传目录: " +:+ sourceDir)])
  = (t ++ [EvInfo ("开始上传目录: " +:+ sourceDir)], Returned files) ->
  let t2 := (t ++ [EvInfo ("开始上传目录: " +:+ sourceDir)])
            ++ [EvInfo ("发现 " +:+ num_toString (Z.of_nat (length files))
                        +:+ " 个文件需要上传")] in
  let start := {| total := Z.of_nat (length files); success := 0; failed := 0;
                  errors := [] |} in
  exists r,
    snd (upload_loop h apiToken siteId apiBaseUrl files start t2) = Returned r
    /\ errors r = Spec.failures (Spec.outcomes h apiToken siteId apiBaseUrl files t2)
    /\ failed r = Z.of_nat (length (errors r))
    /\ uploadDirectory h apiToken siteId apiBaseUrl sourceDir t
       = ((fst (upload_loop h apiToken siteId apiBaseUrl files start t2)
           ++ [EvInfo ("上传完成: 成功 " +:+ num_toString (success r) +:+ "/"
                       +:+ num_toString (total r) +:+ " 个文件")])
          ++ (if 0 <? failed r
              then [EvWarning ("失败 " +:+ num_toString (failed r) +:+ " 个文件")]
              else []),
          Returned r).
Proof.
  intros Hwalk t2 start.
  destruct (LoopFacts.upload_loop_tally h apiToken siteId apiBaseUrl files start t2)
    as (t3 & r & Hloop & _ & _ & Hf & He & _).
  simpl in Hf, He.
  exists r. rewrite Hloop. simpl fst. simpl snd.
  split; [reflexivity |]. split; [exact He |]. split; [now rewrite Hf, He |].
  unfold uploadDirectory, try_catch.
  unfold bind at 1. unfold Core.info at 1, Core.emit at 1.
  rewrite (bind_returned _ _ _ _ _ Hwalk).
  unfold bind at 1. unfold Core.info at 1, Core.emit at 1. fold t2. fold start.
  rewrite (bind_returned _ _ _ _ _ Hloop).
  unfold bind, Core.info, Core.warning, Core.emit, ret.
  destruct (0 <? failed r); simpl; rewrite ?app_nil_r; reflexivity.
Qed.

Lemma upload_calls_errors (extra : Trace) :
  Forall (fun ev => exists msg, ev = EvError msg) extra ->
  Spec.upload_calls extra = [].
Proof.
  induction 1 as [| ev l [msg ->] _ IH]; [reflexivity | exact IH].
Qed.

(** [uploadDirectory] when the walk throws: nothing is attempted. *)
Lemma uploadDirectory_walk_threw h apiToken siteId apiBaseUrl sourceDir t t1 e :
  getAllFiles h sourceDir None (t ++ [EvInfo ("开始上传目录: " +:+ sourceDir)])
  = (t1, Threw e) ->
  let r := uploadDirectory h apiToken siteId apiBaseUrl sourceDir t in
  snd r = Threw e
  /\ Spec.upload_calls (fst r) = Spec.upload_calls t
  /\ Spec.posts (fst r) = Spec.posts t
  /\ Spec.gets (fst r) = Spec.gets t
  /\ In (EvError ("批量上传失败: " +:+ message e)) (fst r).
Proof.
  intros Hwalk r. subst r.
  rewrite (LoopFacts.uploadDirectory_throws h apiToken siteId apiBaseUrl sourceDir
             t t1 e Hwalk).
  destruct (WalkTraceFacts.getAllFiles_logs h sourceDir None
              (t ++ [EvInfo ("开始上传目录: " +:+ sourceDir)])) as (extra & E & Hall).
  rewrite Hwalk in E. simpl in E. subst t1. simpl fst. simpl snd.
  split; [reflexivity |].
  split.
  { rewrite !LoopFacts.upload_calls_app, (upload_calls_errors extra Hall). simpl.
    now rewrite !app_nil_r. }
  split.
  { unfold Spec.posts. rewrite !TraceFacts.pick_app.
    rewrite (WalkTraceFacts.pick_errors Spec.as_post extra (fun _ => eq_refl) Hall).
    simpl. now rewrite !app_nil_r. }
  split.
  { unfold Spec.gets. rewrite !TraceFacts.pick_app.
    rewrite (WalkTraceFacts.pick_errors Spec.as_get extra (fun _ => eq_refl) Hall).
    simpl. now rewrite !app_nil_r. }
  apply in_or_app. right. now left.
Qed.

End BatchFacts.

(** X3. [uploadDirectory] sends one POST for each enumerated
    file that is there when its turn comes, in enumeration order, and nothing
    else: a file whose upload fails is not retried ([maxRetries] is never
    consulted), a file that has vanished is not sent, and the batch makes no
    GET.  Each request carries the file's parent directory (the [dirname] of
    its relative path) as upload path. *)
Theorem uploadDirectory_posts_once_per_file (h : Host)
    (apiToken siteId apiBaseUrl sourceDir : string) (t t1 : Trace)
    (files : list FileRecord) :
  ApiClient.getAllFiles h sourceDir None (t ++ [EvInfo ("开始上传目录: " +:+ sourceDir)])
  = (t1, Returned files) ->
  let t' := fst (ApiClient.uploadDirectory h apiToken siteId apiBaseUrl sourceDir t) in
  Spec.posts t'
  = Spec.posts t
    ++ map (fun f =>
              {| post_url := apiBaseUrl +:+ "/sites/" +:+ siteId +:+ "/files?path="
                             +:+ path_dirname h (relativePath f);
                 post_token := apiToken;
                 post_fileName := path_basename h (localPath f);
                 post_filePath := localPath f;
                 post_pathField :=
                   if String.eqb (path_dirname h (relativePath f)) "" then None
                   else Some (path_dirname h (relativePath f)) |})
         (List.filter (fun f => Spec.uploadable h (localPath f)) files)
  /\ (length (Spec.posts t') <= length (Spec.posts t) + length files)%nat
  /\ Spec.gets t' = Spec.gets t.
Proof.
  intros Hwalk t'.
  destruct (WalkTraceFacts.getAllFiles_returned h sourceDir None _ _ _ Hwalk) as (-> & _).
  destruct (BatchFacts.uploadDirectory_after_walk h apiToken siteId apiBaseUrl sourceDir
              t files Hwalk) as (r & _ & _ & _ & Hrun).
  destruct (BatchFacts.upload_loop_observed h apiToken siteId apiBaseUrl files
              {| total := Z.of_nat (length files); success := 0; failed := 0;
                 errors := [] |}
              ((t ++ [EvInfo ("开始上传目录: " +:+ sourceDir)])
               ++ [EvInfo ("发现 " +:+ num_toString (Z.of_nat (length files))
                           +:+ " 个文件需要上传")])) as (Hp & Hg & _).
  cbv zeta in Hp, Hg, Hrun. subst t'. rewrite Hrun. simpl fst.
  assert (forall A (f : Event -> option A),
             (forall msg, f (EvInfo msg) = None) ->
             (forall msg, f (EvWarning msg) = None) ->
             forall (mid : Trace) (r0 : UploadResult),
               Spec.pick f
                 ((mid ++ [EvInfo ("上传完成: 成功 " +:+ num_toString (success r0) +:+ "/"
                                   +:+ num_toString (total r0) +:+ " 个文件")])
                  ++ (if 0 <? failed r0
                      then [EvWarning ("失败 " +:+ num_toString (failed r0) +:+ " 个文件")]
                      else []))
               = Spec.pick f mid) as Htail.
  { intros A f Hi Hw mid r0. rewrite !TraceFacts.pick_app. simpl. rewrite Hi.
    destruct (0 <? failed r0); simpl; rewrite ?Hw, !app_nil_r; reflexivity. }
  assert (Spec.posts
            ((t ++ [EvInfo ("开始上传目录: " +:+ sourceDir)])
             ++ [EvInfo ("发现 " +:+ num_toString (Z.of_nat (length files))
                         +:+ " 个文件需要上传")]) = Spec.posts t) as Hp0
    by (pick_simpl; reflexivity).
  assert (Spec.gets
            ((t ++ [EvInfo ("开始上传目录: " +:+ sourceDir)])
             ++ [EvInfo ("发现 " +:+ num_toString (Z.of_nat (length files))
                         +:+ " 个文件需要上传")]) = Spec.gets t) as Hg0
    by (pick_simpl; reflexivity).
  unfold Spec.posts, Spec.gets in *.
  rewrite !Htail by reflexivity. rewrite Hp, Hg, Hp0, Hg0.
  split; [reflexivity |]. split; [| reflexivity].
  rewrite length_app, length_map.
  pose proof (List.filter_length_le (fun f => Spec.uploadable h (localPath f)) files).
  lia.
Qed.

Lemma uploadDirectory_posts_once_per_file_witness :
  map post_filePath
    (Spec.posts (fst (ApiClient.uploadDirectory Examples.host_vanished "secret" "site-1"
                        "https://api.example.com" "/work/dist" [])))
  = [ "/work/dist/index.html" ].
Proof.
  destruct (uploadDirectory_posts_once_per_file Examples.host_vanished "secret" "site-1"
              "https://api.example.com" "/work/dist" []
              [EvInfo "开始上传目录: /work/dist"] Examples.site_files) as (H & _).
  - reflexivity.
  - rewrite H. reflexivity.
Defined.

(** X4. When the walk of the source directory throws (a directory that
    cannot be read, a file that cannot be stat'ed, or a source path that is no
    readable directory), [uploadDirectory] throws that very error after
    logging it, and nothing is attempted: no [uploadFile] call, no POST, no
    GET, even for files the walk had already seen. *)
Theorem uploadDirectory_aborts_on_walk_failure (h : Host)
    (apiToken siteId apiBaseUrl sourceDir : string) (t : Trace) :
  let r := ApiClient.uploadDirectory h apiToken siteId apiBaseUrl sourceDir t in
  (forall nm unreadable items e,
     fs_lookup h sourceDir = Some (DDir nm unreadable items) ->
     Spec.first_failure_in unreadable items = Some e ->
     snd r = Threw e
     /\ Spec.upload_calls (fst r) = Spec.upload_calls t
     /\ Spec.posts (fst r) = Spec.posts t
     /\ Spec.gets (fst r) = Spec.gets t
     /\ In (EvError ("批量上传失败: " +:+ message e)) (fst r))
  /\ ((forall nm unreadable items,
         fs_lookup h sourceDir <> Some (DDir nm unreadable items)) ->
      exists e,
        snd r = Threw e
        /\ Spec.upload_calls (fst r) = Spec.upload_calls t
        /\ Spec.posts (fst r) = Spec.posts t
        /\ Spec.gets (fst r) = Spec.gets t).
Proof.
  intros r. split.
  - intros nm unreadable items e Hdir Hfail.
    pose proof (ListingFacts.getAllFiles_tree_outcome h sourceDir (default sourceDir None)
                  unreadable items (t ++ [EvInfo ("开始上传目录: " +:+ sourceDir)])) as Hout.
    rewrite Hfail in Hout. destruct Hout as [t1 Ht1].
    rewrite <- (ListingFacts.getAllFiles_lookup h sourceDir None nm unreadable items _ Hdir)
      in Ht1.
    exact (BatchFacts.uploadDirectory_walk_threw h apiToken siteId apiBaseUrl sourceDir
             t t1 e Ht1).
  - intros Hno.
    destruct (ListingFacts.getAllFiles_not_directory h sourceDir None
                (t ++ [EvInfo ("开始上传目录: " +:+ sourceDir)]) Hno) as (t1 & e & Ht1).
    exists e.
    destruct (BatchFacts.uploadDirectory_walk_threw h apiToken siteId apiBaseUrl sourceDir
                t t1 e Ht1) as (H1 & H2 & H3 & H4 & _).
    repeat split; assumption.
Qed.

Lemma uploadDirectory_aborts_on_walk_failure_witness :
  snd (ApiClient.uploadDirectory Examples.host_locked "secret" "site-1"
         "https://api.example.com" "/work/locked" [])
  = Threw Examples.permission_denied
  /\ Spec.upload_calls
       (fst (ApiClient.uploadDirectory Examples.host_locked "secret" "site-1"
               "https://api.example.com" "/work/locked" [])) = [].
Proof.
  destruct (uploadDirectory_aborts_on_walk_failure Examples.host_locked "secret" "site-1"
              "https://api.example.com" "/work/locked" []) as (H & _).
  destruct (H "locked" None
              [ DFile "index.html" (Returned 10);
                DDir "private" (Some Examples.permission_denied)
                  [ DFile "notes.txt" (Returned 5) ] ]
              Examples.permission_denied) as (H1 & H2 & _).
  - reflexivity.
  - reflexivity.
  - split; [exact H1 | exact H2].
Defined.

(** X5. The warnings of a batch name its failures: [uploadDirectory]
    logs one warning per failed file, in order, built from the very entry it
    records in [errors], then one summary warning with the number of failures
    when there is any; a batch without failure logs no warning. *)
Theorem uploadDirectory_warns_per_failure (h : Host)
    (apiToken siteId apiBaseUrl sourceDir : string) (t t1 : Trace)
    (files : list FileRecord) :
  ApiClient.getAllFiles h sourceDir None (t ++ [EvInfo ("开始上传目录: " +:+ sourceDir)])
  = (t1, Returned files) ->
  exists r,
    snd (ApiClient.uploadDirectory h apiToken siteId apiBaseUrl sourceDir t) = Returned r
    /\ Spec.warnings (fst (ApiClient.uploadDirectory h apiToken siteId apiBaseUrl
                             sourceDir t))
       = Spec.warnings t
         ++ map (fun e => "跳过文件 " +:+ file e +:+ ": " +:+ error e) (errors r)
         ++ (if 0 <? failed r
             then ["失败 " +:+ num_toString (failed r) +:+ " 个文件"]
             else [])
    /\ (errors r = [] ->
        Spec.warnings (fst (ApiClient.uploadDirectory h apiToken siteId apiBaseUrl
                              sourceDir t)) = Spec.warnings t).
Proof.
  intros Hwalk.
  destruct (WalkTraceFacts.getAllFiles_returned h sourceDir None _ _ _ Hwalk) as (-> & _).
  destruct (BatchFacts.uploadDirectory_after_walk h apiToken siteId apiBaseUrl sourceDir
              t files Hwalk) as (r & _ & He & Hf & Hrun).
  destruct (BatchFacts.upload_loop_observed h apiToken siteId apiBaseUrl files
              {| total := Z.of_nat (length files); success := 0; failed := 0;
                 errors := [] |}
              ((t ++ [EvInfo ("开始上传目录: " +:+ sourceDir)])
               ++ [EvInfo ("发现 " +:+ num_toString (Z.of_nat (length files))
                           +:+ " 个文件需要上传")])) as (_ & _ & Hw).
  cbv zeta in Hw, Hrun, He. rewrite <- He in Hw.
  exists r. rewrite Hrun. simpl fst. simpl snd. split; [reflexivity |].
  assert (Spec.warnings
            ((fst (ApiClient.upload_loop h apiToken siteId apiBaseUrl files
                     {| total := Z.of_nat (length files); success := 0; failed := 0;
                        errors := [] |}
                     ((t ++ [EvInfo ("开始上传目录: " +:+ sourceDir)])
                      ++ [EvInfo ("发现 " +:+ num_toString (Z.of_nat (length files))
                                  +:+ " 个文件需要上传")]))
              ++ [EvInfo ("上传完成: 成功 " +:+ num_toString (success r) +:+ "/"
                          +:+ num_toString (total r) +:+ " 个文件")])
             ++ (if 0 <? failed r
                 then [EvWarning ("失败 " +:+ num_toString (failed r) +:+ " 个文件")]
                 else []))
          = Spec.warnings t
            ++ map Spec.skip_warning (errors r)
            ++ (if 0 <? failed r
                then ["失败 " +:+ num_toString (failed r) +:+ " 个文件"]
                else [])) as Hall.
  { unfold Spec.warnings in *. rewrite !TraceFacts.pick_app, Hw, !TraceFacts.pick_app.
    simpl. rewrite !app_nil_r, <- app_assoc.
    destruct (0 <? failed r); reflexivity. }
  split; [exact Hall |].
  intros Hnone. rewrite Hall, Hf, Hnone. simpl. now rewrite app_nil_r.
Qed.

Lemma uploadDirectory_warns_per_failure_witness :
  Spec.warnings (fst (ApiClient.uploadDirectory Examples.host_500 "secret" "site-1"
                        "https://api.example.com" "/work/dist" []))
  = [ "跳过文件 css/style.css: Request failed with status code 500";
      "失败 1 个文件" ].
Proof.
  destruct (uploadDirectory_warns_per_failure Examples.host_500 "secret" "site-1"
              "https://api.example.com" "/work/dist" []
              [EvInfo "开始上传目录: /work/dist"] Examples.site_files)
    as (r & Hr & Hw & _).
  - reflexivity.
  - rewrite Hw. injection Hr as <-. reflexivity.
Defined.

(** ** How the walk composes *)

Module WalkOrderFacts.

Import ApiClient.

(** The loop over [a ++ c] is the loop over [a] followed by the loop over
    [c], started with what [a] has pushed. *)
Lemma for_items_app (each : Dirent -> M Trace (list FileRecord)) (a c : list Dirent) :
  forall files t,
    for_items each (a ++ c) files t
    = match for_items each a files t with
      | (t1, Returned pushed) => for_items each c pushed t1
      | (t1, Threw e) => (t1, Threw e)
      end.
Proof.
  induction a as [| x a IH]; intros files t; [reflexivity |].
  simpl. unfold bind. destruct (each x t) as [t1 [pushed | e]]; [apply IH | reflexivity].
Qed.

(** What is already in [files] stays in front. *)
Lemma for_items_prefix (each : Dirent -> M Trace (list FileRecord)) (items : list Dirent) :
  forall files t,
    for_items each items files t
    = match for_items each items [] t with
      | (t1, Returned pushed) => (t1, Returned (files ++ pushed))
      | (t1, Threw e) => (t1, Threw e)
      end.
Proof.
  induction items as [| x items IH]; intros files t; simpl.
  - now rewrite app_nil_r.
  - unfold bind. destruct (each x t) as [t1 [pushed | e]]; [| reflexivity].
    rewrite (IH (files ++ pushed)), (IH ([] ++ pushed)). simpl.
    destruct (for_items each items [] t1) as [t2 [rest | e]]; [| reflexivity].
    now rewrite app_assoc.
Qed.

Lemma getAllFiles_tree_app h dirPath basePath (a c : list Dirent) t t1 fa :
  getAllFiles_tree h dirPath basePath None a t = (t1, Returned fa) ->
  getAllFiles_tree h dirPath basePath None (a ++ c) t
  = match getAllFiles_tree h dirPath basePath None c t1 with
    | (t2, Returned fc) => (t2, Returned (fa ++ fc))
    | (t2, Threw e) => (t2, Threw e)
    end.
Proof.
  unfold getAllFiles_tree, getAllFiles_body, try_catch. intros Ha.
  rewrite for_items_app.
  destruct (for_items (getAllFiles_item h dirPath basePath) a [] t) as [ta [pa | ea]].
  - injection Ha as -> ->.
    rewrite for_items_prefix.
    destruct (for_items (getAllFiles_item h dirPath basePath) c [] t1) as [t2 [fc | e]];
      reflexivity.
  - unfold bind, throw, Core.error, Core.emit in Ha. discriminate.
Qed.

(** The records of [a ++ c] are those of [a] followed by those of [c]. *)
Lemma listing_in_app sep dirPath basePath (a c : list Dirent) :
  Spec.listing_in sep dirPath basePath (a ++ c)
  = Spec.listing_in sep dirPath basePath a ++ Spec.listing_in sep dirPath basePath c.
Proof. unfold Spec.listing_in. now rewrite map_app, concat_app. Qed.

Lemma listing_in_cons sep dirPath basePath (x : Dirent) (c : list Dirent) :
  Spec.listing_in sep dirPath basePath (x :: c)
  = Spec.listing sep dirPath basePath x ++ Spec.listing_in sep dirPath basePath c.
Proof. reflexivity. Qed.

(** The records of a directory of the tree lie side by side in the listing. *)
Lemma listing_in_dir sep basePath items dirs entries :
  Spec.dir_at items dirs entries ->
  forall dirPath,
    exists pre post,
      Spec.listing_in sep dirPath basePath items
      = pre ++ Spec.listing_in sep (Spec.path_of sep dirPath dirs) basePath entries ++ post.
Proof.
  induction 1 as [items | items nm unreadable sub route entries Hin Hsub IH];
    intros dirPath.
  - exists [], []. simpl. now rewrite app_nil_r.
  - apply in_split in Hin as (i1 & i2 & ->).
    destruct (IH (Path.join sep dirPath nm)) as (pre & post & E).
    exists (Spec.listing_in sep dirPath basePath i1 ++ pre),
           (post ++ Spec.listing_in sep dirPath basePath i2).
    rewrite listing_in_app, listing_in_cons.
    change (Spec.listing sep dirPath basePath (DDir nm unreadable sub))
      with (Spec.listing_in sep (Path.join sep dirPath nm) basePath sub).
    rewrite E. change (Spec.path_of sep dirPath (nm :: route))
      with (Spec.path_of sep (Path.join sep dirPath nm) route).
    now rewrite <- !app_assoc.
Qed.

Lemma record_of_app sep basePath (dirs route : list string) sz :
  route <> [] ->
  forall dirPath,
    Spec.record_of sep dirPath basePath (dirs ++ route) sz
    = Spec.record_of sep (Spec.path_of sep dirPath dirs) basePath route sz.
Proof.
  intros Hne. induction dirs as [| d dirs IH]; intros dirPath; [reflexivity |].
  simpl app. rewrite ListingFacts.record_of_below by (destruct dirs; [exact Hne | discriminate]).
  apply IH.
Qed.

Lemma in_listing sep dirPath basePath (x : Dirent) route sz :
  Spec.file_at [x] route sz ->
  In (Spec.record_of sep dirPath basePath route sz) (Spec.listing sep dirPath basePath x).
Proof.
  intros Hat.
  pose proof (ListingFacts.listing_in_complete sep basePath [x] route sz Hat dirPath) as Hin.
  rewrite listing_in_cons in Hin. unfold Spec.listing_in in Hin. simpl in Hin.
  now rewrite app_nil_r in Hin.
Qed.

(** Entry order is record order. *)
Lemma listing_in_order sep dirPath basePath before x between y after r1 sz1 r2 sz2 :
  Spec.file_at [x] r1 sz1 -> Spec.file_at [y] r2 sz2 ->
  exists l1 l2 l3,
    Spec.listing_in sep dirPath basePath (before ++ x :: between ++ y :: after)
    = l1 ++ Spec.record_of sep dirPath basePath r1 sz1
         :: l2 ++ Spec.record_of sep dirPath basePath r2 sz2 :: l3.
Proof.
  intros H1 H2.
  apply (in_listing sep dirPath basePath) in H1, H2.
  apply in_split in H1 as (a1 & a2 & E1). apply in_split in H2 as (b1 & b2 & E2).
  exists (Spec.listing_in sep dirPath basePath before ++ a1),
         (a2 ++ Spec.listing_in sep dirPath basePath between ++ b1),
         (b2 ++ Spec.listing_in sep dirPath basePath after).
  rewrite listing_in_app, listing_in_cons, listing_in_app, listing_in_cons, E1, E2.
  repeat (rewrite <- app_assoc; simpl). reflexivity.
Qed.

End WalkOrderFacts.

(** X6. Entries that are neither a regular file nor a directory (symbolic
    links, sockets, ...) do not exist for [getAllFiles]: with or without such
    an entry in a directory, the walk behaves the same, returns the same
    records and leaves the same trace. *)
Theorem getAllFiles_skips_other_entries (h : Host) (dirPath basePath : string)
    (unreadable : option JsError) (before after : list Dirent) (nm : string) (t : Trace) :
  ApiClient.getAllFiles_tree h dirPath basePath unreadable (before ++ DOther nm :: after) t
  = ApiClient.getAllFiles_tree h dirPath basePath unreadable (before ++ after) t.
Proof.
  unfold ApiClient.getAllFiles_tree, ApiClient.getAllFiles_body, try_catch.
  destruct unreadable as [e |]; [reflexivity |].
  rewrite !WalkOrderFacts.for_items_app.
  destruct (ApiClient.for_items (ApiClient.getAllFiles_item h dirPath basePath) before [] t)
    as [t1 [pushed | e]]; [| reflexivity].
  simpl. unfold bind, ret. now rewrite app_nil_r.
Qed.

(** X7. The order of the records: the walk is depth first and follows the
    order of the directory entries.  In a walk that starts at a normalized
    path and returns, whenever one entry is listed before another in a
    directory of the tree, at any depth, every file at or below the first has
    its record before the record of every file at or below the second. *)
Theorem getAllFiles_walk_order (h : Host) (dirPath nm : string)
    (unreadable : option JsError) (items : list Dirent) (t t' : Trace)
    (files : list FileRecord) :
  fs_lookup h dirPath = Some (DDir nm unreadable items) ->
  Path.normalized (path_sep h) dirPath = true ->
  ApiClient.getAllFiles h dirPath None t = (t', Returned files) ->
  forall dirs entries before x between y after r1 sz1 r2 sz2,
    Spec.dir_at items dirs entries ->
    entries = before ++ x :: between ++ y :: after ->
    Spec.file_at [x] r1 sz1 ->
    Spec.file_at [y] r2 sz2 ->
    exists l1 l2 l3,
      files = l1 ++ Spec.record_of (path_sep h) dirPath dirPath (dirs ++ r1) sz1
                 :: l2 ++ Spec.record_of (path_sep h) dirPath dirPath (dirs ++ r2) sz2
                 :: l3.
Proof.
  intros Hdir _ Hwalk dirs entries before x between y after r1 sz1 r2 sz2 Hat -> H1 H2.
  rewrite (ListingFacts.getAllFiles_lookup h dirPath None nm unreadable items t Hdir)
    in Hwalk.
  pose proof (ListingFacts.getAllFiles_tree_outcome h dirPath (default dirPath None)
                unreadable items t) as Hout.
  destruct (Spec.first_failure_in unreadable items) as [e |].
  { destruct Hout as [t1 Hout]. rewrite Hout in Hwalk. discriminate. }
  rewrite Hout in Hwalk. injection Hwalk as _ <-. simpl default.
  destruct (WalkOrderFacts.listing_in_dir (path_sep h) dirPath _ _ _ Hat dirPath)
    as (pre & post & ->).
  destruct (WalkOrderFacts.listing_in_order (path_sep h)
              (Spec.path_of (path_sep h) dirPath dirs) dirPath
              before x between y after r1 sz1 r2 sz2 H1 H2) as (l1 & l2 & l3 & ->).
  rewrite !WalkOrderFacts.record_of_app
    by (eapply ListingFacts.file_at_route; eassumption).
  exists (pre ++ l1), l2, (l3 ++ post).
  repeat (rewrite <- app_assoc; simpl). reflexivity.
Qed.

Lemma getAllFiles_walk_order_witness :
  exists l1 l2 l3,
    [ mkFile "/work/dist/css/style.css" "css/style.css" "style.css" 20;
      mkFile "/work/dist/index.html" "index.html" "index.html" 10 ]
    = l1 ++ mkFile "/work/dist/css/style.css" "css/style.css" "style.css" 20
         :: l2 ++ mkFile "/work/dist/index.html" "index.html" "index.html" 10 :: l3.
Proof.
  apply (getAllFiles_walk_order Examples.host_by_name "/work/dist" "dist" None
           [ DDir "css" None [ DFile "style.css" (Returned 20) ];
             DFile "index.html" (Returned 10) ] [] []
           [ mkFile "/work/dist/css/style.css" "css/style.css" "style.css" 20;
             mkFile "/work/dist/index.html" "index.html" "index.html" 10 ]
           eq_refl eq_refl eq_refl
           [] [ DDir "css" None [ DFile "style.css" (Returned 20) ];
                DFile "index.html" (Returned 10) ]
           [] (DDir "css" None [ DFile "style.css" (Returned 20) ]) []
           (DFile "index.html" (Returned 10)) []
           ["css"; "style.css"] 20 ["index.html"] 10).
  - apply Spec.dir_here.
  - reflexivity.
  - apply Spec.file_below with (unreadable := None)
                               (sub := [DFile "style.css" (Returned 20)]).
    + left. reflexivity.
    + apply Spec.file_here. left. reflexivity.
  - apply Spec.file_here. left. reflexivity.
Defined.

(** ** The orchestrator, further *)

Module OrchestratorFacts.

Import Uploader UploaderFacts.

(** What [create] does to the instance. *)
Lemma create_keeps h u t :
  match create h (u, t) with
  | ((u', _), o) =>
      apiToken u' = apiToken u /\ siteId u' = siteId u /\ apiBaseUrl u' = apiBaseUrl u
      /\ sourceDir u' = sourceDir u /\ maxRetries u' = maxRetries u
      /\ repositoryNwo u' = repositoryNwo u /\ buildVersion u' = buildVersion u
      /\ buildActor u' = buildActor u /\ workflowRun u' = workflowRun u
      /\ timeout u' = Z.min (timeout u) MAX_TIMEOUT
      /\ match o with
         | Returned info =>
             uploadInfo u' = Some info
             /\ startTime u' = Some (Upload.startTime info)
             /\ cancelled info = false
             /\ (forall v, buildVersion u = Some v -> v <> "" -> id info = v)
         | Threw _ => uploadInfo u' = uploadInfo u
         end
  end.
Proof.
  unfold create, validateConfig. run_method.
  split_cases;
    repeat match goal with
           | H : (_, _) = (_, _) |- _ => injection H as ? ?; subst
           | H : (_ <? _) = true |- _ => apply Z.ltb_lt in H
           | H : (_ <? _) = false |- _ => apply Z.ltb_ge in H
           end; simpl; unfold MAX_TIMEOUT in *;
    repeat split; try reflexivity; try lia; try congruence.
  all: intros v Hv Hne; rewrite Hv in *; simpl in *; try reflexivity;
    try (destruct (String.eqb_spec v ""); [contradiction | discriminate]).
Qed.

Ltac run_create :=
  unfold create, validateConfig; run_method.

(** [create] with a configuration or a source directory that does not pass:
    the error, and no request. *)
Lemma create_local_failures h u t :
  let r := create h (u, t) in
  let resolved := path_resolve h (sourceDir u) in
  (apiToken u = "" ->
   snd r = Threw (new_Error "API Token未配置，请设置api_token参数或API_TOKEN环境变量")
   /\ Spec.remote (snd (fst r)) = Spec.remote t)
  /\ (apiToken u <> "" -> siteId u = "" ->
      snd r = Threw (new_Error "网站ID未配置，请设置site_id参数或SITE_ID环境变量")
      /\ Spec.remote (snd (fst r)) = Spec.remote t)
  /\ (apiToken u <> "" -> siteId u <> "" -> apiBaseUrl u = "" ->
      snd r = Threw (new_Error
                       "API基础URL未配置，请设置api_base_url参数或API_BASE_URL环境变量")
      /\ Spec.remote (snd (fst r)) = Spec.remote t)
  /\ (apiToken u <> "" -> siteId u <> "" -> apiBaseUrl u <> "" ->
      fs_lookup h resolved = None ->
      snd r = Threw (new_Error ("源目录不存在: " +:+ resolved))
      /\ Spec.remote (snd (fst r)) = Spec.remote t)
  /\ (forall node,
        apiToken u <> "" -> siteId u <> "" -> apiBaseUrl u <> "" ->
        fs_lookup h resolved = Some node -> is_directory node = false ->
        snd r = Threw (new_Error ("源路径不是目录: " +:+ resolved))
        /\ Spec.remote (snd (fst r)) = Spec.remote t).
Proof.
  cbv zeta. repeat split.
  all: intros;
    repeat match goal with
           | H : _ <> "" |- _ => apply String.eqb_neq in H
           end;
    run_create;
    destruct (MAX_TIMEOUT <? timeout u); simpl;
    repeat match goal with
           | H : _ = _ |- _ => rewrite H; simpl
           end;
    first [reflexivity | pick_simpl; reflexivity].
Qed.

(** A remote that answers every GET with the error [e]. *)
Lemma create_probe_fails h u t e node :
  apiToken u <> "" -> siteId u <> "" -> apiBaseUrl u <> "" ->
  fs_lookup h (path_resolve h (sourceDir u)) = Some node -> is_directory node = true ->
  (forall tr url tok p, axios_get h tr url tok p = Threw e) ->
  let r := create h (u, t) in
  snd r
  = Threw (match response e with
           | Some code =>
               if code =? 401 then new_Error "API Token无效或已过期"
               else if code =? 403
               then new_Error "API Token权限不足，需要website_hosting权限"
               else if code =? 404 then new_Error ("网站ID不存在: " +:+ siteId u)
               else new_Error (http_error_message u e code)
           | None => e
           end)
  /\ Spec.gets (snd (fst r))
     = Spec.gets t ++ [(apiBaseUrl u +:+ "/sites/" +:+ siteId u +:+ "/files",
                        apiToken u, Some "")]
  /\ Spec.posts (snd (fst r)) = Spec.posts t
  /\ Spec.upload_calls (snd (fst r)) = Spec.upload_calls t.
Proof.
  intros H1 H2 H3 Hdir Hnode Hget.
  apply String.eqb_neq in H1, H2, H3.
  cbv zeta. run_create.
  unfold ApiClient.validateApiAccess, ApiClient.listFiles, ApiClient.axios_get_call.
  run_method.
  destruct (MAX_TIMEOUT <? timeout u); simpl;
    rewrite H1, H2, H3, Hdir, Hnode; simpl; rewrite Hget; simpl;
    (destruct (response e) as [code |] eqn:Hresp;
     [ destruct (code =? 401); [| destruct (code =? 403); [| destruct (code =? 404)]]
     | ]);
    simpl; rewrite ?Hresp; simpl;
    (split; [reflexivity |]);
    pick_simpl; rewrite ?LoopFacts.upload_calls_app; simpl; rewrite ?app_nil_r;
    repeat split; reflexivity.
Qed.

Lemma warn_each_trace (errs : list ErrorEntry) (t : Trace) :
  warn_each errs t
  = (t ++ map (fun e => EvWarning ("  - " +:+ file e +:+ ": " +:+ error e)) errs,
     Returned tt).
Proof.
  revert t. induction errs as [| e errs IH]; intros t; simpl.
  - now rewrite app_nil_r.
  - unfold bind, Core.warning, Core.emit. rewrite IH, <- app_assoc. reflexivity.
Qed.

Lemma pick_warning_list {A B} (f : Event -> option A) (g : B -> string) (l : list B) :
  (forall msg, f (EvWarning msg) = None) ->
  Spec.pick f (map (fun e => EvWarning (g e)) l) = [].
Proof.
  intros Hf. induction l as [| e l IH]; [reflexivity |].
  simpl. now rewrite Hf.
Qed.

(** What [check] reports through [setFailed] and [setOutput]. *)
Lemma check_observed h u t :
  let r := check h (u, t) in
  snd r = Returned tt
  /\ fst (fst r) = u
  /\ Spec.set_failed (snd (fst r))
     = Spec.set_failed t
       ++ match uploadInfo u with
          | None => ["上传未开始或上传信息丢失"]
          | Some _ =>
              match status u with
              | uploadStatus.failed => ["文件上传失败"]
              | uploadStatus.cancelled => ["文件上传已取消"]
              | _ => []
              end
          end
  /\ Spec.outputs (snd (fst r))
     = Spec.outputs t
       ++ match uploadInfo u with
          | None => []
          | Some info =>
              match status u with
              | uploadStatus.success =>
                  [ ("status", "success");
                    ("upload_result", json_of_info h info);
                    ("total_files", num_toString (total (result info)));
                    ("success_files", num_toString (success (result info)));
                    ("failed_files", num_toString (failed (result info))) ]
              | uploadStatus.failed => [ ("status", "failed") ]
              | uploadStatus.cancelled => [ ("status", "cancelled") ]
              | other => [ ("status", status_text other) ]
              end
              ++ match startTime u with
                 | Some started =>
                     if negb (started =? 0) && negb (endTime info =? 0)
                     then [ ("duration", num_toString (endTime info - started)) ]
                     else []
                 | None => []
                 end
          end.
Proof.
  cbv zeta. unfold check. run_method.
  destruct (uploadInfo u) as [info |]; simpl.
  2: { pick_simpl. repeat split; reflexivity. }
  destruct (status u); simpl;
    try destruct (0 <? failed (result info)); simpl;
    try destruct (0 <? length (errors (result info)))%nat; simpl;
    rewrite ?warn_each_trace; simpl;
    (destruct (startTime u) as [started |];
     [destruct (negb (started =? 0) && negb (endTime info =? 0)) |]); simpl;
    unfold Spec.set_failed, Spec.outputs;
    repeat rewrite TraceFacts.pick_app;
    rewrite ?(pick_warning_list Spec.as_failure) by reflexivity;
    rewrite ?(pick_warning_list Spec.as_output) by reflexivity;
    simpl; rewrite ?app_nil_r, <- ?app_assoc; simpl;
    repeat split; reflexivity.
Qed.

Lemma or_else_nonempty (a b : string) : b <> "" -> Context.or_else a b <> "".
Proof.
  intros Hb. unfold Context.or_else. destruct (String.eqb_spec a ""); assumption.
Qed.

(** What a successful [new FileUploader()] has read and built. *)
Lemma constructor_returns h t t' u :
  constructor h t = (t', Returned u) ->
  t' = t ++ [EvDebug "all variables are set"]
  /\ exists token site run repo sha,
       process_env h !! "INPUT_API_TOKEN" = Some token /\ token <> ""
       /\ process_env h !! "INPUT_SITE_ID" = Some site /\ site <> ""
       /\ process_env h !! "GITHUB_RUN_ID" = Some run
       /\ process_env h !! "GITHUB_REPOSITORY" = Some repo
       /\ process_env h !! "GITHUB_SHA" = Some sha
       /\ u = {| apiToken := JsString.trim token;
                 siteId := JsString.trim site;
                 apiBaseUrl := Context.apiBaseUrl (Spec.vars_of h token site);
                 sourceDir := Context.sourceDir (Spec.vars_of h token site);
                 timeout := 600000;
                 maxRetries := 3;
                 repositoryNwo := Some repo;
                 buildVersion := Some sha;
                 buildActor := None;
                 workflowRun := Some run;
                 uploadInfo := None;
                 startTime := None;
                 status := uploadStatus.pending |}.
Proof.
  unfold constructor, Context.getContext, Context.getRequiredVars, Context.getInput.
  change (Context.input_variable "api_token") with "INPUT_API_TOKEN".
  change (Context.input_variable "site_id") with "INPUT_SITE_ID".
  change (Context.input_variable "api_base_url") with "INPUT_API_BASE_URL".
  change (Context.input_variable "source_dir") with "INPUT_SOURCE_DIR".
  unfold bind, ret, throw, Core.debug, Core.emit. simpl.
  destruct (process_env h !! "INPUT_API_TOKEN") as [token |] eqn:Htoken; simpl;
    [| discriminate].
  destruct (String.eqb_spec token ""); [discriminate |].
  destruct (process_env h !! "INPUT_SITE_ID") as [site |] eqn:Hsite; simpl;
    [| discriminate].
  destruct (String.eqb_spec site ""); [discriminate |].
  destruct (process_env h !! "GITHUB_RUN_ID") as [run |] eqn:Hrun; simpl;
    [| discriminate].
  destruct (process_env h !! "GITHUB_REPOSITORY") as [repo |] eqn:Hrepo; simpl;
    [| discriminate].
  destruct (process_env h !! "GITHUB_SHA") as [sha |] eqn:Hsha; simpl;
    [| discriminate].
  intros E. injection E as <- <-. split; [reflexivity |].
  exists token, site, run, repo, sha. unfold Spec.vars_of. simpl.
  repeat split; try assumption; reflexivity.
Qed.

(** [new FileUploader()] when the loader finds everything. *)
Lemma constructor_builds h t token site run repo sha :
  process_env h !! "INPUT_API_TOKEN" = Some token -> token <> "" ->
  process_env h !! "INPUT_SITE_ID" = Some site -> site <> "" ->
  process_env h !! "GITHUB_RUN_ID" = Some run ->
  process_env h !! "GITHUB_REPOSITORY" = Some repo ->
  process_env h !! "GITHUB_SHA" = Some sha ->
  constructor h t
  = (t ++ [EvDebug "all variables are set"],
     Returned {| apiToken := JsString.trim token;
                 siteId := JsString.trim site;
                 apiBaseUrl := Context.apiBaseUrl (Spec.vars_of h token site);
                 sourceDir := Context.sourceDir (Spec.vars_of h token site);
                 timeout := 600000;
                 maxRetries := 3;
                 repositoryNwo := Some repo;
                 buildVersion := Some sha;
                 buildActor := None;
                 workflowRun := Some run;
                 uploadInfo := None;
                 startTime := None;
                 status := uploadStatus.pending |}).
Proof.
  intros Ht Htne Hs Hsne Hrun Hrepo Hsha.
  pose proof (ContextFacts.getRequiredVars_present h token site t Ht Htne Hs Hsne) as Hv.
  pose proof (ContextFacts.getContext_after h _ t Hv) as Hc.
  rewrite ContextFacts.check_defined_all in Hc.
  - unfold constructor. rewrite (bind_returned _ _ _ _ _ Hc).
    unfold ret, Spec.vars_of. simpl. rewrite Hrun, Hrepo, Hsha. reflexivity.
  - unfold Context.entries, Spec.vars_of. simpl. rewrite Hrun, Hrepo, Hsha.
    repeat constructor; simpl; discriminate.
Qed.

End OrchestratorFacts.

(** X8. [create] stops before any request when the set-up does not pass:
    an empty [apiToken], [siteId] or [apiBaseUrl] (checked in this order,
    each with a message of its own), a source directory that does not exist,
    or a source path that is no directory.  The error is thrown as it is and
    neither a GET, a POST nor an [uploadFile] call has been made. *)
Theorem create_rejects_bad_setup (h : Host) (u : Uploader.FileUploader) (t : Trace) :
  let r := Uploader.create h (u, t) in
  let resolved := path_resolve h (Uploader.sourceDir u) in
  (Uploader.apiToken u = "" ->
   snd r = Threw (new_Error "API Token未配置，请设置api_token参数或API_TOKEN环境变量")
   /\ Spec.remote (snd (fst r)) = Spec.remote t)
  /\ (Uploader.apiToken u <> "" -> Uploader.siteId u = "" ->
      snd r = Threw (new_Error "网站ID未配置，请设置site_id参数或SITE_ID环境变量")
      /\ Spec.remote (snd (fst r)) = Spec.remote t)
  /\ (Uploader.apiToken u <> "" -> Uploader.siteId u <> "" ->
      Uploader.apiBaseUrl u = "" ->
      snd r = Threw (new_Error
                       "API基础URL未配置，请设置api_base_url参数或API_BASE_URL环境变量")
      /\ Spec.remote (snd (fst r)) = Spec.remote t)
  /\ (Uploader.apiToken u <> "" -> Uploader.siteId u <> "" ->
      Uploader.apiBaseUrl u <> "" ->
      fs_lookup h resolved = None ->
      snd r = Threw (new_Error ("源目录不存在: " +:+ resolved))
      /\ Spec.remote (snd (fst r)) = Spec.remote t)
  /\ (forall node,
        Uploader.apiToken u <> "" -> Uploader.siteId u <> "" ->
        Uploader.apiBaseUrl u <> "" ->
        fs_lookup h resolved = Some node -> Uploader.is_directory node = false ->
        snd r = Threw (new_Error ("源路径不是目录: " +:+ resolved))
        /\ Spec.remote (snd (fst r)) = Spec.remote t).
Proof. exact (OrchestratorFacts.create_local_failures h u t). Qed.

Lemma create_rejects_bad_setup_witness :
  snd (Uploader.create Examples.host_no_dir (Examples.fresh_uploader, []))
  = Threw (new_Error "源目录不存在: /work/dist")
  /\ Spec.remote
       (snd (fst (Uploader.create Examples.host_no_dir (Examples.fresh_uploader, []))))
     = [].
Proof.
  destruct (create_rejects_bad_setup Examples.host_no_dir Examples.fresh_uploader [])
    as (_ & _ & _ & H & _).
  apply H; try discriminate. reflexivity.
Defined.

(** X9. When the access probe fails, [create] uploads nothing: exactly one
    GET has been sent (to [{base}/sites/{siteId}/files], with the token and
    the empty path), no POST and no [uploadFile] call.  For the statuses 401,
    403 and 404 the error that leaves [create] is the one [validateApiAccess]
    made, unchanged (it carries no response, so the status-specific text of
    [create] is not used for them); for any other status it is a new error
    with the text [create] builds for that status; a failure without response
    is thrown as it is. *)
Theorem create_stops_at_failed_probe (h : Host) (u : Uploader.FileUploader) (t : Trace)
    (e : JsError) (node : Dirent) :
  Uploader.apiToken u <> "" -> Uploader.siteId u <> "" -> Uploader.apiBaseUrl u <> "" ->
  fs_lookup h (path_resolve h (Uploader.sourceDir u)) = Some node ->
  Uploader.is_directory node = true ->
  (forall tr url tok p, axios_get h tr url tok p = Threw e) ->
  let r := Uploader.create h (u, t) in
  snd r
  = Threw (match response e with
           | Some code =>
               if code =? 401 then new_Error "API Token无效或已过期"
               else if code =? 403
               then new_Error "API Token权限不足，需要website_hosting权限"
               else if code =? 404
               then new_Error ("网站ID不存在: " +:+ Uploader.siteId u)
               else new_Error (Uploader.http_error_message u e code)
           | None => e
           end)
  /\ Spec.gets (snd (fst r))
     = Spec.gets t ++ [(Uploader.apiBaseUrl u +:+ "/sites/" +:+ Uploader.siteId u
                        +:+ "/files", Uploader.apiToken u, Some "")]
  /\ Spec.posts (snd (fst r)) = Spec.posts t
  /\ Spec.upload_calls (snd (fst r)) = Spec.upload_calls t.
Proof. exact (OrchestratorFacts.create_probe_fails h u t e node). Qed.

Lemma create_stops_at_failed_probe_witness :
  snd (Uploader.create Examples.host_unauthorized (Examples.fresh_uploader, []))
  = Threw (new_Error "API Token无效或已过期")
  /\ Spec.upload_calls
       (snd (fst (Uploader.create Examples.host_unauthorized
                    (Examples.fresh_uploader, [])))) = [].
Proof.
  destruct (create_stops_at_failed_probe Examples.host_unauthorized
              Examples.fresh_uploader [] Examples.unauthorized Examples.site)
    as (H1 & _ & _ & H4); try discriminate; try reflexivity.
  split; [exact H1 | exact H4].
Defined.

(** X10. What [create] does to the instance, however it ends: the
    configuration fields are left as they were and the timeout becomes the
    smaller of its old value and [MAX_TIMEOUT].  When [create] returns, the
    record it returns is the one stored in [uploadInfo], its start time is the
    instance's [startTime], it is not flagged cancelled, and its id is the
    build version when that is a non-empty string; when [create] throws,
    [uploadInfo] is what it was before. *)
Theorem create_frame (h : Host) (u : Uploader.FileUploader) (t : Trace) :
  match Uploader.create h (u, t) with
  | ((u', _), o) =>
      Uploader.apiToken u' = Uploader.apiToken u
      /\ Uploader.siteId u' = Uploader.siteId u
      /\ Uploader.apiBaseUrl u' = Uploader.apiBaseUrl u
      /\ Uploader.sourceDir u' = Uploader.sourceDir u
      /\ Uploader.maxRetries u' = Uploader.maxRetries u
      /\ Uploader.repositoryNwo u' = Uploader.repositoryNwo u
      /\ Uploader.buildVersion u' = Uploader.buildVersion u
      /\ Uploader.buildActor u' = Uploader.buildActor u
      /\ Uploader.workflowRun u' = Uploader.workflowRun u
      /\ Uploader.timeout u' = Z.min (Uploader.timeout u) Uploader.MAX_TIMEOUT
      /\ match o with
         | Returned info =>
             Uploader.uploadInfo u' = Some info
             /\ Uploader.startTime u' = Some (Upload.startTime info)
             /\ cancelled info = false
             /\ (forall v, Uploader.buildVersion u = Some v -> v <> "" -> id info = v)
         | Threw _ => Uploader.uploadInfo u' = Uploader.uploadInfo u
         end
  end.
Proof. exact (OrchestratorFacts.create_keeps h u t). Qed.

(** X11. After [create], [cancel] has nothing to do: whether [create]
    returned or threw, the status it leaves is [success] or [failed], so a
    following [cancel] changes neither the status nor the record and only
    logs that there is nothing to cancel. *)
Theorem cancel_after_create_does_nothing (h : Host) (u : Uploader.FileUploader)
    (t : Trace) :
  let after := fst (Uploader.create h (u, t)) in
  Uploader.cancel h after
  = ((fst after, snd after ++ [EvDebug "无需取消上传操作"]), Returned tt).
Proof.
  cbv zeta. pose proof (UploaderFacts.create_leaves h u t) as H.
  destruct (Uploader.create h (u, t)) as [[u' t'] [info | e]]; simpl fst; simpl snd.
  - destruct H as [_ Hs]. apply UploaderFacts.cancel_nothing_to_do. right.
    rewrite Hs. destruct (failed (result info) =? 0); reflexivity.
  - apply UploaderFacts.cancel_nothing_to_do. right. now rewrite H.
Qed.

(** X12. [check] only reports: it never throws and leaves the instance as
    it is.  It calls [setFailed] once when there is no upload record or the
    status is [failed] or [cancelled], and not at all otherwise.  Without a
    record it sets no output; with one it sets [status] ([success], [failed],
    [cancelled], or the status text for a pass that has not ended), then,
    only for [success], [upload_result] and the three file counts, and last
    the [duration] when both time stamps are non-zero. *)
Theorem check_reports (h : Host) (u : Uploader.FileUploader) (t : Trace) :
  let r := Uploader.check h (u, t) in
  snd r = Returned tt
  /\ fst (fst r) = u
  /\ Spec.set_failed (snd (fst r))
     = Spec.set_failed t
       ++ match Uploader.uploadInfo u with
          | None => ["上传未开始或上传信息丢失"]
          | Some _ =>
              match Uploader.status u with
              | Uploader.uploadStatus.failed => ["文件上传失败"]
              | Uploader.uploadStatus.cancelled => ["文件上传已取消"]
              | _ => []
              end
          end
  /\ Spec.outputs (snd (fst r))
     = Spec.outputs t
       ++ match Uploader.uploadInfo u with
          | None => []
          | Some info =>
              match Uploader.status u with
              | Uploader.uploadStatus.success =>
                  [ ("status", "success");
                    ("upload_result", json_of_info h info);
                    ("total_files", num_toString (total (result info)));
                    ("success_files", num_toString (success (result info)));
                    ("failed_files", num_toString (failed (result info))) ]
              | Uploader.uploadStatus.failed => [ ("status", "failed") ]
              | Uploader.uploadStatus.cancelled => [ ("status", "cancelled") ]
              | other => [ ("status", Uploader.status_text other) ]
              end
              ++ match Uploader.startTime u with
                 | Some started =>
                     if negb (started =? 0) && negb (endTime info =? 0)
                     then [ ("duration", num_toString (endTime info - started)) ]
                     else []
                 | None => []
                 end
          end.
Proof. exact (OrchestratorFacts.check_observed h u t). Qed.

(** X13. [create] followed by [check], as the entry point runs them.  When
    [create] returned a result without failure, [check] does not call
    [setFailed] and sets [status = success], the serialized record and the
    three file counts.  When [create] returned a result with failures,
    [check] calls [setFailed] and sets [status = failed] and no file count.
    When [create] threw on an instance that had no record, [check] calls
    [setFailed] and sets no output at all.  In the first two cases the
    duration is set when both time stamps of the record are non-zero. *)
Theorem check_after_create (h : Host) (u : Uploader.FileUploader) (t : Trace) :
  let c := Uploader.create h (u, t) in
  let k := Uploader.check h (fst c) in
  let duration_of info :=
    if negb (Upload.startTime info =? 0) && negb (endTime info =? 0)
    then [ ("duration", num_toString (endTime info - Upload.startTime info)) ]
    else [] in
  (forall info,
     snd c = Returned info -> failed (result info) = 0 ->
     Spec.set_failed (snd (fst k)) = Spec.set_failed (snd (fst c))
     /\ Spec.outputs (snd (fst k))
        = Spec.outputs (snd (fst c))
          ++ [ ("status", "success");
               ("upload_result", json_of_info h info);
               ("total_files", num_toString (total (result info)));
               ("success_files", num_toString (success (result info)));
               ("failed_files", "0") ]
          ++ duration_of info)
  /\ (forall info,
        snd c = Returned info -> failed (result info) <> 0 ->
        Spec.set_failed (snd (fst k)) = Spec.set_failed (snd (fst c)) ++ ["文件上传失败"]
        /\ Spec.outputs (snd (fst k))
           = Spec.outputs (snd (fst c)) ++ [ ("status", "failed") ] ++ duration_of info)
  /\ (forall e,
        snd c = Threw e -> Uploader.uploadInfo u = None ->
        Spec.set_failed (snd (fst k))
        = Spec.set_failed (snd (fst c)) ++ ["上传未开始或上传信息丢失"]
        /\ Spec.outputs (snd (fst k)) = Spec.outputs (snd (fst c))).
Proof.
  cbv zeta.
  pose proof (UploaderFacts.create_leaves h u t) as Hleave.
  pose proof (OrchestratorFacts.create_keeps h u t) as Hframe.
  destruct (Uploader.create h (u, t)) as [[u' t'] o]. simpl fst in *. simpl snd in *.
  destruct (OrchestratorFacts.check_observed h u' t') as (_ & _ & Hf & Ho).
  cbv zeta in Hf, Ho.
  destruct Hframe as (_ & _ & _ & _ & _ & _ & _ & _ & _ & _ & Hrec).
  split; [| split].
  - intros info -> Hzero. destruct Hleave as [Hinfo Hstatus].
    destruct Hrec as (_ & Hstart & _).
    rewrite Hzero in Hstatus. simpl in Hstatus.
    rewrite Hinfo, Hstatus in Hf, Ho. rewrite Hstart, Hzero in Ho.
    rewrite Hf, Ho, app_nil_r. split; reflexivity.
  - intros info -> Hnz. destruct Hleave as [Hinfo Hstatus].
    destruct Hrec as (_ & Hstart & _).
    destruct (Z.eqb_spec (failed (result info)) 0) as [Hz | _]; [contradiction |].
    rewrite Hinfo, Hstatus in Hf, Ho. rewrite Hstart in Ho.
    rewrite Hf, Ho. split; reflexivity.
  - intros e -> Hnone. rewrite Hrec, Hnone in Hf, Ho.
    rewrite Hf, Ho, app_nil_r. split; reflexivity.
Qed.

Lemma check_after_create_witness :
  Spec.set_failed
    (snd (fst (Uploader.check Examples.host_no_dir
                 (fst (Uploader.create Examples.host_no_dir
                         (Examples.fresh_uploader, []))))))
  = ["上传未开始或上传信息丢失"]
  /\ Spec.outputs
       (snd (fst (Uploader.check Examples.host_no_dir
                    (fst (Uploader.create Examples.host_no_dir
                            (Examples.fresh_uploader, [])))))) = [].
Proof.
  destruct (check_after_create Examples.host_no_dir Examples.fresh_uploader [])
    as (_ & _ & H).
  destruct (H (new_Error "源目录不存在: /work/dist")) as (H1 & H2).
  - reflexivity.
  - reflexivity.
  - split; [exact H1 | exact H2].
Defined.

(** X14. What [new FileUploader()] guarantees when it does not throw: the
    instance is [pending], has neither upload record nor start time, its
    timeout is [MAX_TIMEOUT] (so [create] never has to clamp it) and
    [maxRetries] is 3; [apiBaseUrl] and [sourceDir] are never empty (an input
    that is missing or blank is replaced by its default); the three values read
    from the environment are defined and [buildActor] is not; and the loader
    has logged its one debug line. *)
Theorem constructor_postcondition (h : Host) (t t' : Trace) (u : Uploader.FileUploader) :
  Uploader.constructor h t = (t', Returned u) ->
  t' = t ++ [EvDebug "all variables are set"]
  /\ Uploader.status u = Uploader.uploadStatus.pending
  /\ Uploader.uploadInfo u = None
  /\ Uploader.startTime u = None
  /\ Uploader.timeout u = Uploader.MAX_TIMEOUT
  /\ Uploader.maxRetries u = 3
  /\ Uploader.apiBaseUrl u <> ""
  /\ Uploader.sourceDir u <> ""
  /\ Uploader.workflowRun u = process_env h !! "GITHUB_RUN_ID"
  /\ Uploader.repositoryNwo u = process_env h !! "GITHUB_REPOSITORY"
  /\ Uploader.buildVersion u = process_env h !! "GITHUB_SHA"
  /\ Uploader.workflowRun u <> None
  /\ Uploader.repositoryNwo u <> None
  /\ Uploader.buildVersion u <> None
  /\ Uploader.buildActor u = None.
Proof.
  intros Hnew.
  destruct (OrchestratorFacts.constructor_returns h t t' u Hnew)
    as (-> & token & site & run & repo & sha & _ & _ & _ & _ & Hrun & Hrepo & Hsha & ->).
  simpl. rewrite Hrun, Hrepo, Hsha.
  repeat split; try reflexivity; try discriminate.
  - apply OrchestratorFacts.or_else_nonempty. discriminate.
  - apply OrchestratorFacts.or_else_nonempty. discriminate.
Qed.

Lemma constructor_postcondition_witness :
  Uploader.status Examples.fresh_uploader = Uploader.uploadStatus.pending
  /\ Uploader.timeout Examples.fresh_uploader = Uploader.MAX_TIMEOUT
  /\ Uploader.apiBaseUrl Examples.fresh_uploader <> "".
Proof.
  destruct (constructor_postcondition (Examples.host_ok Examples.env_full) []
              [EvDebug "all variables are set"] Examples.fresh_uploader)
    as (_ & H1 & _ & _ & H2 & _ & H3 & _).
  - vm_compute. reflexivity.
  - split; [exact H1 |]. split; [exact H2 | exact H3].
Defined.

(** X15. A required input made of white space only gets past the loader:
    [core.getInput] tests the raw value and returns the trimmed one, so
    [new FileUploader()] succeeds with an empty [apiToken]; the error only
    comes from [create], whose configuration check throws before any request
    is made. *)
Theorem blank_token_is_caught_by_create (h : Host) (t : Trace)
    (token site run repo sha : string) :
  process_env h !! "INPUT_API_TOKEN" = Some token -> token <> "" ->
  JsString.trim token = "" ->
  process_env h !! "INPUT_SITE_ID" = Some site -> site <> "" ->
  process_env h !! "GITHUB_RUN_ID" = Some run ->
  process_env h !! "GITHUB_REPOSITORY" = Some repo ->
  process_env h !! "GITHUB_SHA" = Some sha ->
  exists u,
    Uploader.constructor h t = (t ++ [EvDebug "all variables are set"], Returned u)
    /\ Uploader.apiToken u = ""
    /\ snd (Uploader.create h (u, t ++ [EvDebug "all variables are set"]))
       = Threw (new_Error "API Token未配置，请设置api_token参数或API_TOKEN环境变量")
    /\ Spec.remote (snd (fst (Uploader.create h
                                (u, t ++ [EvDebug "all variables are set"]))))
       = Spec.remote t.
Proof.
  intros Ht Htne Hblank Hs Hsne Hrun Hrepo Hsha.
  eexists. split.
  { exact (OrchestratorFacts.constructor_builds h t token site run repo sha
             Ht Htne Hs Hsne Hrun Hrepo Hsha). }
  split; [exact Hblank |].
  match goal with
  | |- context [Uploader.create h (?u0, ?t0)] =>
      destruct (OrchestratorFacts.create_local_failures h u0 t0) as (H & _)
  end.
  cbv zeta in H. destruct (H Hblank) as (H1 & H2).
  split; [exact H1 |]. etransitivity; [exact H2 |]. pick_simpl. reflexivity.
Qed.

Lemma blank_token_is_caught_by_create_witness :
  exists u,
    Uploader.constructor (Examples.host_ok Examples.env_blank_token) []
    = ([EvDebug "all variables are set"], Returned u)
    /\ Uploader.apiToken u = ""
    /\ snd (Uploader.create (Examples.host_ok Examples.env_blank_token)
              (u, [EvDebug "all variables are set"]))
       = Threw (new_Error "API Token未配置，请设置api_token参数或API_TOKEN环境变量").
Proof.
  destruct (blank_token_is_caught_by_create (Examples.host_ok Examples.env_blank_token)
              [] "  " "site-1" "123456" "owner/repo" "abc123")
    as (u & H1 & H2 & H3 & _); try reflexivity; try discriminate.
  exists u. split; [exact H1 |]. split; [exact H2 | exact H3].
Defined.

(** X16. Once a pass is marked cancelled it stays so: on an instance that
    has an upload record and a status that is neither [success] nor [failed],
    [cancel] sets [cancelled]; a second [cancel] keeps the status and the
    flag, leaves result, id and start time alone and only moves the end time
    to the newest reading of the clock; and [check] on the cancelled instance
    calls [setFailed] and sets [status = cancelled], without any file count. *)
Theorem cancel_is_repeatable (h : Host) (u : Uploader.FileUploader) (t : Trace)
    (info : UploadInfo) :
  Uploader.uploadInfo u = Some info ->
  Uploader.status u <> Uploader.uploadStatus.success ->
  Uploader.status u <> Uploader.uploadStatus.failed ->
  let once := fst (Uploader.cancel h (u, t)) in
  let twice := fst (Uploader.cancel h once) in
  let reported := fst (Uploader.check h once) in
  Uploader.status (fst once) = Uploader.uploadStatus.cancelled
  /\ Uploader.status (fst twice) = Uploader.uploadStatus.cancelled
  /\ Uploader.uploadInfo (fst twice)
     = Some {| result := result info; id := id info;
               Upload.startTime := Upload.startTime info;
               endTime := date_now h (snd once ++ [EvInfo "正在取消文件上传..."]);
               cancelled := true |}
  /\ Spec.set_failed (snd reported) = Spec.set_failed (snd once) ++ ["文件上传已取消"]
  /\ (exists timing,
        Spec.outputs (snd reported)
        = Spec.outputs (snd once) ++ ("status", "cancelled") :: timing
        /\ forall name value, In (name, value) timing -> name = "duration").
Proof.
  intros Hinfo Hs Hf.
  assert (Uploader.is_final (Uploader.status u) = false) as Hfinal
    by (destruct (Uploader.status u); reflexivity || contradiction).
  cbv zeta. rewrite (UploaderFacts.cancel_marks h u t info Hinfo Hfinal). simpl fst.
  match goal with
  | |- context [Uploader.check h (?u1, ?t1)] =>
      destruct (OrchestratorFacts.check_observed h u1 t1) as (_ & _ & Hsf & Hout)
  end.
  cbv zeta in Hsf, Hout. simpl in Hsf, Hout. simpl.
  split; [reflexivity |]. split; [reflexivity |]. split; [reflexivity |].
  split; [exact Hsf |].
  eexists. split; [exact Hout |].
  intros name value Hin.
  destruct (Uploader.startTime u) as [started |]; simpl in Hin; [| contradiction].
  match type of Hin with
  | In _ (if ?c then _ else _) => destruct c
  end; simpl in Hin; [| contradiction].
  destruct Hin as [Heq | []]. now injection Heq as <- _.
Qed.

Lemma cancel_is_repeatable_witness :
  Uploader.status
    (fst (fst (Uploader.cancel (Examples.host_ok Examples.env_full)
                 (Examples.interrupted_uploader, []))))
  = Uploader.uploadStatus.cancelled
  /\ Spec.set_failed
       (snd (fst (Uploader.check (Examples.host_ok Examples.env_full)
                    (fst (Uploader.cancel (Examples.host_ok Examples.env_full)
                            (Examples.interrupted_uploader, []))))))
     = ["文件上传已取消"].
Proof.
  destruct (cancel_is_repeatable (Examples.host_ok Examples.env_full)
              Examples.interrupted_uploader [] Examples.interrupted_info)
    as (H1 & _ & _ & H4 & _); try discriminate; try reflexivity.
  split; [exact H1 | exact H4].
Defined.

(** ** Reading from the remote, and the parent directory *)

Module ProbeTraceFacts.

Import ApiClient.

Lemma listFiles_run h apiToken siteId apiBaseUrl path t :
  let dirPath := default "" path in
  let url := apiBaseUrl +:+ "/sites/" +:+ siteId +:+ "/files" in
  let sent := t ++ [EvInfo ("正在获取目录文件列表: " +:+ or_root dirPath)] in
  listFiles h apiToken siteId apiBaseUrl path t
  = match axios_get h sent url apiToken (Some dirPath) with
    | Returned data => (sent ++ [EvGet url apiToken (Some dirPath)], Returned data)
    | Threw e =>
        ((sent ++ [EvGet url apiToken (Some dirPath)])
         ++ [EvError ("获取文件列表失败: " +:+ message e)], Threw e)
    end.
Proof.
  cbv zeta. unfold listFiles, try_catch, bind, axios_get_call, Core.info, Core.error,
    Core.emit, ret, throw. simpl.
  destruct (axios_get h _ _ _ _); reflexivity.
Qed.

Lemma getAllFiles_threw_last h dirPath basePathArg t t' e :
  getAllFiles h dirPath basePathArg t = (t', Threw e) ->
  exists before,
    t' = (t ++ before)
         ++ [EvError ("读取目录失败 " +:+ dirPath +:+ ": " +:+ message e)].
Proof.
  assert (forall unreadable items,
             getAllFiles_tree h dirPath (default dirPath basePathArg) unreadable items t
             = (t', Threw e) ->
             exists before,
               t' = (t ++ before)
                    ++ [EvError ("读取目录失败 " +:+ dirPath +:+ ": "
                                 +:+ message e)]) as Htree.
  { intros unreadable items.
    unfold getAllFiles_tree, getAllFiles_body, try_catch.
    destruct unreadable as [e0 |].
    - unfold throw, bind, Core.error, Core.emit. simpl.
      intros E. injection E as <- <-. exists []. now rewrite app_nil_r.
    - destruct (WalkTraceFacts.for_items_logs
                  (getAllFiles_item h dirPath (default dirPath basePathArg)) items)
        with (files := @nil FileRecord) (t := t) as (extra & Hextra & _).
      { rewrite Forall_forall. intros x _ t0. apply WalkTraceFacts.getAllFiles_item_logs. }
      destruct (for_items _ items [] t) as [t1 [files | e1]]; [discriminate |].
      simpl in Hextra. subst t1.
      unfold throw, bind, Core.error, Core.emit. simpl.
      intros E. injection E as <- <-. exists extra. reflexivity. }
  unfold getAllFiles. destruct (fs_lookup h dirPath) as [[] |]; apply Htree.
Qed.

(** Apart from logs, [validateApiAccess] adds one GET to the trace. *)
Lemma validateApiAccess_picked {A} (f : Event -> option A) h apiToken siteId apiBaseUrl t :
  (forall msg, f (EvInfo msg) = None) ->
  (forall msg, f (EvError msg) = None) ->
  Spec.pick f (fst (validateApiAccess h apiToken siteId apiBaseUrl t))
  = Spec.pick f t
    ++ Spec.pick f [EvGet (apiBaseUrl +:+ "/sites/" +:+ siteId +:+ "/files")
                      apiToken (Some "")].
Proof.
  intros Hi He.
  unfold validateApiAccess, try_catch.
  unfold bind at 1. unfold Core.info at 1, Core.emit at 1.
  unfold bind at 1. rewrite listFiles_run. cbv zeta.
  destruct (axios_get h _ _ apiToken (Some (default "" None))) as [data | e]; simpl.
  - unfold bind, Core.info, Core.emit, ret. simpl.
    rewrite !TraceFacts.pick_app. simpl. rewrite !Hi.
    destruct (f (EvGet _ _ _)); simpl; rewrite ?app_nil_r; reflexivity.
  - unfold bind, Core.error, Core.emit, throw.
    destruct (response e) as [code |];
      [destruct (code =? 401); [| destruct (code =? 403); [| destruct (code =? 404)]] |];
      simpl; rewrite !TraceFacts.pick_app; simpl; rewrite !Hi, !He;
      destruct (f (EvGet _ _ _)); simpl; rewrite ?app_nil_r; reflexivity.
Qed.

End ProbeTraceFacts.

(** X17. Reading from the remote is one read-only request.  [listFiles]
    sends exactly one GET to [{base}/sites/{siteId}/files] with the token and
    the [path] parameter (the empty string when none is given), sends no POST,
    and ends as the GET ends: it returns its data or throws its very error.
    [validateApiAccess] is one such request with the empty path, whatever its
    outcome. *)
Theorem remote_reads_are_single_gets (h : Host) (apiToken siteId apiBaseUrl : string)
    (t : Trace) :
  let url := apiBaseUrl +:+ "/sites/" +:+ siteId +:+ "/files" in
  (forall path,
     let r := ApiClient.listFiles h apiToken siteId apiBaseUrl path t in
     Spec.gets (fst r) = Spec.gets t ++ [(url, apiToken, Some (default "" path))]
     /\ Spec.posts (fst r) = Spec.posts t
     /\ exists sent,
          snd r = axios_get h sent url apiToken (Some (default "" path))
          /\ Spec.gets sent = Spec.gets t)
  /\ (let r := ApiClient.validateApiAccess h apiToken siteId apiBaseUrl t in
      Spec.gets (fst r) = Spec.gets t ++ [(url, apiToken, Some "")]
      /\ Spec.posts (fst r) = Spec.posts t
      /\ Spec.upload_calls (fst r) = Spec.upload_calls t).
Proof.
  cbv zeta. split.
  - intros path. rewrite ProbeTraceFacts.listFiles_run. cbv zeta.
    match goal with
    | |- context [axios_get h ?tr _ _ _] => set (sent := tr)
    end.
    assert (Spec.gets sent = Spec.gets t) as Hsent
      by (subst sent; pick_simpl; reflexivity).
    destruct (axios_get h sent _ apiToken (Some (default "" path))) as [data | e] eqn:E;
      simpl fst; simpl snd.
    + unfold Spec.posts, Spec.gets in *. rewrite !TraceFacts.pick_app, Hsent. simpl.
      split; [reflexivity |]. split; [subst sent; pick_simpl; reflexivity |].
      exists sent. split; [now rewrite E | exact Hsent].
    + unfold Spec.posts, Spec.gets in *. rewrite !TraceFacts.pick_app, Hsent. simpl.
      rewrite !app_nil_r.
      split; [reflexivity |]. split; [subst sent; pick_simpl; reflexivity |].
      exists sent. split; [now rewrite E | exact Hsent].
  - rewrite TraceFacts.upload_calls_pick, (TraceFacts.upload_calls_pick t).
    unfold Spec.gets, Spec.posts.
    rewrite !ProbeTraceFacts.validateApiAccess_picked by reflexivity.
    simpl. rewrite !app_nil_r. repeat split; reflexivity.
Qed.

(** X18. [getAllFiles] leaves no trace but error logs: a walk that returns
    has logged nothing, and a walk that throws [e] has only added
    [core.error] lines, the last of which names the directory the walk
    started from and the message of [e].  No request is ever made by the
    walk. *)
Theorem getAllFiles_only_logs_errors (h : Host) (dirPath : string)
    (basePathArg : option string) (t : Trace) :
  let r := ApiClient.getAllFiles h dirPath basePathArg t in
  exists logged,
    fst r = t ++ logged
    /\ Forall (fun ev => exists msg, ev = EvError msg) logged
    /\ (forall files, snd r = Returned files -> logged = [])
    /\ (forall e, snd r = Threw e ->
          exists before,
            logged = before ++ [EvError ("读取目录失败 " +:+ dirPath +:+ ": "
                                         +:+ message e)])
    /\ Spec.remote (fst r) = Spec.remote t.
Proof.
  cbv zeta.
  destruct (WalkTraceFacts.getAllFiles_logs h dirPath basePathArg t)
    as (logged & E & Hall).
  exists logged. split; [exact E |]. split; [exact Hall |].
  destruct (ApiClient.getAllFiles h dirPath basePathArg t) as [t' o] eqn:Hrun.
  simpl fst in *. simpl snd in *. subst t'.
  split; [| split].
  - intros files ->.
    destruct (WalkTraceFacts.getAllFiles_returned h dirPath basePathArg _ _ _ Hrun)
      as (Hsame & _).
    rewrite <- (app_nil_r t) in Hsame at 2. now apply app_inv_head in Hsame.
  - intros e ->.
    destruct (ProbeTraceFacts.getAllFiles_threw_last h dirPath basePathArg _ _ _ Hrun)
      as (before & Hlast).
    rewrite <- app_assoc in Hlast. apply app_inv_head in Hlast.
    exists before. exact Hlast.
  - unfold Spec.remote. rewrite TraceFacts.pick_app.
    rewrite (WalkTraceFacts.pick_errors Spec.as_remote logged (fun _ => eq_refl) Hall).
    now rewrite app_nil_r.
Qed.

(* ===================================================================== *)
(** ** Where each file is uploaded to *)
(* ===================================================================== *)

Module DirnameFacts.
Local Open Scope nat_scope.

Lemma scan_step path i m :
  Path.dirname_scan path (S i) m
  = if Spec.is_slash (String.get (S i) path)
    then (if negb m then Some (S i) else Path.dirname_scan path i m)
    else Path.dirname_scan path i false.
Proof.
  cbn [Path.dirname_scan].
  destruct (String.get (S i) path) as [[[] [] [] [] [] [] [] []]|]; reflexivity.
Qed.

Lemma get_in (s : string) : forall i c,
  String.get i s = Some c -> In c (JsString.chars s).
Proof.
  induction s as [|a r IH]; intros i c H; simpl in H; [discriminate|].
  destruct i as [|i].
  - injection H as ->. left. reflexivity.
  - right. exact (IH _ _ H).
Qed.

Lemma get_not_slash (s : string) i :
  ~ In "/"%char (JsString.chars s) -> Spec.is_slash (String.get i s) = false.
Proof.
  intros Hno. destruct (String.get i s) as [c|] eqn:E; [|reflexivity].
  simpl. destruct (Ascii.eqb_spec c "/"); [|reflexivity].
  subst c. exfalso. apply Hno. exact (get_in _ _ _ E).
Qed.

Lemma scan_none (s : string) :
  ~ In "/"%char (JsString.chars s) ->
  forall i m, Path.dirname_scan s i m = None.
Proof.
  intros Hno. induction i as [|i IH]; intros m; [reflexivity|].
  rewrite scan_step, get_not_slash by exact Hno. apply IH.
Qed.

Lemma get_append_r (p s : string) k :
  String.get (String.length p + k) (p +:+ s) = String.get k s.
Proof. rewrite Nat.add_comm. symmetry. apply String.append_correct2. Qed.

Lemma length_append (p s : string) :
  String.length (p +:+ s) = String.length p + String.length s.
Proof.
  induction p as [|a p IH]; [reflexivity|].
  rewrite PathFacts.append_cons. simpl. rewrite IH. reflexivity.
Qed.

Lemma substring_prefix (p s : string) :
  String.substring 0 (String.length p) (p +:+ s) = p.
Proof.
  induction p as [|a p IH].
  - rewrite PathFacts.append_nil. simpl. destruct s; reflexivity.
  - rewrite PathFacts.append_cons. simpl. rewrite IH. reflexivity.
Qed.

Lemma get_short (s : string) : forall i,
  i < String.length s -> exists c, String.get i s = Some c.
Proof.
  induction s as [|a r IH]; intros i Hi; simpl in Hi; [lia|].
  destruct i as [|i]; simpl; [eauto|]. apply IH. lia.
Qed.

Lemma scan_name (p n : string) :
  ~ In "/"%char (JsString.chars n) ->
  forall k m, k <= String.length n ->
    Path.dirname_scan (p +:+ "/" +:+ n) (String.length p + k) m
    = Path.dirname_scan (p +:+ "/" +:+ n) (String.length p)
        (if (k =? 0)%nat then m else false).
Proof.
  intros Hno. induction k as [|k IH]; intros m Hk.
  - rewrite Nat.add_0_r. reflexivity.
  - replace (String.length p + S k) with (S (String.length p + k)) by lia.
    rewrite scan_step.
    replace (S (String.length p + k)) with (String.length p + S k) at 1 by lia.
    rewrite get_append_r.
    change (String.get (S k) ("/" +:+ n)) with (String.get k n).
    rewrite get_not_slash by exact Hno.
    rewrite IH by lia. simpl. destruct (k =? 0)%nat; reflexivity.
Qed.

Lemma has_root (path : string) :
  match String.get 0 path with
  | Some "/"%char => true
  | _ => false
  end = Spec.is_slash (String.get 0 path).
Proof.
  destruct (String.get 0 path) as [[[] [] [] [] [] [] [] []]|]; reflexivity.
Qed.

Lemma posix_dirname_plain (n : string) :
  ~ In "/"%char (JsString.chars n) -> Path.posix_dirname n = ".".
Proof.
  intros Hno. unfold Path.posix_dirname.
  destruct (String.length n =? 0)%nat; [reflexivity|].
  rewrite scan_none by exact Hno.
  rewrite has_root, get_not_slash by exact Hno. reflexivity.
Qed.

Lemma posix_dirname_parent (p n : string) :
  p <> "" -> Spec.is_slash (String.get 0 p) = false ->
  n <> "" -> ~ In "/"%char (JsString.chars n) ->
  Path.posix_dirname (p +:+ "/" +:+ n) = p.
Proof.
  intros Hp Hroot Hn Hno. unfold Path.posix_dirname.
  rewrite !length_append.
  change (String.length "/") with 1.
  destruct n as [|c n']; [congruence|].
  destruct p as [|a p']; [congruence|].
  set (p := String a p') in *. set (n := String c n') in *.
  assert (Hlp : String.length p = S (String.length p')) by reflexivity.
  assert (Hln : String.length n = S (String.length n')) by reflexivity.
  replace ((String.length p + (1 + String.length n) =? 0)%nat) with false
    by (symmetry; apply Nat.eqb_neq; lia).
  replace (String.length p + (1 + String.length n) - 1)
    with (String.length p + String.length n) by lia.
  rewrite (scan_name p n Hno) by lia.
  rewrite Hln at 1. cbn [Nat.eqb].
  rewrite Hlp at 1. rewrite scan_step. rewrite <- Hlp.
  replace (String.length p) with (String.length p + 0) at 1 by lia.
  rewrite get_append_r. cbn [Spec.is_slash String.get Ascii.eqb Bool.eqb negb].
  rewrite has_root.
  assert (Hg : String.get 0 (p +:+ "/" +:+ n) = String.get 0 p) by reflexivity.
  rewrite Hg, Hroot. cbn [andb].
  apply substring_prefix.
Qed.

Lemma concat_snoc (sep : string) (dirs : list string) (nm : string) :
  dirs <> [] ->
  String.concat sep (dirs ++ [nm]) = String.concat sep dirs +:+ sep +:+ nm.
Proof.
  induction dirs as [|d ds IH]; intros Hne; [congruence|].
  destruct ds as [|d' ds]; [reflexivity|].
  change (String.concat sep ((d :: d' :: ds) ++ [nm]))
    with (d +:+ sep +:+ String.concat sep ((d' :: ds) ++ [nm])).
  rewrite IH by discriminate.
  change (String.concat sep (d :: d' :: ds))
    with (d +:+ sep +:+ String.concat sep (d' :: ds)).
  rewrite !PathFacts.append_assoc. reflexivity.
Qed.

Lemma concat_head (sep : string) (d : string) (ds : list string) :
  d <> "" ->
  String.concat sep (d :: ds) <> ""
  /\ String.get 0 (String.concat sep (d :: ds)) = String.get 0 d.
Proof.
  intros Hd. destruct d as [|c d']; [congruence|].
  destruct ds as [|d2 ds]; [split; [discriminate | reflexivity]|].
  change (String.concat sep (String c d' :: d2 :: ds))
    with (String c d' +:+ sep +:+ String.concat sep (d2 :: ds)).
  rewrite PathFacts.append_cons. split; [discriminate | reflexivity].
Qed.


Lemma split_last (route : list string) :
  route <> [] -> exists dirs nm, route = dirs ++ [nm].
Proof.
  intros Hne. exists (removelast route), (List.last route "").
  apply app_removelast_last. exact Hne.
Qed.

Lemma chars_append (a b : string) :
  JsString.chars (a +:+ b) = JsString.chars a ++ JsString.chars b.
Proof.
  induction a as [|x a IH]; [reflexivity|].
  rewrite PathFacts.append_cons. unfold JsString.chars in *. simpl. rewrite IH. reflexivity.
Qed.

Lemma replace_all_id c d (s : string) :
  ~ In c (JsString.chars s) -> JsString.replace_all c d s = s.
Proof.
  induction s as [|a r IH]; intros Hno; [reflexivity|].
  simpl. destruct (Ascii.eqb_spec a c) as [->|_].
  - exfalso. apply Hno. left. reflexivity.
  - rewrite IH; [reflexivity|]. intros Hin. apply Hno. right. exact Hin.
Qed.

Lemma call_of_place h sourceDir (dirs : list string) nm sz :
  path_dirname h = Path.posix_dirname ->
  List.Forall (Spec.plain_name "/") (dirs ++ [nm]) ->
  List.Forall (Spec.plain_name "\") (dirs ++ [nm]) ->
  Spec.call_of h (Spec.record_of "/" sourceDir sourceDir (dirs ++ [nm]) sz)
  = Spec.place sourceDir (dirs, nm).
Proof.
  intros Hdir Hslash Hback. unfold Spec.call_of, Spec.place. cbn [localPath relativePath fst snd Spec.record_of].
  f_equal. rewrite Hdir.
  rewrite ListingFacts.relative_path_of by (try exact Hslash; destruct dirs; discriminate).
  rewrite ListingFacts.replace_all_concat.
  replace (map (JsString.replace_all "\" "/") (dirs ++ [nm])) with (dirs ++ [nm]).
  2:{ symmetry. rewrite <- (map_id (dirs ++ [nm])) at 2.
      apply map_ext_in. intros x Hx.
      rewrite List.Forall_forall in Hback. apply replace_all_id, (Hback x Hx). }
  change (JsString.replace_all "\" "/" (Path.sep_string "/")) with "/".
  apply Forall_app in Hslash as [Hd Hn].
  apply List.Forall_inv in Hn. destruct Hn as [Hn1 Hn2].
  destruct dirs as [|d ds].
  - simpl. apply posix_dirname_plain. exact Hn2.
  - rewrite concat_snoc by discriminate.
    apply List.Forall_inv in Hd. destruct Hd as [Hd1 Hd2].
    destruct (concat_head "/" d ds Hd1) as [Hne Hget].
    apply posix_dirname_parent; try assumption.
    change (Spec.parent_directory (d :: ds)) with (String.concat "/" (d :: ds)).
    rewrite Hget. apply get_not_slash. exact Hd2.
Qed.

Lemma map_through {A B C} (f : A -> C) (g : B -> C) (P : B -> Prop) (l : list A) :
  (forall a, In a l -> exists b, P b /\ f a = g b) ->
  exists l', map f l = map g l' /\ length l' = length l /\ List.Forall P l'.
Proof.
  induction l as [|a l IH]; intros H.
  - exists []. repeat split. constructor.
  - destruct (H a (or_introl eq_refl)) as (b & Hb & E).
    destruct IH as (l' & E' & Hl & HP); [intros x Hx; apply H; right; exact Hx|].
    exists (b :: l'). simpl. rewrite E, E', Hl. repeat split. constructor; assumption.
Qed.

End DirnameFacts.

(** X19. On a POSIX host, for a normalized source path (as [create] passes
    it) and entry names that hold neither [/] nor [\], every [uploadFile]
    call of a batch that returns sends a file to its own directory below the
    source directory: a file reached through the
    directories [dirs] is uploaded from [sourceDir/dirs/name] with upload
    path [dirs] joined by [/], and a file at the root with upload path [.];
    there is one such call per file counted in [total], each for a regular
    file of the tree. *)
Theorem uploadPath_is_parent_directory (h : Host)
    (apiToken siteId apiBaseUrl sourceDir nm : string) (items : list Dirent)
    (t : Trace) (r : UploadResult) :
  path_sep h = "/"%char -> path_dirname h = Path.posix_dirname ->
  Path.normalized "/" sourceDir = true ->
  fs_lookup h sourceDir = Some (DDir nm None items) ->
  Spec.well_formed_in "/" items -> Spec.well_formed_in "\" items ->
  let run := ApiClient.uploadDirectory h apiToken siteId apiBaseUrl sourceDir t in
  snd run = Returned r ->
  exists places : list (list string * string),
    Spec.upload_calls (fst run)
    = Spec.upload_calls t ++ map (Spec.place sourceDir) places
    /\ Z.of_nat (length places) = total r
    /\ List.Forall (fun pl => exists sz, Spec.file_at items (pl.1 ++ [pl.2]) sz) places.
Proof.
  intros Hsep Hdir _ Hlook [_ Hs] [_ Hb] run Hrun. subst run.
  apply ListingFacts.well_formed_entries in Hs, Hb.
  set (t0 := t ++ [EvInfo ("开始上传目录: " +:+ sourceDir)]).
  pose proof (ListingFacts.getAllFiles_lookup h sourceDir None nm None items t0 Hlook)
    as Hwalk.
  pose proof (ListingFacts.getAllFiles_tree_outcome h sourceDir (default sourceDir None)
                None items t0) as Hout.
  destruct (Spec.first_failure_in None items) as [e|].
  - destruct Hout as [t1 Hout]. rewrite <- Hwalk in Hout.
    rewrite (LoopFacts.uploadDirectory_throws _ apiToken siteId apiBaseUrl _ _ _ _ Hout)
      in Hrun.
    discriminate.
  - rewrite <- Hwalk in Hout.
    destruct (LoopFacts.uploadDirectory_returns _ apiToken siteId apiBaseUrl _ _ _ _ Hout)
      as (t2 & r2 & Hrun2 & Htotal & _ & _ & _ & Hcalls).
    rewrite Hrun2 in Hrun |- *. injection Hrun as ->. cbn [fst].
    unfold t0 in Hcalls. rewrite LoopFacts.upload_calls_app in Hcalls.
    simpl in Hcalls. rewrite app_nil_r in Hcalls.
    rewrite Hsep in *.
    destruct (DirnameFacts.map_through (Spec.call_of h) (Spec.place sourceDir)
                (fun pl => exists sz, Spec.file_at items (pl.1 ++ [pl.2]) sz)
                (Spec.listing_in "/" sourceDir sourceDir items))
      as (places & Hmap & Hlen & Hall).
    + intros f Hf.
      destruct (ListingFacts.listing_in_sound _ _ _ _ _ Hf) as (route & sz & Hat & ->).
      destruct (DirnameFacts.split_last route (ListingFacts.file_at_route _ _ _ Hat))
        as (dirs & n & ->).
      exists (dirs, n). split; [exists sz; exact Hat|].
      apply DirnameFacts.call_of_place; [exact Hdir | |].
      * exact (ListingFacts.file_at_plain "/" _ _ _ Hat Hs).
      * exact (ListingFacts.file_at_plain "\" _ _ _ Hat Hb).
    + exists places. split; [|split].
      * rewrite Hcalls. simpl default. rewrite Hmap. reflexivity.
      * rewrite Htotal, Hlen. reflexivity.
      * exact Hall.
Qed.

Lemma uploadPath_is_parent_directory_witness :
  exists places : list (list string * string),
    Spec.upload_calls
      (fst (ApiClient.uploadDirectory (Examples.host_ok Examples.env_full) "secret"
              "site-1" "https://api.example.com" "/work/dist" []))
    = map (Spec.place "/work/dist") places
    /\ length places = 2%nat.
Proof.
  destruct (uploadPath_is_parent_directory (Examples.host_ok Examples.env_full) "secret"
              "site-1" "https://api.example.com" "/work/dist" "dist"
              [ DFile "index.html" (Returned 10);
                DDir "css" None [ DFile "style.css" (Returned 20) ] ] []
              {| total := 2; success := 2; failed := 0; errors := [] |})
    as (places & Hcalls & Hlen & _).
  - reflexivity.
  - reflexivity.
  - reflexivity.
  - reflexivity.
  - split; [repeat constructor; simpl; intuition discriminate |].
    cbv. repeat split; try (intros H; decompose [or] H; discriminate).
    all: repeat constructor; cbv; intuition discriminate.
  - split; [repeat constructor; simpl; intuition discriminate |].
    cbv. repeat split; try (intros H; decompose [or] H; discriminate).
    all: repeat constructor; cbv; intuition discriminate.
  - reflexivity.
  - exists places. split; [exact Hcalls | simpl in Hlen; lia].
Defined.
